(** * notes_database/init_db.py: the SQLite provisioner, embedded and verified

    The script opens [myapp.db], creates the schema if it is missing, seeds
    a few rows and writes two descriptor files.  The development has two
    layers:

    - the SQL layer gives each statement text that occurs in the script its
      meaning as a function on the database value [db];
    - the Python layer is a state-and-exception monad over [world] (the
      connection, its cursor, the console and the files written), in which
      each function of the script is written statement by statement. *)

From Stdlib Require Import ZArith List String Ascii Bool Lia.
Import ListNotations.

Open Scope string_scope.
Open Scope Z_scope.

(** ** Rows of the five tables, with the columns of the CREATE TABLE texts *)

Record app_info_row := {
  ai_id : Z;
  ai_key : string;
  ai_value : option string;
  ai_created_at : option string }.

Record user_row := {
  u_id : Z;
  u_username : string;
  u_email : string;
  u_created_at : option string }.

Record note_row := {
  n_id : Z;
  n_title : string;
  n_content : string;
  n_user_id : option Z;
  n_is_archived : Z;
  n_created_at : string;
  n_updated_at : string }.

Record tag_row := {
  t_id : Z;
  t_name : string;
  t_color : option string;
  t_created_at : string }.

Record note_tag_row := {
  nt_note_id : Z;
  nt_tag_id : Z;
  nt_created_at : string }.

(** ** The database value

    [objects] is the content of sqlite_master (type and name of each table
    and index).  A table named as in the script has the script's columns,
    an index named as in the script is the script's index: the value stands
    for the stores whose objects under these names were created by the
    script itself ([own_schema] below).  A table that is not in [objects]
    has no rows.  [seq_*] are the rows of
    sqlite_sequence for the four AUTOINCREMENT tables. *)

Inductive obj_type := Table | Index.

Record db := {
  objects : list (obj_type * string);
  app_info : list app_info_row;
  users : list user_row;
  notes : list note_row;
  tags : list tag_row;
  note_tags : list note_tag_row;
  seq_app_info : Z;
  seq_users : Z;
  seq_notes : Z;
  seq_tags : Z }.

Definition fresh : db :=
  {| objects := []; app_info := []; users := []; notes := []; tags := [];
     note_tags := []; seq_app_info := 0; seq_users := 0; seq_notes := 0;
     seq_tags := 0 |}.

Definition with_objects (o : list (obj_type * string)) (d : db) : db :=
  {| objects := o; app_info := app_info d; users := users d; notes := notes d;
     tags := tags d; note_tags := note_tags d; seq_app_info := seq_app_info d;
     seq_users := seq_users d; seq_notes := seq_notes d; seq_tags := seq_tags d |}.

Definition with_app_info (rows : list app_info_row) (seq : Z) (d : db) : db :=
  {| objects := objects d; app_info := rows; users := users d; notes := notes d;
     tags := tags d; note_tags := note_tags d; seq_app_info := seq;
     seq_users := seq_users d; seq_notes := seq_notes d; seq_tags := seq_tags d |}.

Definition with_users (rows : list user_row) (seq : Z) (d : db) : db :=
  {| objects := objects d; app_info := app_info d; users := rows; notes := notes d;
     tags := tags d; note_tags := note_tags d; seq_app_info := seq_app_info d;
     seq_users := seq; seq_notes := seq_notes d; seq_tags := seq_tags d |}.

Definition with_notes (rows : list note_row) (seq : Z) (d : db) : db :=
  {| objects := objects d; app_info := app_info d; users := users d; notes := rows;
     tags := tags d; note_tags := note_tags d; seq_app_info := seq_app_info d;
     seq_users := seq_users d; seq_notes := seq; seq_tags := seq_tags d |}.

Definition with_tags (rows : list tag_row) (seq : Z) (d : db) : db :=
  {| objects := objects d; app_info := app_info d; users := users d; notes := notes d;
     tags := rows; note_tags := note_tags d; seq_app_info := seq_app_info d;
     seq_users := seq_users d; seq_notes := seq_notes d; seq_tags := seq |}.

Definition with_note_tags (rows : list note_tag_row) (d : db) : db :=
  {| objects := objects d; app_info := app_info d; users := users d; notes := notes d;
     tags := tags d; note_tags := rows; seq_app_info := seq_app_info d;
     seq_users := seq_users d; seq_notes := seq_notes d; seq_tags := seq_tags d |}.

(** ** Results and the exception classes the script can meet *)

Inductive exn := OperationalError | IntegrityError | TypeError | OSError.

Inductive result (A : Type) :=
| Ok (a : A)
| Raise (x : exn).
Arguments Ok {A} a.
Arguments Raise {A} x.

(** ** SQLite: names, rowids *)

(** Object names are compared without regard to ASCII case. *)
Definition lower (c : ascii) : ascii :=
  let n := nat_of_ascii c in
  if (Nat.leb 65 n && Nat.leb n 90)%bool then ascii_of_nat (n + 32) else c.

Fixpoint lower_s (s : string) : string :=
  match s with
  | EmptyString => EmptyString
  | String c r => String (lower c) (lower_s r)
  end.

Definition name_eqb (a b : string) : bool := String.eqb (lower_s a) (lower_s b).

Definition obj_type_eqb (a b : obj_type) : bool :=
  match a, b with
  | Table, Table | Index, Index => true
  | _, _ => false
  end.

Definition has_obj (t : obj_type) (name : string) (d : db) : bool :=
  existsb (fun o => obj_type_eqb (fst o) t && name_eqb (snd o) name) (objects d).

Definition add_obj (t : obj_type) (name : string) (d : db) : db :=
  with_objects (objects d ++ [(t, name)]) d.

(** [name LIKE 'sqlite_%']: the six letters in any case, one more character,
    then anything. *)
Definition like_sqlite_ (name : string) : bool :=
  (String.eqb (lower_s (substring 0 6 name)) "sqlite" && Nat.ltb 6 (String.length name))%bool.

(** The rowid an AUTOINCREMENT table gives a new row: one more than the
    largest rowid the table holds and than the largest it ever held
    (sqlite_sequence); SQLITE_FULL once the largest 64-bit rowid was used. *)
Definition MAX_ROWID : Z := 9223372036854775807.

Definition largest (ids : list Z) : option Z :=
  match ids with
  | [] => None
  | i :: r => Some (fold_right Z.max i r)
  end.

Definition new_rowid (ids : list Z) (seq : Z) : option Z :=
  match largest ids with
  | None => if seq =? MAX_ROWID then None else Some (Z.max 1 (seq + 1))
  | Some m =>
      if ((MAX_ROWID <=? m) || (seq =? MAX_ROWID))%bool then None
      else Some (Z.max (m + 1) (seq + 1))
  end.

(** ** SQLite: the statements of the script *)

(** CREATE TABLE IF NOT EXISTS name (...) *)
Definition create_table (name : string) (d : db) : result db :=
  if has_obj Table name d then Ok d
  else if has_obj Index name d then Raise OperationalError
  else Ok (add_obj Table name d).

(** The columns that the script gives its tables (lines 34-98); the model
    knows no column of another table. *)
Definition table_columns (tbl : string) : list string :=
  if name_eqb tbl "app_info" then ["id"; "key"; "value"; "created_at"]
  else if name_eqb tbl "users" then ["id"; "username"; "email"; "created_at"]
  else if name_eqb tbl "notes"
  then ["id"; "title"; "content"; "user_id"; "is_archived"; "created_at"; "updated_at"]
  else if name_eqb tbl "tags" then ["id"; "name"; "color"; "created_at"]
  else if name_eqb tbl "note_tags" then ["note_id"; "tag_id"; "created_at"]
  else [].

Definition has_column (tbl col : string) : bool :=
  existsb (name_eqb col) (table_columns tbl).

(** CREATE INDEX IF NOT EXISTS name ON tbl(col): the table is looked up
    first, then the name; an index of the name ends the statement; else
    the column is looked up and the index built.  A table of the store
    under a name of the script is taken to be the table of the script,
    with the columns above: this is so of every store whose objects under
    these names were created by the script itself ([own_schema] below). *)
Definition create_index (name tbl col : string) (d : db) : result db :=
  if negb (has_obj Table tbl d) then Raise OperationalError
  else if has_obj Table name d then Raise OperationalError
  else if has_obj Index name d then Ok d
  else if negb (has_column tbl col) then Raise OperationalError
  else Ok (add_obj Index name d).

Fixpoint distinct (l : list string) : bool :=
  match l with
  | [] => true
  | x :: r => negb (existsb (String.eqb x) r) && distinct r
  end.

(** CREATE UNIQUE INDEX IF NOT EXISTS uq_notes_title ON notes(title):
    building the index fails when two notes share a title. *)
Definition create_unique_index_notes_title (d : db) : result db :=
  if negb (has_obj Table "notes" d) then Raise OperationalError
  else if has_obj Table "uq_notes_title" d then Raise OperationalError
  else if has_obj Index "uq_notes_title" d then Ok d
  else if distinct (map n_title (notes d)) then Ok (add_obj Index "uq_notes_title" d)
  else Raise IntegrityError.

(** INSERT OR REPLACE INTO app_info (key, value) VALUES (?, ?): the rows
    that hold the key are deleted, a new row takes a new rowid. *)
Definition replace_app_info (now k v : string) (d : db) : result db :=
  if negb (has_obj Table "app_info" d) then Raise OperationalError
  else match new_rowid (map ai_id (app_info d)) (seq_app_info d) with
       | None => Raise OperationalError
       | Some i =>
           Ok (with_app_info
                 (filter (fun r => negb (String.eqb (ai_key r) k)) (app_info d)
                  ++ [{| ai_id := i; ai_key := k; ai_value := Some v;
                         ai_created_at := Some now |}])
                 i d)
       end.

(** INSERT OR IGNORE INTO users (username, email) VALUES (?, ?): nothing is
    inserted when the username or the email is taken; the rowid was drawn
    before the conflict is seen, so sqlite_sequence moves either way. *)
Definition insert_ignore_user (now username email : string) (d : db) : result db :=
  if negb (has_obj Table "users" d) then Raise OperationalError
  else match new_rowid (map u_id (users d)) (seq_users d) with
       | None => Raise OperationalError
       | Some i =>
           if existsb (fun r => String.eqb (u_username r) username
                                || String.eqb (u_email r) email) (users d)
           then Ok (with_users (users d) i d)
           else Ok (with_users
                      (users d ++ [{| u_id := i; u_username := username;
                                      u_email := email; u_created_at := Some now |}])
                      i d)
       end.

(** SELECT id FROM users WHERE username = ? *)
Definition select_user_id (username : string) (d : db) : result (list Z) :=
  if negb (has_obj Table "users" d) then Raise OperationalError
  else Ok (map u_id (filter (fun r => String.eqb (u_username r) username) (users d))).

(** INSERT OR IGNORE INTO tags (name, color) VALUES (?, ?) *)
Definition insert_ignore_tag (now name color : string) (d : db) : result db :=
  if negb (has_obj Table "tags" d) then Raise OperationalError
  else match new_rowid (map t_id (tags d)) (seq_tags d) with
       | None => Raise OperationalError
       | Some i =>
           if existsb (fun r => String.eqb (t_name r) name) (tags d)
           then Ok (with_tags (tags d) i d)
           else Ok (with_tags
                      (tags d ++ [{| t_id := i; t_name := name; t_color := Some color;
                                     t_created_at := now |}])
                      i d)
       end.

(** SELECT id FROM tags WHERE name = ? *)
Definition select_tag_id (name : string) (d : db) : result (list Z) :=
  if negb (has_obj Table "tags" d) then Raise OperationalError
  else Ok (map t_id (filter (fun r => String.eqb (t_name r) name) (tags d))).

(** INSERT INTO notes (title, content, user_id, is_archived) VALUES (?,?,?,?)
    ON CONFLICT(title) DO UPDATE SET content=excluded.content,
    user_id=excluded.user_id, is_archived=excluded.is_archived,
    updated_at=CURRENT_TIMESTAMP.
    The conflict target needs the unique index on title; with foreign keys
    on, user_id must be the id of a user. *)
Definition touch_note (now title content : string) (uid arch : Z) (r : note_row) : note_row :=
  if String.eqb (n_title r) title
  then {| n_id := n_id r; n_title := n_title r; n_content := content;
          n_user_id := Some uid; n_is_archived := arch;
          n_created_at := n_created_at r; n_updated_at := now |}
  else r.

Definition upsert_note (fk : bool) (now title content : string) (uid arch : Z)
    (d : db) : result db :=
  if negb (has_obj Table "notes" d) then Raise OperationalError
  else if negb (has_obj Index "uq_notes_title" d) then Raise OperationalError
  else if fk && negb (has_obj Table "users" d) then Raise OperationalError
  else match new_rowid (map n_id (notes d)) (seq_notes d) with
       | None => Raise OperationalError
       | Some i =>
           if fk && negb (existsb (fun u => u_id u =? uid) (users d))
           then Raise IntegrityError
           else if existsb (fun r => String.eqb (n_title r) title) (notes d)
           then Ok (with_notes (map (touch_note now title content uid arch) (notes d)) i d)
           else Ok (with_notes
                      (notes d ++ [{| n_id := i; n_title := title; n_content := content;
                                      n_user_id := Some uid; n_is_archived := arch;
                                      n_created_at := now; n_updated_at := now |}])
                      i d)
       end.

(** SELECT id FROM notes WHERE title = ? *)
Definition select_note_id (title : string) (d : db) : result (list Z) :=
  if negb (has_obj Table "notes" d) then Raise OperationalError
  else Ok (map n_id (filter (fun r => String.eqb (n_title r) title) (notes d))).

(** INSERT OR IGNORE INTO note_tags (note_id, tag_id) VALUES (?, ?): the
    primary key (note_id, tag_id) decides the conflict; OR IGNORE does not
    cover a foreign key failure. *)
Definition insert_ignore_note_tag (fk : bool) (now : string) (nid tid : Z) (d : db)
    : result db :=
  if negb (has_obj Table "note_tags" d) then Raise OperationalError
  else if fk && negb (has_obj Table "notes" d && has_obj Table "tags" d)
  then Raise OperationalError
  else if existsb (fun r => (nt_note_id r =? nid) && (nt_tag_id r =? tid)) (note_tags d)
  then Ok d
  else if fk && negb (existsb (fun r => n_id r =? nid) (notes d)
                      && existsb (fun r => t_id r =? tid) (tags d))
  then Raise IntegrityError
  else Ok (with_note_tags
             (note_tags d ++ [{| nt_note_id := nid; nt_tag_id := tid;
                                 nt_created_at := now |}]) d).

(** SELECT COUNT( * ) FROM sqlite_master WHERE type='table' AND name NOT LIKE 'sqlite_%' *)
Definition count_tables (d : db) : Z :=
  Z.of_nat (List.length (filter (fun o => obj_type_eqb (fst o) Table
                                          && negb (like_sqlite_ (snd o))) (objects d))).

Definition count_rows {A : Type} (tbl : string) (rows : list A) (d : db) : result (list Z) :=
  if negb (has_obj Table tbl d) then Raise OperationalError
  else Ok [Z.of_nat (List.length rows)].

(** The statement texts of the script, one constructor each. *)
Inductive stmt :=
| PragmaForeignKeysOn
| CreateTable (name : string)
| CreateIndex (name tbl col : string)
| CreateUniqueIndexNotesTitle
| ReplaceAppInfo (k v : string)
| InsertIgnoreUser (username email : string)
| SelectUserId (username : string)
| InsertIgnoreTag (name color : string)
| UpsertNote (title content : string) (uid arch : Z)
| SelectNoteId (title : string)
| SelectTagId (name : string)
| InsertIgnoreNoteTag (nid tid : Z)
| CountTables
| CountNotes
| CountTags
| CountNoteTags.

(** The sqlite3 module opens a transaction before INSERT, UPDATE, DELETE and
    REPLACE statements only. *)
Definition is_dml (q : stmt) : bool :=
  match q with
  | ReplaceAppInfo _ _ | InsertIgnoreUser _ _ | InsertIgnoreTag _ _
  | UpsertNote _ _ _ _ | InsertIgnoreNoteTag _ _ => true
  | _ => false
  end.

Definition is_pragma (q : stmt) : bool :=
  match q with PragmaForeignKeysOn => true | _ => false end.

Definition changed (r : result db) : result (db * list Z) :=
  match r with
  | Ok d => Ok (d, [])
  | Raise x => Raise x
  end.

Definition selected (d : db) (r : result (list Z)) : result (db * list Z) :=
  match r with
  | Ok rows => Ok (d, rows)
  | Raise x => Raise x
  end.

(** The database after the statement and the rows it returns ([fk]: foreign
    keys are enforced; [now]: CURRENT_TIMESTAMP). *)
Definition exec_stmt (fk : bool) (now : string) (q : stmt) (d : db)
    : result (db * list Z) :=
  match q with
  | PragmaForeignKeysOn => Ok (d, [])
  | CreateTable name => changed (create_table name d)
  | CreateIndex name tbl col => changed (create_index name tbl col d)
  | CreateUniqueIndexNotesTitle => changed (create_unique_index_notes_title d)
  | ReplaceAppInfo k v => changed (replace_app_info now k v d)
  | InsertIgnoreUser u m => changed (insert_ignore_user now u m d)
  | SelectUserId u => selected d (select_user_id u d)
  | InsertIgnoreTag n c => changed (insert_ignore_tag now n c d)
  | UpsertNote t c u a => changed (upsert_note fk now t c u a d)
  | SelectNoteId t => selected d (select_note_id t d)
  | SelectTagId n => selected d (select_tag_id n d)
  | InsertIgnoreNoteTag n t => changed (insert_ignore_note_tag fk now n t d)
  | CountTables => Ok (d, [count_tables d])
  | CountNotes => selected d (count_rows "notes" (notes d) d)
  | CountTags => selected d (count_rows "tags" (tags d) d)
  | CountNoteTags => selected d (count_rows "note_tags" (note_tags d) d)
  end.

(** ** The Python layer *)

(** A line of console output: a fixed text, a text followed by a number or
    by the text of an exception. *)
Inductive msg :=
| Line (s : string)
| LineZ (label : string) (n : Z)
| LineExn (label : string) (x : exn).

(** What a run does outside the store: it prints and it writes files. *)
Inductive event :=
| Print (m : msg)
| Wrote (path content : string).

(** What a run meets outside the store. *)
Record env := {
  clock : nat -> string;        (* CURRENT_TIMESTAMP of the k-th statement *)
  fault : nat -> bool;          (* the k-th execute() or commit() fails in the store *)
  db_file_exists : bool;        (* os.path.exists(DB_NAME) *)
  probe_ok : bool;              (* the probing connection answers SELECT 1 *)
  can_connect : bool;           (* sqlite3.connect(DB_NAME) *)
  getcwd : option string;       (* os.getcwd(); None: it raises *)
  can_write : string -> bool;   (* open(path, "w") and the writes *)
  path_exists : string -> bool; (* os.path.exists(path) *)
  can_mkdir : string -> bool;   (* os.makedirs(path, exist_ok=True) *)
  which_sqlite3 : option bool   (* subprocess.run: None raises, Some b: returncode == 0 *)
}.

(** The store as a run acts on it: the committed file, what the connection
    sees, whether a transaction is open, whether foreign keys are enforced,
    the cursor's pending rows and the number of statements sent so far. *)
Record world := {
  disk : db;
  conn_db : db;
  in_txn : bool;
  fk_on : bool;
  fetched : list Z;
  pc : nat }.

Definition boot (s : db) : world :=
  {| disk := s; conn_db := s; in_txn := false; fk_on := false; fetched := [];
     pc := 0 |}.

(** A computation returns or raises, leaves a state and a trace of events. *)
Definition M (A : Type) : Type := world -> result A * world * list event.

Definition ret {A : Type} (a : A) : M A := fun w => (Ok a, w, []).

Definition bind {A B : Type} (m : M A) (f : A -> M B) : M B :=
  fun w => match m w with
           | (Ok a, w1, o1) => let '(r, w2, o2) := f a w1 in (r, w2, (o1 ++ o2)%list)
           | (Raise x, w1, o1) => (Raise x, w1, o1)
           end.

Definition raise {A : Type} (x : exn) : M A := fun w => (Raise x, w, []).

(** try: m except Exception as x: h x *)
Definition try_except {A : Type} (m : M A) (h : exn -> M A) : M A :=
  fun w => match m w with
           | (Ok a, w1, o1) => (Ok a, w1, o1)
           | (Raise x, w1, o1) => let '(r, w2, o2) := h x w1 in (r, w2, (o1 ++ o2)%list)
           end.

(** try: m finally: fin *)
Definition try_finally {A : Type} (m : M A) (fin : world -> world) : M A :=
  fun w => let '(r, w1, o1) := m w in (r, fin w1, o1).

Declare Scope py_scope.
Delimit Scope py_scope with py.
Notation "x <- m ;; k" := (bind m (fun x => k))
  (at level 61, m at next level, right associativity) : py_scope.
Notation "m ;; k" := (bind m (fun _ => k))
  (at level 61, right associativity) : py_scope.
Open Scope py_scope.

Fixpoint for_each {X : Type} (l : list X) (body : X -> M unit) : M unit :=
  match l with
  | [] => ret tt
  | x :: r => body x ;; for_each r body
  end.

Definition print (m : msg) : M unit := fun w => (Ok tt, w, [Print m]).

Definition nl : string := String (ascii_of_nat 10) EmptyString.
Definition dq : string := String (ascii_of_nat 34) EmptyString.

Definition DB_NAME : string := "myapp.db".

(** *** Paths

    [os.path] on POSIX: what the script's [os.path.abspath(DB_NAME)] runs. *)

(** path.split("/") *)
Fixpoint split_sep (s : string) : list string :=
  match s with
  | EmptyString => [EmptyString]
  | String c r =>
      if Ascii.eqb c "/" then EmptyString :: split_sep r
      else match split_sep r with
           | comp :: comps => String c comp :: comps
           | [] => [String c EmptyString]
           end
  end.

(** path.endswith("/") *)
Fixpoint ends_with_sep (s : string) : bool :=
  match s with
  | EmptyString => false
  | String c EmptyString => Ascii.eqb c "/"
  | String _ r => ends_with_sep r
  end.

(** os.path.isabs(path) *)
Definition os_path_isabs (path : string) : bool := String.prefix "/" path.

(** os.path.join(a, b) *)
Definition os_path_join (a b : string) : string :=
  if String.prefix "/" b then b
  else if (String.eqb a EmptyString || ends_with_sep a)%bool then a ++ b
  else a ++ "/" ++ b.

(** One or two leading slashes are kept, three or more count as one. *)
Definition initial_slashes (path : string) : nat :=
  if String.prefix "/" path
  then if (String.prefix "//" path && negb (String.prefix "///" path))%bool
       then 2%nat else 1%nat
  else 0%nat.

(** The loop of normpath over the components; [new_comps] is kept in
    reverse, its head is the component appended last. *)
Definition norm_step (initial : nat) (new_comps : list string) (comp : string)
  : list string :=
  if (String.eqb comp EmptyString || String.eqb comp ".")%bool then new_comps
  else if (negb (String.eqb comp "..")
           || (Nat.eqb initial 0 && match new_comps with [] => true | _ => false end)
           || match new_comps with last :: _ => String.eqb last ".." | [] => false end)%bool
       then comp :: new_comps
       else match new_comps with
            | _ :: rest => rest
            | [] => []
            end.

Fixpoint slashes (n : nat) : string :=
  match n with
  | O => EmptyString
  | S k => String "/" (slashes k)
  end.

(** os.path.normpath(path) *)
Definition os_path_normpath (path : string) : string :=
  if String.eqb path EmptyString then "."
  else
    let initial := initial_slashes path in
    let comps := List.rev (List.fold_left (norm_step initial) (split_sep path) []) in
    let p := slashes initial ++ String.concat "/" comps in
    if String.eqb p EmptyString then "." else p.

Arguments os_path_join : simpl never.
Arguments os_path_normpath : simpl never.

Section Provisioner.

Variable e : env.

(** cursor.execute(q): a fault of the store or an error of the statement
    raises and leaves the connection's view as it was; outside a transaction
    the statement's effect is committed at once; a DML statement opens the
    transaction; the pragma takes effect outside a transaction only. *)
Definition failed (txn : bool) (w : world) : world :=
  {| disk := disk w; conn_db := conn_db w; in_txn := txn; fk_on := fk_on w;
     fetched := []; pc := S (pc w) |}.

Definition execute (q : stmt) : M unit := fun w =>
  let txn := (in_txn w || is_dml q)%bool in
  if fault e (pc w) then (Raise OperationalError, failed txn w, [])
  else match exec_stmt (fk_on w) (clock e (pc w)) q (conn_db w) with
       | Raise x => (Raise x, failed txn w, [])
       | Ok (d, rows) =>
           (Ok tt,
            {| disk := if txn then disk w else d; conn_db := d; in_txn := txn;
               fk_on := (fk_on w || (is_pragma q && negb (in_txn w)))%bool;
               fetched := rows; pc := S (pc w) |},
            [])
       end.

(** cursor.fetchone() *)
Definition fetchone : M (option Z) := fun w =>
  match fetched w with
  | [] => (Ok None, w, [])
  | r :: rest =>
      (Ok (Some r),
       {| disk := disk w; conn_db := conn_db w; in_txn := in_txn w;
          fk_on := fk_on w; fetched := rest; pc := pc w |},
       [])
  end.

(** row[0] of a fetched row: TypeError when the row is None *)
Definition item0 (row : option Z) : M Z :=
  match row with
  | Some v => ret v
  | None => raise TypeError
  end.

(** conn.commit() *)
Definition commit : M unit := fun w =>
  if fault e (pc w) then (Raise OperationalError, failed (in_txn w) w, [])
  else (Ok tt,
        {| disk := conn_db w; conn_db := conn_db w; in_txn := false;
           fk_on := fk_on w; fetched := fetched w; pc := S (pc w) |},
        []).

(** conn.close(): what was not committed is rolled back *)
Definition close (w : world) : world :=
  {| disk := disk w; conn_db := disk w; in_txn := false; fk_on := fk_on w;
     fetched := []; pc := pc w |}.

(** sqlite3.connect(DB_NAME) *)
Definition connect : M unit := fun w =>
  if can_connect e then (Ok tt, w, []) else (Raise OperationalError, w, []).

Definition os_getcwd : M string := fun w =>
  match getcwd e with
  | Some p => (Ok p, w, [])
  | None => (Raise OSError, w, [])
  end.

(** os.path.abspath(path): a relative path is joined to the working
    directory, and the result is normalised; an absolute one is normalised
    without asking for the working directory. *)
Definition os_path_abspath (path : string) : M string :=
  if os_path_isabs path then ret (os_path_normpath path)
  else cwd <- os_getcwd ;; ret (os_path_normpath (os_path_join cwd path)).

Definition os_makedirs (path : string) : M unit := fun w =>
  if can_mkdir e path then (Ok tt, w, []) else (Raise OSError, w, []).

(** with open(path, "w") as f: f.write(...) ... *)
Definition write_file (path content : string) : M unit := fun w =>
  if can_write e path then (Ok tt, w, [Wrote path content])
  else (Raise OSError, w, []).

(** *** The functions of init_db.py *)

Definition _enable_foreign_keys : M unit :=
  execute PragmaForeignKeysOn.

Definition _create_core_tables : M unit :=
  execute (CreateTable "app_info") ;;
  execute (CreateTable "users").

Definition _create_notes_schema : M unit :=
  execute (CreateTable "notes") ;;
  execute (CreateTable "tags") ;;
  execute (CreateTable "note_tags") ;;
  execute (CreateIndex "idx_notes_created_at" "notes" "created_at") ;;
  execute (CreateIndex "idx_notes_updated_at" "notes" "updated_at") ;;
  execute (CreateIndex "idx_notes_archived" "notes" "is_archived") ;;
  execute (CreateIndex "idx_notes_user_id" "notes" "user_id") ;;
  execute (CreateIndex "idx_tags_name" "tags" "name") ;;
  execute (CreateIndex "idx_note_tags_tag_id" "note_tags" "tag_id") ;;
  execute (CreateIndex "idx_note_tags_note_id" "note_tags" "note_id").

Definition _ensure_notes_title_unique_index : M unit :=
  execute CreateUniqueIndexNotesTitle.

Definition _upsert_app_info : M unit :=
  execute (ReplaceAppInfo "project_name" "notes_database") ;;
  execute (ReplaceAppInfo "version" "0.2.0") ;;
  execute (ReplaceAppInfo "author" "John Doe") ;;
  execute (ReplaceAppInfo "description"
             "SQLite database for the Notemaster notes app (notes, tags, note_tags)").

Definition _ensure_seed_user : M Z :=
  execute (InsertIgnoreUser "demo" "demo@example.com") ;;
  execute (SelectUserId "demo") ;;
  row <- fetchone ;;
  item0 row.

Definition seed_tags : list (string * string) :=
  [ ("work", "#3b82f6");
    ("personal", "#06b6d4");
    ("ideas", "#64748b");
    ("urgent", "#ef4444") ].

Definition _seed_tags : M unit :=
  for_each seed_tags (fun '(name, color) => execute (InsertIgnoreTag name color)).

(** The seed notes without the owner, which [_seed_notes] fills in. *)
Definition seed_notes : list (string * string * Z) :=
  [ ("Welcome to Notemaster",
     "This is a demo note to help you verify the UI end-to-end." ++ nl ++ nl ++
     "Try editing this note, adding tags, and searching for keywords like 'demo' or 'Notemaster'.",
     0);
    ("Retro checklist",
     "- Create a new note" ++ nl ++ "- Add tags" ++ nl ++ "- Search notes" ++ nl ++
     "- Archive notes" ++ nl ++ nl ++
     "If you can do all of these, the core UX is working.",
     0);
    ("Meeting notes (sample)",
     "Agenda:" ++ nl ++ "1) Status updates" ++ nl ++ "2) Blockers" ++ nl ++
     "3) Next steps" ++ nl ++ nl ++
     "Action items:" ++ nl ++ "- Follow up on API integration" ++ nl ++
     "- Confirm database schema supports tags",
     0);
    ("Archived example",
     "This is an archived note to test filtered views.",
     1) ].

Definition _seed_notes (user_id : Z) : M unit :=
  for_each seed_notes
    (fun '(title, content, is_archived) =>
       execute (UpsertNote title content user_id is_archived)).

Definition mappings : list (string * list string) :=
  [ ("Welcome to Notemaster", ["ideas"; "personal"]);
    ("Retro checklist", ["work"; "urgent"]);
    ("Meeting notes (sample)", ["work"]);
    ("Archived example", ["personal"]) ].

Definition _seed_note_tags : M unit :=
  for_each mappings
    (fun '(note_title, tag_names) =>
       execute (SelectNoteId note_title) ;;
       note_row <- fetchone ;;
       match note_row with
       | None => ret tt
       | Some note_id =>
           for_each tag_names
             (fun tag_name =>
                execute (SelectTagId tag_name) ;;
                tag_row <- fetchone ;;
                match tag_row with
                | None => ret tt
                | Some tag_id => execute (InsertIgnoreNoteTag note_id tag_id)
                end)
       end).

Definition _write_connection_files : M unit :=
  current_dir <- os_getcwd ;;
  let connection_string := "sqlite:///" ++ current_dir ++ "/" ++ DB_NAME in
  try_except
    (write_file "db_connection.txt"
       ("# SQLite connection methods:" ++ nl ++
        "# Python: sqlite3.connect('" ++ DB_NAME ++ "')" ++ nl ++
        "# Connection string: " ++ connection_string ++ nl ++
        "# File path: " ++ current_dir ++ "/" ++ DB_NAME ++ nl) ;;
     print (Line "Connection information saved to db_connection.txt"))
    (fun x => print (LineExn "Warning: Could not save connection info: " x)) ;;
  db_path <- os_path_abspath DB_NAME ;;
  (if negb (path_exists e "db_visualizer")
   then os_makedirs "db_visualizer" ;;
        print (Line "Created db_visualizer directory")
   else ret tt) ;;
  try_except
    (write_file "db_visualizer/sqlite.env"
       ("export SQLITE_DB=" ++ dq ++ db_path ++ dq ++ nl) ;;
     print (Line "Environment variables saved to db_visualizer/sqlite.env"))
    (fun x => print (LineExn "Warning: Could not save environment variables: " x)).

(** The probing connection of lines 289-292: connect, SELECT 1, close. *)
Definition probe : M unit := fun w =>
  if probe_ok e then (Ok tt, w, []) else (Raise OperationalError, w, []).

(** subprocess.run(["which", "sqlite3"], ...).returncode == 0 *)
Definition which_cli : M bool := fun w =>
  match which_sqlite3 e with
  | Some b => (Ok b, w, [])
  | None => (Raise OSError, w, [])
  end.

Definition main : M unit :=
  print (Line "Starting SQLite setup...") ;;
  (if db_file_exists e
   then print (Line ("SQLite database already exists at " ++ DB_NAME)) ;;
        try_except
          (probe ;; print (Line "Database is accessible and working."))
          (fun x => print (LineExn "Warning: Database exists but may be corrupted: " x))
   else print (Line "Creating new SQLite database...")) ;;
  connect ;;
  try_finally
    (_enable_foreign_keys ;;
     _create_core_tables ;;
     _create_notes_schema ;;
     _ensure_notes_title_unique_index ;;
     _upsert_app_info ;;
     demo_user_id <- _ensure_seed_user ;;
     _seed_tags ;;
     _seed_notes demo_user_id ;;
     _seed_note_tags ;;
     commit ;;
     execute CountTables ;;
     table_count <- (row <- fetchone ;; item0 row) ;;
     execute CountNotes ;;
     notes_count <- (row <- fetchone ;; item0 row) ;;
     execute CountTags ;;
     tags_count <- (row <- fetchone ;; item0 row) ;;
     execute CountNoteTags ;;
     note_tags_count <- (row <- fetchone ;; item0 row) ;;
     _write_connection_files ;;
     print (Line (nl ++ "SQLite setup complete!")) ;;
     print (Line ("Database: " ++ DB_NAME)) ;;
     cwd <- os_getcwd ;;
     print (Line ("Location: " ++ cwd ++ "/" ++ DB_NAME)) ;;
     print (Line EmptyString) ;;
     print (Line "To use with Node.js viewer, run: source db_visualizer/sqlite.env") ;;
     print (Line EmptyString) ;;
     print (Line "Database statistics:") ;;
     print (LineZ "  Tables: " table_count) ;;
     print (LineZ "  Notes: " notes_count) ;;
     print (LineZ "  Tags: " tags_count) ;;
     print (LineZ "  Note-Tag relations: " note_tags_count) ;;
     try_except
       (ok <- which_cli ;;
        if ok : bool
        then print (Line EmptyString) ;;
             print (Line "SQLite CLI is available. You can also use:") ;;
             print (Line ("  sqlite3 " ++ DB_NAME))
        else ret tt)
       (fun _ => ret tt) ;;
     print (Line (nl ++ "Script completed successfully.")))
    close.

(** The schema and seed steps up to the commit (lines 301-316 of [main]). *)
Definition provision : M unit :=
  _enable_foreign_keys ;;
  _create_core_tables ;;
  _create_notes_schema ;;
  _ensure_notes_title_unique_index ;;
  _upsert_app_info ;;
  demo_user_id <- _ensure_seed_user ;;
  _seed_tags ;;
  _seed_notes demo_user_id ;;
  _seed_note_tags ;;
  commit.

(** The statistics, the descriptor files and the closing messages (lines
    318-357 of [main]). *)
Definition report : M unit :=
  execute CountTables ;;
  table_count <- (row <- fetchone ;; item0 row) ;;
  execute CountNotes ;;
  notes_count <- (row <- fetchone ;; item0 row) ;;
  execute CountTags ;;
  tags_count <- (row <- fetchone ;; item0 row) ;;
  execute CountNoteTags ;;
  note_tags_count <- (row <- fetchone ;; item0 row) ;;
  _write_connection_files ;;
  print (Line (nl ++ "SQLite setup complete!")) ;;
  print (Line ("Database: " ++ DB_NAME)) ;;
  cwd <- os_getcwd ;;
  print (Line ("Location: " ++ cwd ++ "/" ++ DB_NAME)) ;;
  print (Line EmptyString) ;;
  print (Line "To use with Node.js viewer, run: source db_visualizer/sqlite.env") ;;
  print (Line EmptyString) ;;
  print (Line "Database statistics:") ;;
  print (LineZ "  Tables: " table_count) ;;
  print (LineZ "  Notes: " notes_count) ;;
  print (LineZ "  Tags: " tags_count) ;;
  print (LineZ "  Note-Tag relations: " note_tags_count) ;;
  try_except
    (ok <- which_cli ;;
     if ok : bool
     then print (Line EmptyString) ;;
          print (Line "SQLite CLI is available. You can also use:") ;;
          print (Line ("  sqlite3 " ++ DB_NAME))
     else ret tt)
    (fun _ => ret tt) ;;
  print (Line (nl ++ "Script completed successfully.")).

(** What [main] does before it connects (lines 284-297). *)
Definition greet : M unit :=
  print (Line "Starting SQLite setup...") ;;
  (if db_file_exists e
   then print (Line ("SQLite database already exists at " ++ DB_NAME)) ;;
        try_except
          (probe ;; print (Line "Database is accessible and working."))
          (fun x => print (LineExn "Warning: Database exists but may be corrupted: " x))
   else print (Line "Creating new SQLite database...")).

End Provisioner.

(** One run of the script on the store [s]. *)
Definition run (e : env) (s : db) : result unit * world * list event :=
  main e (boot s).

(** The store that a run leaves on disk. *)
Definition after (e : env) (s : db) : db := disk (snd (fst (run e s))).

(** The run on [s] reached and completed conn.commit(), leaving [s']. *)
Definition committed (e : env) (s s' : db) : Prop :=
  exists w o, provision e (boot s) = (Ok tt, w, o) /\ s' = disk w.

(** An environment without failures whose clock shows [t] throughout. *)
Definition calm (t : string) : env :=
  {| clock := fun _ => t; fault := fun _ => false; db_file_exists := false;
     probe_ok := true; can_connect := true; getcwd := Some "/srv/notes";
     can_write := fun _ => true; path_exists := fun _ => false;
     can_mkdir := fun _ => true; which_sqlite3 := Some true |}.

Definition t0 : string := "2024-01-01 00:00:00".
Definition t1 : string := "2024-01-02 00:00:00".

(** ** Vocabulary of the properties *)

Open Scope list_scope.

(** [hoare P m Q E]: from a state in [P], [m] ends in [Q] when it returns
    and in [E] when it raises. *)
Definition hoare {A : Type} (P : world -> Prop) (m : M A)
    (Q : A -> world -> Prop) (E : exn -> world -> Prop) : Prop :=
  forall w, P w ->
    match m w with
    | (Ok a, w', _) => Q a w'
    | (Raise x, w', _) => E x w'
    end.

(** [E] holds of a raise from any state in [I]. *)
Definition covers (I : world -> Prop) (E : exn -> world -> Prop) : Prop :=
  forall x w, I w -> E x w.

(** The assertion holds of the committed file and of the connection's view. *)
Definition both (R : db -> Prop) (w : world) : Prop :=
  R (disk w) /\ R (conn_db w).

(** [R] on both views, together with foreign keys being on when [b] is set. *)
Definition bothk (b : bool) (R : db -> Prop) (w : world) : Prop :=
  (b = true -> fk_on w = true) /\ both R w.

Definition seed_keys : list string :=
  ["project_name"; "version"; "author"; "description"].
Definition seed_names : list string := map fst seed_tags.
Definition seed_titles : list string := map (fun x => fst (fst x)) seed_notes.

Definition seed_indexes : list string :=
  ["idx_notes_created_at"; "idx_notes_updated_at"; "idx_notes_archived";
   "idx_notes_user_id"; "idx_tags_name"; "idx_note_tags_tag_id";
   "idx_note_tags_note_id"].

(** The statements whose arguments are the script's seed data. *)
Definition seed_stmt (q : stmt) : Prop :=
  match q with
  | CreateIndex n _ _ => In n seed_indexes
  | ReplaceAppInfo k _ => In k seed_keys
  | InsertIgnoreTag n _ => In n seed_names
  | UpsertNote t _ _ _ => In t seed_titles
  | _ => True
  end.

(** Every association points to a note and to a tag. *)
Definition ref_integrity (d : db) : Prop :=
  forall r, In r (note_tags d) ->
    (exists n, In n (notes d) /\ n_id n = nt_note_id r) /\
    (exists t, In t (tags d) /\ t_id t = nt_tag_id r).

(** The rows and the sequence counters of [d] are those of [s]. *)
Definition same_rows (s d : db) : Prop :=
  app_info d = app_info s /\ users d = users s /\ notes d = notes s /\
  tags d = tags s /\ note_tags d = note_tags s /\
  seq_app_info d = seq_app_info s /\ seq_users d = seq_users s /\
  seq_notes d = seq_notes s /\ seq_tags d = seq_tags s.

(** What a run may do to the rows that [s] holds. *)
Record frame (s d : db) : Prop := {
  fr_objects : incl (objects s) (objects d);
  fr_users : exists U, users d = users s ++ U;
  fr_tags : exists T, tags d = tags s ++ T /\
              NoDup (map t_name T) /\
              forall t, In t T ->
                In (t_name t) seed_names /\
                existsb (fun r => String.eqb (t_name r) (t_name t)) (tags s) = false;
  fr_note_tags : exists N, note_tags d = note_tags s ++ N;
  fr_notes : forall r, In r (notes s) ->
               exists r', In r' (notes d) /\ n_id r' = n_id r /\
                          n_title r' = n_title r /\
                          (~ In (n_title r) seed_titles -> r' = r);
  fr_app_info : forall r, In r (app_info s) -> ~ In (ai_key r) seed_keys ->
                  In r (app_info d) }.

(** [R] survives every statement that carries seed data ([b]: provided
    foreign keys are enforced). *)
Definition stable (b : bool) (R : db -> Prop) : Prop :=
  forall q fk now d d' rows,
    seed_stmt q -> (b = true -> fk = true) -> R d ->
    exec_stmt fk now q d = Ok (d', rows) -> R d'.

(** Nothing of the run is on disk yet: the file holds the rows of [s] and
    at least its objects, and outside a transaction the connection sees
    the file. *)
Definition untouched (s : db) (w : world) : Prop :=
  same_rows s (disk w) /\ incl (objects s) (objects (disk w)) /\
  (in_txn w = false -> conn_db w = disk w).

(** While the schema statements run: the connection sees the rows of [s],
    and the unique index on notes.title is there if and only if it was. *)
Definition schema_inv (s : db) (w : world) : Prop :=
  same_rows s (conn_db w) /\
  has_obj Index "uq_notes_title" (conn_db w) = has_obj Index "uq_notes_title" s.

(** The run has committed [s] and has nothing pending. *)
Definition settled (s : db) (w : world) : Prop :=
  disk w = s /\ conn_db w = s /\ in_txn w = false.

(** The statements that only read. *)
Definition is_query (q : stmt) : bool :=
  match q with
  | SelectUserId _ | SelectNoteId _ | SelectTagId _
  | CountTables | CountNotes | CountTags | CountNoteTags => true
  | _ => false
  end.

(** Two computations that behave alike from every state. *)
Definition same_run {A : Type} (m m' : M A) : Prop := forall w, m w = m' w.

(** The table a statement writes to, if any. *)
Inductive table := AppInfo | Users | Notes | Tags | NoteTags.

Definition writes (q : stmt) : option table :=
  match q with
  | ReplaceAppInfo _ _ => Some AppInfo
  | InsertIgnoreUser _ _ => Some Users
  | InsertIgnoreTag _ _ => Some Tags
  | UpsertNote _ _ _ _ => Some Notes
  | InsertIgnoreNoteTag _ _ => Some NoteTags
  | _ => None
  end.

Definition table_eqb (a b : table) : bool :=
  match a, b with
  | AppInfo, AppInfo | Users, Users | Notes, Notes | Tags, Tags
  | NoteTags, NoteTags => true
  | _, _ => false
  end.

(** [q] writes to [t] or to no table. *)
Definition only_writes (t : table) (q : stmt) : bool :=
  match writes q with
  | Some t' => table_eqb t t'
  | None => true
  end.

(** The rows of the tables other than [t] are the same in [d] and [d']. *)
Definition same_but (t : table) (d d' : db) : Prop :=
  (t <> AppInfo -> app_info d' = app_info d) /\
  (t <> Users -> users d' = users d) /\
  (t <> Notes -> notes d' = notes d) /\
  (t <> Tags -> tags d' = tags d) /\
  (t <> NoteTags -> note_tags d' = note_tags d).

(** The schema statements before the unique index is asked for. *)
Definition plain_ddl (q : stmt) : bool :=
  match q with
  | PragmaForeignKeysOn | CreateTable _ | CreateIndex _ _ _ => true
  | _ => false
  end.

(** [m], started at statement [k] on the view [d], returns [a] and leaves
    the view [d']. *)
Definition step {A : Type} (m : M A) (k : nat) (d : db) (a : A) (d' : db) : Prop :=
  exists w w' o, pc w = k /\ conn_db w = d /\ m w = (Ok a, w', o) /\ conn_db w' = d'.

(** Lookups by the unique columns. *)
Definition has_user (username : string) (d : db) : bool :=
  existsb (fun r => String.eqb (u_username r) username) (users d).
Definition has_tag (name : string) (d : db) : bool :=
  existsb (fun r => String.eqb (t_name r) name) (tags d).
Definition has_note (title : string) (d : db) : bool :=
  existsb (fun r => String.eqb (n_title r) title) (notes d).
Definition has_link (nid tid : Z) (d : db) : bool :=
  existsb (fun r => (nt_note_id r =? nid) && (nt_tag_id r =? tid)) (note_tags d).

(** The id that fetchone returns after the SELECT by username, title, name. *)
Definition first_user_id (username : string) (d : db) : option Z :=
  hd_error (map u_id (filter (fun r => String.eqb (u_username r) username) (users d))).
Definition first_note_id (title : string) (d : db) : option Z :=
  hd_error (map n_id (filter (fun r => String.eqb (n_title r) title) (notes d))).
Definition first_tag_id (name : string) (d : db) : option Z :=
  hd_error (map t_id (filter (fun r => String.eqb (t_name r) name) (tags d))).

(** A note without its update time. *)
Definition strip (r : note_row) : note_row :=
  {| n_id := n_id r; n_title := n_title r; n_content := n_content r;
     n_user_id := n_user_id r; n_is_archived := n_is_archived r;
     n_created_at := n_created_at r; n_updated_at := EmptyString |}.

(** A note with the update time [now], all else as it was. *)
Definition set_updated_at (now : string) (r : note_row) : note_row :=
  {| n_id := n_id r; n_title := n_title r; n_content := n_content r;
     n_user_id := n_user_id r; n_is_archived := n_is_archived r;
     n_created_at := n_created_at r; n_updated_at := now |}.

(** What the upserts of the notes [l], sent from statement [k] on, make of
    a note that is already as the script writes it: the note whose title is
    in [l] takes the time of the statement that upserts it, any other note
    is left as it is. *)
Fixpoint restamp (clk : nat -> string) (k : nat) (l : list (string * string * Z))
    (r : note_row) : note_row :=
  match l with
  | [] => r
  | (t, _, _) :: rest =>
      if String.eqb (n_title r) t then set_updated_at (clk k) r
      else restamp clk (S k) rest r
  end.

(** The seed note [x] is in [d] as the script writes it for the owner [uid]. *)
Definition seeded_note (uid : Z) (x : string * string * Z) (d : db) : Prop :=
  let '(t, c, a) := x in
  has_note t d = true /\
  forall r, In r (notes d) -> n_title r = t ->
    n_content r = c /\ n_user_id r = Some uid /\ n_is_archived r = a.

(** The upserts of the notes [l], sent from statement [k] on, lead from [d]
    to [d']. *)
Inductive upserted (e : env) (uid : Z) :
    nat -> list (string * string * Z) -> db -> db -> Prop :=
| upserted_nil k d : upserted e uid k [] d d
| upserted_cons k t c a l fk d d1 d' :
    upsert_note fk (clock e k) t c uid a d = Ok d1 ->
    upserted e uid (S k) l d1 d' ->
    upserted e uid k ((t, c, a) :: l) d d'.

(** Every pair of [maps] whose note and tag are found in [d] is linked
    in [d]. *)
Definition linked_in (maps : list (string * list string)) (d : db) : Prop :=
  forall t names n nid tid,
    In (t, names) maps -> In n names ->
    first_note_id t d = Some nid -> first_tag_id n d = Some tid ->
    has_link nid tid d = true.

(** The app_info rows after [_upsert_app_info] ran from statement [k] on. *)
Definition app_row (i : Z) (k v now : string) : app_info_row :=
  {| ai_id := i; ai_key := k; ai_value := Some v; ai_created_at := Some now |}.

Definition non_seed_key (r : app_info_row) : bool :=
  negb (existsb (String.eqb (ai_key r)) seed_keys).

Definition app_info_reseeded (e : env) (k : nat) (d d' : db) : Prop :=
  exists i1 i2 i3 i4,
    app_info d'
    = filter non_seed_key (app_info d)
      ++ [ app_row i1 "project_name" "notes_database" (clock e k);
           app_row i2 "version" "0.2.0" (clock e (1 + k));
           app_row i3 "author" "John Doe" (clock e (2 + k));
           app_row i4 "description"
             "SQLite database for the Notemaster notes app (notes, tags, note_tags)"
             (clock e (3 + k)) ]
    /\ (forall r, In r (app_info d) -> ai_id r < i1)
    /\ i1 < i2 /\ i2 < i3 /\ i3 < i4.

(** The seeding of a run that commits, table by table: [d5] after the
    app metadata, [d6] after the seed user [uid], [d7] after the tags, [d8]
    after the notes, [s'] after the associations. *)
Record seeding (e : env) (s s' d5 d6 d7 d8 : db) (uid : Z) : Prop := {
  sg_titles : has_obj Index "uq_notes_title" s = true \/
              distinct (map n_title (notes s)) = true;
  sg_app : app_info_reseeded e 14 s d5;
  sg_app_rest : users d5 = users s /\ notes d5 = notes s /\ tags d5 = tags s /\
                note_tags d5 = note_tags s;
  sg_user : step (_ensure_seed_user e) 18 d5 uid d6;
  sg_user_rest : app_info d6 = app_info d5 /\ notes d6 = notes s /\
                 tags d6 = tags s /\ note_tags d6 = note_tags s;
  sg_tags : step (_seed_tags e) 20 d6 tt d7;
  sg_tags_rest : app_info d7 = app_info d5 /\ users d7 = users d6 /\
                 notes d7 = notes s /\ note_tags d7 = note_tags s;
  sg_notes : upserted e uid 24 seed_notes d7 d8;
  sg_notes_rest : app_info d8 = app_info d5 /\ users d8 = users d6 /\
                  tags d8 = tags d7 /\ note_tags d8 = note_tags s;
  sg_links : step (_seed_note_tags e) 28 d8 tt s';
  sg_links_rest : app_info s' = app_info d5 /\ users s' = users d6 /\
                  tags s' = tags d7 /\ notes s' = notes d8 }.

(** What a committed run leaves for the next one to find. *)
Record seeded (d : db) (uid : Z) : Prop := {
  sd_user : first_user_id "demo" d = Some uid;
  sd_tags : forall n, In n seed_names -> has_tag n d = true;
  sd_notes : forall x, In x seed_notes -> seeded_note uid x d;
  sd_links : linked_in mappings d }.

(** Whatever [m] returns, [m'] returns too, from the same state. *)
Definition agree {A : Type} (m m' : M A) : Prop :=
  forall w a w' o, m w = (Ok a, w', o) -> m' w = (Ok a, w', o).

(** The environment [e] with a store that never fails. *)
Definition no_faults (e : env) : env :=
  {| clock := clock e; fault := fun _ => false;
     db_file_exists := db_file_exists e; probe_ok := probe_ok e;
     can_connect := can_connect e; getcwd := getcwd e; can_write := can_write e;
     path_exists := path_exists e; can_mkdir := can_mkdir e;
     which_sqlite3 := which_sqlite3 e |}.

(** The key and value pairs of [_upsert_app_info], in the order sent. *)
Definition seed_app_info : list (string * string) :=
  [ ("project_name", "notes_database");
    ("version", "0.2.0");
    ("author", "John Doe");
    ("description",
     "SQLite database for the Notemaster notes app (notes, tags, note_tags)") ].

(** A user of the application edits the color of the tag [name]. *)
Definition recolor (name color : string) (d : db) : db :=
  with_tags
    (map (fun r => if String.eqb (t_name r) name
                   then {| t_id := t_id r; t_name := t_name r;
                           t_color := Some color; t_created_at := t_created_at r |}
                   else r)
         (tags d))
    (seq_tags d) d.

(** The stores that runs reach from [s0], whatever each run's outcome. *)
Inductive reachable (s0 : db) : db -> Prop :=
| reach_start : reachable s0 s0
| reach_run e s : reachable s0 s -> reachable s0 (after e s).

(** *** Concrete stores and environments *)

(** The store after one run on the empty store, and after a second run a
    day later. *)
Definition once : db := after (calm t0) fresh.
Definition twice : db := after (calm t1) once.

(** The store fails at its [k]-th statement (a full disk, a lock). *)
Definition fault_at (k : nat) : env :=
  {| clock := fun _ => t0; fault := fun n => Nat.eqb n k; db_file_exists := false;
     probe_ok := true; can_connect := true; getcwd := Some "/srv/notes";
     can_write := fun _ => true; path_exists := fun _ => false;
     can_mkdir := fun _ => true; which_sqlite3 := Some true |}.

(** The directory db_visualizer is absent and cannot be created. *)
Definition no_mkdir : env :=
  {| clock := fun _ => t0; fault := fun _ => false; db_file_exists := false;
     probe_ok := true; can_connect := true; getcwd := Some "/srv/notes";
     can_write := fun _ => true; path_exists := fun _ => false;
     can_mkdir := fun _ => false; which_sqlite3 := Some true |}.

(** No file can be written; the directory can be created. *)
Definition no_write : env :=
  {| clock := fun _ => t0; fault := fun _ => false; db_file_exists := false;
     probe_ok := true; can_connect := true; getcwd := Some "/srv/notes";
     can_write := fun _ => false; path_exists := fun _ => false;
     can_mkdir := fun _ => true; which_sqlite3 := Some true |}.

(** A store of the template whose only user holds the seed email under
    another username. *)
Definition email_taken : db :=
  {| objects := [(Table, "users")]; app_info := [];
     users := [{| u_id := 1; u_username := "alice"; u_email := "demo@example.com";
                  u_created_at := Some t0 |}];
     notes := []; tags := []; note_tags := []; seq_app_info := 0; seq_users := 1;
     seq_notes := 0; seq_tags := 0 |}.

Arguments seed_keys : simpl never.
Arguments seed_names : simpl never.
Arguments seed_titles : simpl never.

(** *** Further vocabulary: what the store guarantees *)

(** The UNIQUE columns and the primary key of note_tags hold distinct
    values; the titles are distinct where the unique index on them exists. *)
Definition constraints (d : db) : Prop :=
  NoDup (map ai_key (app_info d)) /\
  NoDup (map u_username (users d)) /\
  NoDup (map u_email (users d)) /\
  NoDup (map t_name (tags d)) /\
  NoDup (map (fun r => (nt_note_id r, nt_tag_id r)) (note_tags d)) /\
  (has_obj Index "uq_notes_title" d = true -> NoDup (map n_title (notes d))).

(** The rowids of each AUTOINCREMENT table are distinct and none exceeds
    the table's counter in sqlite_sequence. *)
Definition rowids_sound (d : db) : Prop :=
  (NoDup (map ai_id (app_info d)) /\ forall i, In i (map ai_id (app_info d)) -> i <= seq_app_info d) /\
  (NoDup (map u_id (users d)) /\ forall i, In i (map u_id (users d)) -> i <= seq_users d) /\
  (NoDup (map n_id (notes d)) /\ forall i, In i (map n_id (notes d)) -> i <= seq_notes d) /\
  (NoDup (map t_id (tags d)) /\ forall i, In i (map t_id (tags d)) -> i <= seq_tags d).

(** No counter of sqlite_sequence is lower in [d] than in [s]. *)
Definition counters_from (s d : db) : Prop :=
  seq_app_info s <= seq_app_info d /\ seq_users s <= seq_users d /\
  seq_notes s <= seq_notes d /\ seq_tags s <= seq_tags d.

(** The owner of every note that has one is a user. *)
Definition owner_integrity (d : db) : Prop :=
  forall n u, In n (notes d) -> n_user_id n = Some u ->
    exists r, In r (users d) /\ u_id r = u.

(** A row of [d] was in [s], or it bears an id above the counter that [s]
    held for its table (a note may have been rewritten under its id). *)
Definition new_ids_above (s d : db) : Prop :=
  (forall r, In r (app_info d) -> In r (app_info s) \/ seq_app_info s < ai_id r) /\
  (forall r, In r (users d) -> In r (users s) \/ seq_users s < u_id r) /\
  (forall r, In r (notes d) ->
     (exists r0, In r0 (notes s) /\ n_id r0 = n_id r) \/ seq_notes s < n_id r) /\
  (forall r, In r (tags d) -> In r (tags s) \/ seq_tags s < t_id r).

(** *** Further concrete stores *)

(** The store with the schema of the script and no row: what a run leaves
    on the empty store when the store fails at the first INSERT. *)
Definition schema_only : db := after (fault_at 14) fresh.

(** A store of an earlier schema: the table notes without the unique index
    on the title, and two notes under one title. *)
Definition dup_titles : db :=
  {| objects := [(Table, "notes")]; app_info := []; users := [];
     notes := [ {| n_id := 1; n_title := "todo"; n_content := "milk";
                   n_user_id := None; n_is_archived := 0;
                   n_created_at := t0; n_updated_at := t0 |};
                {| n_id := 2; n_title := "todo"; n_content := "bread";
                   n_user_id := None; n_is_archived := 0;
                   n_created_at := t0; n_updated_at := t0 |} ];
     tags := []; note_tags := []; seq_app_info := 0; seq_users := 0;
     seq_notes := 2; seq_tags := 0 |}.


(** *** Traces *)

(** Every file that [m] writes, from any state, is in [P]. *)
Definition writes_only {A : Type} (P : string -> string -> Prop) (m : M A) : Prop :=
  forall w p c, In (Wrote p c) (snd (m w)) -> P p c.

(** [m] writes no file. *)
Definition quiet {A : Type} (m : M A) : Prop := writes_only (fun _ _ => False) m.

(** *** The schema *)

Definition schema_tables : list string :=
  ["app_info"; "users"; "notes"; "tags"; "note_tags"].

(** The five tables and the eight indexes of the script are in [d]. *)
Definition has_schema (d : db) : Prop :=
  (forall t, In t schema_tables -> has_obj Table t d = true) /\
  (forall i, In i seed_indexes -> has_obj Index i d = true) /\
  has_obj Index "uq_notes_title" d = true.

(** The statements of the script as to the tables they create. *)
Definition script_ddl (q : stmt) : bool :=
  match q with
  | CreateTable n => existsb (String.eqb n) schema_tables
  | _ => true
  end.

(** The three tables that the associations need are in [d]. *)
Definition has_link_tables (d : db) : Prop :=
  has_obj Table "notes" d = true /\ has_obj Table "tags" d = true /\
  has_obj Table "note_tags" d = true.

(** *** Stores that a run can provision *)

(** No index bears the name of a table of the script, no table the name of
    an index of the script. *)
Definition clash_free (d : db) : Prop :=
  (forall t, In t schema_tables -> has_obj Index t d = false) /\
  (forall i, In i ("uq_notes_title" :: seed_indexes) -> has_obj Table i d = false).

(** The ids and the counter of each AUTOINCREMENT table are at most [b]. *)
Definition room (b : Z) (d : db) : Prop :=
  ((forall i, In i (map ai_id (app_info d)) -> i <= b) /\ seq_app_info d <= b) /\
  ((forall i, In i (map u_id (users d)) -> i <= b) /\ seq_users d <= b) /\
  ((forall i, In i (map n_id (notes d)) -> i <= b) /\ seq_notes d <= b) /\
  ((forall i, In i (map t_id (tags d)) -> i <= b) /\ seq_tags d <= b).

(** The seed email is held by no user. *)
Definition email_free (d : db) : bool :=
  negb (existsb (fun r => String.eqb (u_email r) "demo@example.com") (users d)).

(** What a run needs of the store to commit: no clash of names; distinct
    titles unless the unique index is there; the user demo, or the seed
    email free for it; and room for the rowids that its thirteen INSERT
    statements draw. *)
Definition provisionable (d : db) : Prop :=
  clash_free d /\
  (has_obj Index "uq_notes_title" d = true \/
   distinct (map n_title (notes d)) = true) /\
  (has_user "demo" d = true \/ email_free d = true) /\
  room (MAX_ROWID - 14) d.




(** No table and index share a name, as in every sqlite_master. *)
Definition unique_names (d : db) : Prop :=
  forall n, has_obj Table n d = true -> has_obj Index n d = true -> False.

(** While the schema statements run on a provisionable store [s]: the rows
    are those of [s], no names clash, the unique index on the titles is
    there if and only if it was, and the tables [L] and the indexes [J] are
    there. *)
Definition ddl_inv (s : db) (L J : list string) (d : db) : Prop :=
  same_rows s d /\ clash_free d /\
  has_obj Index "uq_notes_title" d = has_obj Index "uq_notes_title" s /\
  (forall t, In t L -> has_obj Table t d = true) /\
  (forall i, In i J -> has_obj Index i d = true).

(** During the seeding: the schema is there, the ids and counters are at
    most [b] and the users are [U]. *)
Definition seed_inv (b : Z) (U : list user_row) (d : db) : Prop :=
  has_schema d /\ room b d /\ users d = U.

(** The environment [e] with other answers of the three advisory checks:
    whether the database file exists, whether the probe of it succeeds,
    and what the search for the sqlite3 CLI returns. *)
Definition with_checks (x y : bool) (c : option bool) (e : env) : env :=
  {| clock := clock e; fault := fault e; db_file_exists := x; probe_ok := y;
     can_connect := can_connect e; getcwd := getcwd e; can_write := can_write e;
     path_exists := path_exists e; can_mkdir := can_mkdir e; which_sqlite3 := c |}.

(** * Properties *)

(** ** Rules of the monad *)

Lemma hoare_ret {A} (a : A) (P : world -> Prop) Q E :
  (forall w, P w -> Q a w) -> hoare P (ret a) Q E.
Proof. intros H w Hw. cbn. auto. Qed.

Lemma hoare_raise {A} x (P : world -> Prop) (Q : A -> world -> Prop)
    (E : exn -> world -> Prop) :
  (forall w, P w -> E x w) -> hoare P (raise x) Q E.
Proof. intros H w Hw. cbn. auto. Qed.

Lemma hoare_bind {A B} (m : M A) (f : A -> M B) P Q R E :
  hoare P m Q E -> (forall a, hoare (Q a) (f a) R E) -> hoare P (bind m f) R E.
Proof.
  intros Hm Hf w Hw. unfold bind. specialize (Hm w Hw).
  destruct (m w) as [[[a|x] w1] o1]; [|exact Hm].
  specialize (Hf a w1 Hm). destruct (f a w1) as [[r w2] o2]. exact Hf.
Qed.

Lemma hoare_conseq {A} (m : M A) (P P' : world -> Prop) (Q Q' : A -> world -> Prop)
    (E E' : exn -> world -> Prop) :
  hoare P' m Q' E' ->
  (forall w, P w -> P' w) -> (forall a w, Q' a w -> Q a w) ->
  (forall x w, E' x w -> E x w) ->
  hoare P m Q E.
Proof.
  intros H HP HQ HE w Hw. specialize (H w (HP w Hw)).
  destruct (m w) as [[[a|x] w1] o1]; auto.
Qed.

Lemma hoare_try_except {A} (m : M A) h P Q E E' :
  hoare P m Q E' -> (forall x, hoare (E' x) (h x) Q E) ->
  hoare P (try_except m h) Q E.
Proof.
  intros Hm Hh w Hw. unfold try_except. specialize (Hm w Hw).
  destruct (m w) as [[[a|x] w1] o1]; [exact Hm|].
  specialize (Hh x w1 Hm). destruct (h x w1) as [[r w2] o2]. exact Hh.
Qed.

Lemma hoare_try_finally {A} (m : M A) fin P (Q Q' : A -> world -> Prop)
    (E E' : exn -> world -> Prop) :
  hoare P m Q E ->
  (forall a w, Q a w -> Q' a (fin w)) -> (forall x w, E x w -> E' x (fin w)) ->
  hoare P (try_finally m fin) Q' E'.
Proof.
  intros Hm HQ HE w Hw. unfold try_finally. specialize (Hm w Hw).
  destruct (m w) as [[[a|x] w1] o1]; auto.
Qed.

(** A loop keeps an assertion indexed by the items already handled. *)
Lemma hoare_for_each_prefix {X} (body : X -> M unit) (Inv : list X -> world -> Prop) E :
  forall (todo done : list X),
    (forall pre x post, done ++ todo = pre ++ x :: post ->
       hoare (Inv pre) (body x) (fun _ => Inv (pre ++ [x])) E) ->
    hoare (Inv done) (for_each todo body) (fun _ => Inv (done ++ todo)) E.
Proof.
  induction todo as [|x todo IH]; intros done Hbody.
  - cbn. apply hoare_ret. intros w Hw. now rewrite app_nil_r.
  - cbn. eapply hoare_bind.
    + apply (Hbody done x todo). reflexivity.
    + intros u. replace (done ++ x :: todo) with ((done ++ [x]) ++ todo)
        by (now rewrite <- app_assoc).
      apply IH. intros pre y post Heq. apply (Hbody pre y post).
      rewrite <- Heq. now rewrite <- app_assoc.
Qed.

Lemma hoare_for_each {X} (l : list X) (body : X -> M unit) (I : world -> Prop) E :
  (forall x, In x l -> hoare I (body x) (fun _ => I) E) ->
  hoare I (for_each l body) (fun _ => I) E.
Proof.
  intros Hbody.
  apply (hoare_for_each_prefix body (fun _ => I) E l []).
  intros pre x post Heq. cbn in Heq. apply Hbody. rewrite Heq.
  apply in_or_app. right. now left.
Qed.

Lemma bind_ok {A B} (m : M A) (f : A -> M B) w b w' o :
  bind m f w = (Ok b, w', o) ->
  exists a w1 o1 o2, m w = (Ok a, w1, o1) /\ f a w1 = (Ok b, w', o2) /\ o = o1 ++ o2.
Proof.
  unfold bind. destruct (m w) as [[[a|x] w1] o1]; [|discriminate].
  destruct (f a w1) as [[r w2] o2] eqn:Hf. intros H. injection H as -> -> <-.
  exists a, w1, o1, o2. auto.
Qed.

(** ** Rules of the primitives: what does not touch the store keeps any
    assertion, what does keeps an assertion on the two views *)

Section Rules.

Variable e : env.

Lemma keep_ret {A} (a : A) (I : world -> Prop) E : hoare I (ret a) (fun _ => I) E.
Proof. now apply hoare_ret. Qed.

Lemma keep_print m (I : world -> Prop) E : hoare I (print m) (fun _ => I) E.
Proof. intros w Hw. exact Hw. Qed.

Lemma keep_item0 row (I : world -> Prop) E :
  covers I E -> hoare I (item0 row) (fun _ => I) E.
Proof. intros HE w Hw. destruct row; cbn; [assumption | now apply HE]. Qed.

Lemma keep_connect (I : world -> Prop) E :
  covers I E -> hoare I (connect e) (fun _ => I) E.
Proof.
  intros HE w Hw. unfold connect. destruct (can_connect e); [assumption | now apply HE].
Qed.

Lemma keep_probe (I : world -> Prop) E :
  covers I E -> hoare I (probe e) (fun _ => I) E.
Proof.
  intros HE w Hw. unfold probe. destruct (probe_ok e); [assumption | now apply HE].
Qed.

Lemma keep_which_cli (I : world -> Prop) E :
  covers I E -> hoare I (which_cli e) (fun _ => I) E.
Proof.
  intros HE w Hw. unfold which_cli.
  destruct (which_sqlite3 e); [assumption | now apply HE].
Qed.

Lemma keep_os_getcwd (I : world -> Prop) E :
  covers I E -> hoare I (os_getcwd e) (fun _ => I) E.
Proof.
  intros HE w Hw. unfold os_getcwd. destruct (getcwd e); [assumption | now apply HE].
Qed.

Lemma keep_os_path_abspath name (I : world -> Prop) E :
  covers I E -> hoare I (os_path_abspath e name) (fun _ => I) E.
Proof.
  intros HE w Hw. unfold os_path_abspath.
  destruct (os_path_isabs name); [exact Hw|].
  unfold bind, os_getcwd.
  destruct (getcwd e); cbn; [assumption | now apply HE].
Qed.

Lemma keep_os_makedirs path (I : world -> Prop) E :
  covers I E -> hoare I (os_makedirs e path) (fun _ => I) E.
Proof.
  intros HE w Hw. unfold os_makedirs.
  destruct (can_mkdir e path); [assumption | now apply HE].
Qed.

Lemma keep_write_file path content (I : world -> Prop) E :
  covers I E -> hoare I (write_file e path content) (fun _ => I) E.
Proof.
  intros HE w Hw. unfold write_file.
  destruct (can_write e path); [assumption | now apply HE].
Qed.

Lemma keep_fetchone b (R : db -> Prop) E :
  hoare (bothk b R) fetchone (fun _ => bothk b R) E.
Proof. intros w Hw. unfold fetchone. destruct (fetched w); exact Hw. Qed.

Lemma keep_execute b (R : db -> Prop) q E :
  covers (bothk b R) E ->
  (forall fk now d d' rows, (b = true -> fk = true) -> R d ->
     exec_stmt fk now q d = Ok (d', rows) -> R d') ->
  hoare (bothk b R) (execute e q) (fun _ => bothk b R) E.
Proof.
  intros HE HR w Hw. pose proof Hw as [Hfk [Hd Hc]]. unfold execute.
  destruct (fault e (pc w)); [apply HE; now repeat split|].
  destruct (exec_stmt (fk_on w) (clock e (pc w)) q (conn_db w)) as [[d rows]|x] eqn:Hx;
    [|apply HE; now repeat split].
  assert (Rd : R d) by (eapply HR; eauto).
  repeat split; cbn.
  - intros Hb. rewrite (Hfk Hb). reflexivity.
  - destruct (in_txn w || is_dml q)%bool; assumption.
  - assumption.
Qed.

Lemma keep_commit b (R : db -> Prop) E :
  covers (bothk b R) E -> hoare (bothk b R) (commit e) (fun _ => bothk b R) E.
Proof.
  intros HE w Hw. pose proof Hw as [Hfk [Hd Hc]]. unfold commit.
  destruct (fault e (pc w)); [apply HE|]; now repeat split.
Qed.

Lemma close_bothk b (R : db -> Prop) w : bothk b R w -> bothk b R (close w).
Proof. intros [Hfk [Hd Hc]]. now repeat split. Qed.

(** PRAGMA foreign_keys = ON, sent outside a transaction, turns them on. *)
Lemma pragma_bothk b (R : db -> Prop) E :
  covers (bothk false R) E ->
  hoare (fun w => in_txn w = false /\ bothk false R w) (_enable_foreign_keys e)
        (fun _ => bothk b R) E.
Proof.
  intros HE w [Ht Hw]. pose proof Hw as [_ [Hd Hc]].
  unfold _enable_foreign_keys, execute.
  destruct (fault e (pc w)); [apply HE; now repeat split|].
  cbn. rewrite Ht. cbn. repeat split; cbn; auto using orb_true_r.
Qed.

End Rules.

(** ** The statements and the rows of a store *)

Ltac exec_inv H :=
  cbn [exec_stmt] in H;
  unfold changed, selected, create_table, create_index,
    create_unique_index_notes_title, replace_app_info, insert_ignore_user,
    select_user_id, insert_ignore_tag, select_tag_id, upsert_note,
    select_note_id, insert_ignore_note_tag, count_rows in H;
  repeat match type of H with
         | context [match new_rowid ?a ?b with _ => _ end] =>
             destruct (new_rowid a b) eqn:?
         | context [if ?c then _ else _] => destruct c eqn:?
         end;
  try discriminate H;
  injection H as <- <-.

Lemma existsb_app_false {A} (f : A -> bool) l1 l2 :
  existsb f (l1 ++ l2) = false -> existsb f l1 = false /\ existsb f l2 = false.
Proof. rewrite existsb_app. apply orb_false_elim. Qed.

Lemma existsb_false_In {A} (f : A -> bool) l x :
  existsb f l = false -> In x l -> f x = false.
Proof.
  intros H Hin. destruct (f x) eqn:Hf; [|reflexivity].
  assert (existsb f l = true) by (apply existsb_exists; eauto). congruence.
Qed.

Lemma frame_refl s : frame s s.
Proof.
  split.
  - apply incl_refl.
  - exists []. now rewrite app_nil_r.
  - exists []. rewrite app_nil_r. repeat split; [constructor | contradiction | contradiction].
  - exists []. now rewrite app_nil_r.
  - intros r Hr. exists r. auto.
  - auto.
Qed.

Lemma touch_note_id now t c u a r : n_id (touch_note now t c u a r) = n_id r.
Proof. unfold touch_note. now destruct (String.eqb (n_title r) t). Qed.

Lemma touch_note_title now t c u a r : n_title (touch_note now t c u a r) = n_title r.
Proof. unfold touch_note. now destruct (String.eqb (n_title r) t). Qed.

Lemma touch_note_other now t c u a r : n_title r <> t -> touch_note now t c u a r = r.
Proof.
  intros H. unfold touch_note.
  destruct (String.eqb_spec (n_title r) t); [contradiction | reflexivity].
Qed.

Lemma frame_exec s q fk now d d' rows :
  seed_stmt q -> frame s d -> exec_stmt fk now q d = Ok (d', rows) -> frame s d'.
Proof.
  intros Hq [Ho [U HU] [T [HT [HTn HTs]]] [N HN] Hn Ha] H.
  destruct q; exec_inv H.
  all: try (split; cbn; eauto; fail).
  all: split; cbn; eauto.
  - now apply incl_appl.
  - now apply incl_appl.
  - now apply incl_appl.
  - intros r Hr Hk. apply in_or_app. left. apply filter_In. split; [auto|].
    destruct (String.eqb_spec (ai_key r) k); [subst; contradiction | reflexivity].
  - exists (U ++ [{| u_id := z; u_username := username; u_email := email;
                     u_created_at := Some now |}]).
    now rewrite HU, app_assoc.
  - set (new := {| t_id := z; t_name := name; t_color := Some color; t_created_at := now |}).
    match goal with Hx : existsb _ (tags d) = false |- _ =>
      rewrite HT in Hx; apply existsb_app_false in Hx; destruct Hx as [Hs HTf] end.
    exists (T ++ [new]). rewrite HT, <- app_assoc. split; [reflexivity|]. split.
    + rewrite map_app. cbn. apply NoDup_app; [assumption | repeat constructor; auto |].
      intros a Ha1 [<-|[]]. apply in_map_iff in Ha1. destruct Ha1 as [t [Ht1 Ht2]].
      pose proof (existsb_false_In _ _ _ HTf Ht2) as Hf. cbn in Hf.
      rewrite Ht1, String.eqb_refl in Hf. discriminate.
    + intros t Ht. apply in_app_or in Ht. destruct Ht as [Ht|[<-|[]]]; [auto|].
      cbn. split; [exact Hq | exact Hs].
  - intros r Hr. destruct (Hn r Hr) as [r0 [Hin [Hid [Ht Hsame]]]].
    exists (touch_note now title content uid arch r0). split; [now apply in_map|].
    rewrite touch_note_id, touch_note_title. repeat split; auto.
    intros Hns. rewrite touch_note_other; [exact (Hsame Hns)|].
    intros Heq. apply Hns. rewrite <- Ht, Heq. exact Hq.
  - intros r Hr. destruct (Hn r Hr) as [r0 [Hin H0]].
    exists r0. split; [apply in_or_app; now left | exact H0].
  - exists (N ++ [{| nt_note_id := nid; nt_tag_id := tid; nt_created_at := now |}]).
    now rewrite HN, app_assoc.
Qed.

(** ** What the statements keep, the functions of the script keep *)

Lemma in_seed_names n c : In (n, c) seed_tags -> In n seed_names.
Proof. intros H. exact (in_map fst _ _ H). Qed.

Lemma in_seed_titles t c a : In (t, c, a) seed_notes -> In t seed_titles.
Proof. intros H. exact (in_map (fun x => fst (fst x)) _ _ H). Qed.

Lemma covers_refl (J : world -> Prop) : covers J (fun _ => J).
Proof. intros x w H. exact H. Qed.

Ltac seed_ok :=
  first [ exact I
        | eapply in_seed_names; eassumption
        | eapply in_seed_titles; eassumption
        | unfold seed_stmt, seed_indexes, seed_keys, seed_names, seed_titles; cbn; tauto
        | reflexivity ].

(** One step of a proof that an assertion is kept: [Hx] keeps it over the
    seed statements of a class [ok], [Hf] over fetchone, [HE] passes it to
    the raise. *)
Ltac keep_step Hx Hf HE :=
  lazymatch goal with
  | |- hoare _ (ret _) _ _ => apply keep_ret
  | |- hoare _ (print _) _ _ => apply keep_print
  | |- hoare _ fetchone _ _ => apply Hf
  | |- hoare _ (item0 _) _ _ => apply keep_item0; exact HE
  | |- hoare _ (connect _) _ _ => apply keep_connect; exact HE
  | |- hoare _ (probe _) _ _ => apply keep_probe; exact HE
  | |- hoare _ (which_cli _) _ _ => apply keep_which_cli; exact HE
  | |- hoare _ (os_getcwd _) _ _ => apply keep_os_getcwd; exact HE
  | |- hoare _ (os_path_abspath _ _) _ _ => apply keep_os_path_abspath; exact HE
  | |- hoare _ (os_makedirs _ _) _ _ => apply keep_os_makedirs; exact HE
  | |- hoare _ (write_file _ _ _) _ _ => apply keep_write_file; exact HE
  | |- hoare _ (execute _ _) _ _ => apply Hx; [seed_ok | first [reflexivity | auto]]
  | |- hoare _ (bind _ _) _ _ => eapply hoare_bind; [| intros ?; cbn beta]
  end.

Section Keep.

Variable e : env.
Variable Inv : world -> Prop.
Variable E : exn -> world -> Prop.
Variable ok : stmt -> bool.
Hypothesis Hx : forall q, seed_stmt q -> ok q = true ->
                  hoare Inv (execute e q) (fun _ => Inv) E.
Hypothesis Hf : hoare Inv fetchone (fun _ => Inv) E.
Hypothesis HE : covers Inv E.
Hypothesis ok_pragma : ok PragmaForeignKeysOn = true.
Hypothesis ok_create_table : forall n, ok (CreateTable n) = true.
Hypothesis ok_create_index : forall n t c, ok (CreateIndex n t c) = true.
Hypothesis ok_unique_index : ok CreateUniqueIndexNotesTitle = true.
Hypothesis ok_replace_app_info : forall k v, ok (ReplaceAppInfo k v) = true.
Hypothesis ok_insert_user : forall u m, ok (InsertIgnoreUser u m) = true.
Hypothesis ok_select_user : forall u, ok (SelectUserId u) = true.
Hypothesis ok_insert_tag : forall n c, ok (InsertIgnoreTag n c) = true.
Hypothesis ok_upsert_note : forall t c u a, ok (UpsertNote t c u a) = true.
Hypothesis ok_select_note : forall t, ok (SelectNoteId t) = true.
Hypothesis ok_select_tag : forall n, ok (SelectTagId n) = true.
Hypothesis ok_insert_note_tag : forall n t, ok (InsertIgnoreNoteTag n t) = true.

Lemma keep_enable_foreign_keys : hoare Inv (_enable_foreign_keys e) (fun _ => Inv) E.
Proof. unfold _enable_foreign_keys. repeat keep_step Hx Hf HE. Qed.

Lemma keep_create_core_tables : hoare Inv (_create_core_tables e) (fun _ => Inv) E.
Proof. unfold _create_core_tables. repeat keep_step Hx Hf HE. Qed.

Lemma keep_create_notes_schema : hoare Inv (_create_notes_schema e) (fun _ => Inv) E.
Proof. unfold _create_notes_schema. repeat keep_step Hx Hf HE. Qed.

Lemma keep_ensure_notes_title_unique_index :
  hoare Inv (_ensure_notes_title_unique_index e) (fun _ => Inv) E.
Proof. unfold _ensure_notes_title_unique_index. repeat keep_step Hx Hf HE. Qed.

Lemma keep_upsert_app_info : hoare Inv (_upsert_app_info e) (fun _ => Inv) E.
Proof. unfold _upsert_app_info. repeat keep_step Hx Hf HE. Qed.

Lemma keep_ensure_seed_user : hoare Inv (_ensure_seed_user e) (fun _ => Inv) E.
Proof. unfold _ensure_seed_user. repeat keep_step Hx Hf HE. Qed.

Lemma keep_seed_tags : hoare Inv (_seed_tags e) (fun _ => Inv) E.
Proof.
  unfold _seed_tags. apply hoare_for_each. intros [n c] Hin.
  repeat keep_step Hx Hf HE.
Qed.

Lemma keep_seed_notes uid : hoare Inv (_seed_notes e uid) (fun _ => Inv) E.
Proof.
  unfold _seed_notes. apply hoare_for_each. intros [[t c] a] Hin.
  repeat keep_step Hx Hf HE.
Qed.

Lemma keep_seed_note_tags : hoare Inv (_seed_note_tags e) (fun _ => Inv) E.
Proof.
  unfold _seed_note_tags. apply hoare_for_each. intros [t names] Hin.
  eapply hoare_bind; [keep_step Hx Hf HE | intros ?u; cbn beta].
  eapply hoare_bind; [keep_step Hx Hf HE | intros [note_id|]]; [|apply keep_ret].
  apply hoare_for_each. intros n Hn.
  eapply hoare_bind; [keep_step Hx Hf HE | intros ?u; cbn beta].
  eapply hoare_bind; [keep_step Hx Hf HE | intros [tag_id|]]; repeat keep_step Hx Hf HE.
Qed.

Lemma keep_write_connection_files :
  hoare Inv (_write_connection_files e) (fun _ => Inv) E.
Proof.
  unfold _write_connection_files.
  eapply hoare_bind; [keep_step Hx Hf HE | intros current_dir].
  eapply hoare_bind.
  { apply hoare_try_except with (E' := fun _ => Inv).
    - repeat keep_step Hx Hf (covers_refl Inv).
    - intros x. apply keep_print. }
  intros ?u; cbn beta.
  eapply hoare_bind; [keep_step Hx Hf HE | intros db_path].
  eapply hoare_bind.
  { destruct (negb (path_exists e "db_visualizer")); repeat keep_step Hx Hf HE. }
  intros ?u; cbn beta.
  apply hoare_try_except with (E' := fun _ => Inv).
  - repeat keep_step Hx Hf (covers_refl Inv).
  - intros x. apply keep_print.
Qed.

End Keep.

Ltac keep_fun Hx Hf HE :=
  lazymatch goal with
  | |- hoare _ (_enable_foreign_keys _) _ _ =>
      eapply keep_enable_foreign_keys; first [exact Hx | exact Hf | exact HE | (intros; reflexivity)]
  | |- hoare _ (_create_core_tables _) _ _ =>
      eapply keep_create_core_tables; first [exact Hx | exact Hf | exact HE | (intros; reflexivity)]
  | |- hoare _ (_create_notes_schema _) _ _ =>
      eapply keep_create_notes_schema; first [exact Hx | exact Hf | exact HE | (intros; reflexivity)]
  | |- hoare _ (_ensure_notes_title_unique_index _) _ _ =>
      eapply keep_ensure_notes_title_unique_index; first [exact Hx | exact Hf | exact HE | (intros; reflexivity)]
  | |- hoare _ (_upsert_app_info _) _ _ =>
      eapply keep_upsert_app_info; first [exact Hx | exact Hf | exact HE | (intros; reflexivity)]
  | |- hoare _ (_ensure_seed_user _) _ _ =>
      eapply keep_ensure_seed_user; first [exact Hx | exact Hf | exact HE | (intros; reflexivity)]
  | |- hoare _ (_seed_tags _) _ _ =>
      eapply keep_seed_tags; first [exact Hx | exact Hf | exact HE | (intros; reflexivity)]
  | |- hoare _ (_seed_notes _ _) _ _ =>
      eapply keep_seed_notes; first [exact Hx | exact Hf | exact HE | (intros; reflexivity)]
  | |- hoare _ (_seed_note_tags _) _ _ =>
      eapply keep_seed_note_tags; first [exact Hx | exact Hf | exact HE | (intros; reflexivity)]
  | |- hoare _ (_write_connection_files _) _ _ =>
      eapply keep_write_connection_files; first [exact Hx | exact Hf | exact HE | (intros; reflexivity)]
  | |- hoare _ (bind _ _) _ _ => eapply hoare_bind; [| intros ?; cbn beta]
  | |- _ => keep_step Hx Hf HE
  end.

(** *** An assertion on the two views is kept by the whole run *)

Section KeepMain.

Variable e : env.
Variable b : bool.
Variable R : db -> Prop.
Hypothesis Hst : stable b R.

Lemma bothk_weaken w : bothk b R w -> bothk false R w.
Proof. intros [_ H]. split; [discriminate | exact H]. Qed.

Lemma bothk_covers : covers (bothk b R) (fun _ => bothk false R).
Proof. intros x w. apply bothk_weaken. Qed.

Lemma bothk_execute q :
  seed_stmt q ->
  hoare (bothk b R) (execute e q) (fun _ => bothk b R) (fun _ => bothk false R).
Proof.
  intros Hq. apply keep_execute; [apply bothk_covers|].
  intros fk now d d' rows Hfk Hd H. exact (Hst q fk now d d' rows Hq Hfk Hd H).
Qed.

Lemma main_keeps :
  hoare (fun w => in_txn w = false /\ bothk false R w) (main e)
        (fun _ => bothk false R) (fun _ => bothk false R).
Proof.
  pose proof bothk_covers as HE.
  pose proof (fun q (Hq : seed_stmt q) (_ : true = true) => bothk_execute q Hq) as Hx.
  pose proof (keep_fetchone b R (fun _ => bothk false R)) as Hf.
  assert (H0 : covers (fun w => in_txn w = false /\ bothk false R w)
                      (fun _ => bothk false R))
    by (intros x w [_ H]; exact H).
  unfold main.
  eapply hoare_bind; [keep_step Hx Hf H0 | intros ?u; cbn beta].
  eapply hoare_bind.
  { destruct (db_file_exists e); [|keep_step Hx Hf H0].
    eapply hoare_bind; [keep_step Hx Hf H0 | intros ?u; cbn beta].
    apply hoare_try_except
      with (E' := fun _ w => in_txn w = false /\ bothk false R w).
    - repeat keep_step Hx Hf
        (covers_refl (fun w => in_txn w = false /\ bothk false R w)).
    - intros x. keep_step Hx Hf H0. }
  intros ?u; cbn beta.
  eapply hoare_bind; [keep_step Hx Hf H0 | intros ?u; cbn beta].
  apply hoare_try_finally with (Q := fun _ => bothk b R) (E := fun _ => bothk false R);
    [| intros a w H; apply close_bothk; now apply bothk_weaken
     | intros x w H; now apply close_bothk].
  eapply hoare_bind.
  { apply pragma_bothk with (b := b). apply covers_refl. }
  intros ?u. cbn beta.
  eapply hoare_bind; [keep_fun Hx Hf HE | intros ?u; cbn beta].
  eapply hoare_bind; [keep_fun Hx Hf HE | intros ?u; cbn beta].
  eapply hoare_bind; [keep_fun Hx Hf HE | intros ?u; cbn beta].
  eapply hoare_bind; [keep_fun Hx Hf HE | intros ?u; cbn beta].
  eapply hoare_bind; [keep_fun Hx Hf HE | intros demo_user_id; cbn beta].
  eapply hoare_bind; [keep_fun Hx Hf HE | intros ?u; cbn beta].
  eapply hoare_bind; [keep_fun Hx Hf HE | intros ?u; cbn beta].
  eapply hoare_bind; [keep_fun Hx Hf HE | intros ?u; cbn beta].
  eapply hoare_bind; [apply keep_commit; exact HE | intros ?u; cbn beta].
  repeat keep_fun Hx Hf HE.
  apply hoare_try_except with (E' := fun _ => bothk b R).
  - eapply hoare_bind;
      [keep_step Hx Hf (covers_refl (bothk b R)) | intros [|]; repeat keep_step Hx Hf HE].
  - intros x. apply keep_ret.
Qed.

Lemma provision_keeps :
  hoare (fun w => in_txn w = false /\ bothk false R w) (provision e)
        (fun _ => bothk false R) (fun _ => bothk false R).
Proof.
  pose proof bothk_covers as HE.
  pose proof (fun q (Hq : seed_stmt q) (_ : true = true) => bothk_execute q Hq) as Hx.
  pose proof (keep_fetchone b R (fun _ => bothk false R)) as Hf.
  unfold provision.
  eapply hoare_bind.
  { apply pragma_bothk with (b := b). apply covers_refl. }
  intros ?u. cbn beta.
  apply hoare_conseq with (P' := bothk b R) (Q' := fun _ => bothk b R)
                          (E' := fun _ => bothk false R);
    [| auto | intros a w; apply bothk_weaken | auto].
  eapply hoare_bind; [keep_fun Hx Hf HE | intros ?u; cbn beta].
  eapply hoare_bind; [keep_fun Hx Hf HE | intros ?u; cbn beta].
  eapply hoare_bind; [keep_fun Hx Hf HE | intros ?u; cbn beta].
  eapply hoare_bind; [keep_fun Hx Hf HE | intros ?u; cbn beta].
  eapply hoare_bind; [keep_fun Hx Hf HE | intros demo_user_id; cbn beta].
  eapply hoare_bind; [keep_fun Hx Hf HE | intros ?u; cbn beta].
  eapply hoare_bind; [keep_fun Hx Hf HE | intros ?u; cbn beta].
  eapply hoare_bind; [keep_fun Hx Hf HE | intros ?u; cbn beta].
  apply keep_commit; exact HE.
Qed.

End KeepMain.

(** ** Stores after a run *)

Lemma after_keeps (e : env) (b : bool) (R : db -> Prop) s :
  stable b R -> R s -> R (after e s).
Proof.
  intros Hst Hs. unfold after, run.
  pose proof (main_keeps e b R Hst (boot s)) as H.
  destruct (main e (boot s)) as [[[u|x] w] o]; cbn; apply H; repeat split; auto; discriminate.
Qed.

Lemma committed_keeps (e : env) (b : bool) (R : db -> Prop) s s' :
  stable b R -> R s -> committed e s s' -> R s'.
Proof.
  intros Hst Hs (w & o & H & ->).
  pose proof (provision_keeps e b R Hst (boot s)) as Hk. rewrite H in Hk.
  apply Hk. repeat split; auto; discriminate.
Qed.

Lemma frame_stable s : stable false (frame s).
Proof. intros q fk now d d' rows Hq _ Hd H. eapply frame_exec; eauto. Qed.

Lemma after_frame e s : frame s (after e s).
Proof. apply after_keeps with (b := false); [apply frame_stable | apply frame_refl]. Qed.

Lemma existsb_In {A} (f : A -> bool) l :
  existsb f l = true -> exists x, In x l /\ f x = true.
Proof. apply existsb_exists. Qed.

Lemma ref_integrity_stable : stable true ref_integrity.
Proof.
  intros q fk now d d' rows Hq Hfk Hd H. rewrite (Hfk eq_refl) in H.
  destruct q; exec_inv H; try exact Hd.
  all: intros r Hr; cbn in *.
  - (* a tag is added *)
    destruct (Hd r Hr) as [Hn [t [Ht Hid]]]. split; [exact Hn|].
    exists t. split; [apply in_or_app; now left | exact Hid].
  - (* a note is updated in place *)
    destruct (Hd r Hr) as [[n [Hn Hid]] Ht]. split; [|exact Ht].
    exists (touch_note now title content uid arch n).
    split; [now apply in_map | now rewrite touch_note_id].
  - (* a note is added *)
    destruct (Hd r Hr) as [[n [Hn Hid]] Ht]. split; [|exact Ht].
    exists n. split; [apply in_or_app; now left | exact Hid].
  - (* an association is added: foreign keys were checked *)
    match goal with
    | Hx : negb (_ && _) = false |- _ =>
        apply negb_false_iff, andb_true_iff in Hx; destruct Hx as [Hx1 Hx2];
        apply existsb_In in Hx1; apply existsb_In in Hx2;
        destruct Hx1 as [n [Hn Hnid]]; destruct Hx2 as [t [Ht Htid]]
    end.
    apply in_app_or in Hr. destruct Hr as [Hr|[<-|[]]]; [exact (Hd r Hr)|].
    cbn. split; [exists n | exists t]; split; auto; now apply Z.eqb_eq.
Qed.

(** ** Before the commit nothing reaches the file but schema objects *)

Lemma same_rows_refl s : same_rows s s.
Proof. repeat split. Qed.

Lemma exec_not_dml fk now q d d' rows :
  is_dml q = false -> exec_stmt fk now q d = Ok (d', rows) ->
  same_rows d d' /\ incl (objects d) (objects d').
Proof.
  intros Hq H. destruct q; try discriminate Hq; exec_inv H.
  all: split; [repeat split | cbn; auto using incl_refl, incl_appl].
Qed.

Lemma exec_query fk now q d d' rows :
  is_query q = true -> exec_stmt fk now q d = Ok (d', rows) -> d' = d.
Proof. intros Hq H. destruct q; try discriminate Hq; exec_inv H; reflexivity. Qed.

Lemma same_rows_trans s d d' : same_rows s d -> same_rows d d' -> same_rows s d'.
Proof.
  unfold same_rows. intros H1 H2.
  repeat match goal with H : _ /\ _ |- _ => destruct H end.
  repeat split; congruence.
Qed.

Section Untouched.

Variable e : env.
Variable s : db.

Lemma untouched_boot : untouched s (boot s).
Proof. repeat split. apply incl_refl. Qed.

Lemma untouched_execute q :
  hoare (untouched s) (execute e q) (fun _ => untouched s) (fun _ => untouched s).
Proof.
  intros w Hw. pose proof Hw as [Hr [Ho Hc]]. unfold execute.
  assert (Hfail : untouched s (failed (in_txn w || is_dml q)%bool w)).
  { repeat split; cbn; try apply Hr; auto.
    intros Ht. apply orb_false_elim in Ht. now apply Hc. }
  destruct (fault e (pc w)); [exact Hfail|].
  destruct (exec_stmt (fk_on w) (clock e (pc w)) q (conn_db w)) as [[d rows]|x] eqn:Hx;
    [|exact Hfail].
  destruct (in_txn w || is_dml q)%bool eqn:Ht; cbn.
  - split; [exact Hr|]. split; [exact Ho | discriminate].
  - apply orb_false_elim in Ht. destruct Ht as [Ht Hq].
    destruct (exec_not_dml _ _ _ _ _ _ Hq Hx) as [Hrows Hobj].
    rewrite (Hc Ht) in Hrows, Hobj.
    split; [eapply same_rows_trans; eauto|]. split; [|reflexivity].
    eapply incl_tran; eauto.
Qed.

Lemma untouched_fetchone :
  hoare (untouched s) fetchone (fun _ => untouched s) (fun _ => untouched s).
Proof. intros w Hw. unfold fetchone. destruct (fetched w); exact Hw. Qed.

Lemma untouched_commit :
  hoare (untouched s) (commit e) (fun _ _ => True) (fun _ => untouched s).
Proof.
  intros w Hw. pose proof Hw as [Hr [Ho Hc]]. unfold commit.
  destruct (fault e (pc w)); [|exact I]. repeat split; cbn; try apply Hr; auto.
Qed.


Lemma provision_untouched :
  hoare (untouched s) (provision e) (fun _ _ => True) (fun _ => untouched s).
Proof.
  pose proof (fun q (_ : seed_stmt q) (_ : true = true) => untouched_execute q) as Hx.
  pose proof untouched_fetchone as Hf.
  pose proof (covers_refl (untouched s)) as HE.
  unfold provision.
  eapply hoare_bind; [keep_fun Hx Hf HE | intros ?u; cbn beta].
  eapply hoare_bind; [keep_fun Hx Hf HE | intros ?u; cbn beta].
  eapply hoare_bind; [keep_fun Hx Hf HE | intros ?u; cbn beta].
  eapply hoare_bind; [keep_fun Hx Hf HE | intros ?u; cbn beta].
  eapply hoare_bind; [keep_fun Hx Hf HE | intros ?u; cbn beta].
  eapply hoare_bind; [keep_fun Hx Hf HE | intros demo_user_id; cbn beta].
  eapply hoare_bind; [keep_fun Hx Hf HE | intros ?u; cbn beta].
  eapply hoare_bind; [keep_fun Hx Hf HE | intros ?u; cbn beta].
  eapply hoare_bind; [keep_fun Hx Hf HE | intros ?u; cbn beta].
  apply untouched_commit.
Qed.

End Untouched.

(** ** [main] is [greet], connect, then [provision] and [report] under the
    closing of the connection *)

Lemma bind_assoc {A B C} (m : M A) (f : A -> M B) (g : B -> M C) :
  same_run (bind (bind m f) g) (bind m (fun a => bind (f a) g)).
Proof.
  intros w. unfold bind. destruct (m w) as [[[a|x] w1] o1]; [|reflexivity].
  destruct (f a w1) as [[[c|x] w2] o2]; [|reflexivity].
  destruct (g c w2) as [[r w3] o3]. now rewrite app_assoc.
Qed.

Lemma bind_cong {A B} (m : M A) (f f' : A -> M B) :
  (forall a, same_run (f a) (f' a)) -> same_run (bind m f) (bind m f').
Proof.
  intros H w. unfold bind. destruct (m w) as [[[a|x] w1] o1]; [|reflexivity].
  now rewrite H.
Qed.

Lemma try_finally_cong {A} (m m' : M A) fin :
  same_run m m' -> same_run (try_finally m fin) (try_finally m' fin).
Proof. intros H w. unfold try_finally. now rewrite H. Qed.

Lemma same_run_trans {A} (m1 m2 m3 : M A) :
  same_run m1 m2 -> same_run m2 m3 -> same_run m1 m3.
Proof. intros H1 H2 w. now rewrite H1. Qed.

Lemma same_run_refl {A} (m : M A) : same_run m m.
Proof. intros w. reflexivity. Qed.

Ltac reassoc :=
  eapply same_run_trans; [apply bind_assoc|]; apply bind_cong; intros ?.

Lemma same_run_sym {A} (m1 m2 : M A) : same_run m1 m2 -> same_run m2 m1.
Proof. intros H w. now rewrite H. Qed.

Lemma main_split e :
  same_run (main e)
           (greet e ;; connect e ;; try_finally (provision e ;; report e) close).
Proof.
  apply same_run_sym. unfold main, greet.
  reassoc. apply bind_cong; intros ?u. apply bind_cong; intros ?u.
  apply try_finally_cong. unfold provision.
  do 9 reassoc. apply same_run_refl.
Qed.

Lemma greet_boot e s : exists o, greet e (boot s) = (Ok tt, boot s, o).
Proof.
  unfold greet, bind, print, try_except, probe.
  destruct (db_file_exists e); [destruct (probe_ok e)|]; cbn; eauto.
Qed.

(** The run as a whole, from what [provision] does. *)
Lemma run_provision e s :
  can_connect e = true ->
  match provision e (boot s) with
  | (Raise x, w, _) => fst (run e s) = (Raise x, close w)
  | (Ok _, w, _) =>
      match report e w with
      | (r, w', _) => fst (run e s) = (r, close w')
      end
  end.
Proof.
  intros Hc.
  assert (Hrun : fst (run e s)
                 = fst (try_finally (provision e ;; report e) close (boot s))).
  { unfold run. rewrite main_split.
    destruct (greet_boot e s) as [o Ho]. unfold bind at 1. rewrite Ho.
    unfold bind at 1. unfold connect. rewrite Hc.
    destruct (try_finally (provision e ;; report e) close (boot s)) as [[r w] o1].
    reflexivity. }
  rewrite Hrun. unfold try_finally, bind.
  destruct (provision e (boot s)) as [[[u|x] w] o1]; [|reflexivity].
  destruct (report e w) as [[r w'] o2]. reflexivity.
Qed.

Section Settled.

Variable e : env.

Lemma settled_execute s q :
  is_query q = true ->
  hoare (settled s) (execute e q) (fun _ => settled s) (fun _ => settled s).
Proof.
  intros Hq w Hw. pose proof Hw as [Hd [Hc Ht]]. unfold execute.
  assert (Hdml : is_dml q = false) by (destruct q; try discriminate Hq; reflexivity).
  rewrite Ht, Hdml. cbn.
  destruct (fault e (pc w)); [now repeat split|].
  destruct (exec_stmt (fk_on w) (clock e (pc w)) q (conn_db w)) as [[d rows]|x] eqn:Hx;
    [|now repeat split].
  apply exec_query in Hx; [|exact Hq]. subst d. repeat split; cbn; congruence.
Qed.

Lemma settled_fetchone s :
  hoare (settled s) fetchone (fun _ => settled s) (fun _ => settled s).
Proof. intros w Hw. unfold fetchone. destruct (fetched w); exact Hw. Qed.

Lemma report_settled s :
  hoare (settled s) (report e) (fun _ => settled s) (fun _ => settled s).
Proof.
  pose proof (fun q (_ : seed_stmt q) => settled_execute s q) as Hx.
  pose proof (settled_fetchone s) as Hf.
  pose proof (covers_refl (settled s)) as HE.
  unfold report. repeat keep_fun Hx Hf HE.
  apply hoare_try_except with (E' := fun _ => settled s).
  - eapply hoare_bind; [keep_step Hx Hf HE | intros [|]; repeat keep_step Hx Hf HE].
  - intros x. apply keep_ret.
Qed.

Lemma provision_settled :
  hoare (fun _ => True) (provision e) (fun _ w => settled (disk w) w) (fun _ _ => True).
Proof.
  assert (Hx : forall q, seed_stmt q -> true = true ->
                 hoare (fun _ => True) (execute e q) (fun _ _ => True) (fun _ _ => True))
    by (intros q _ _ w _; destruct (execute e q w) as [[[u|x] w'] o]; exact I).
  assert (Hf : hoare (fun _ => True) fetchone (fun _ _ => True) (fun _ _ => True))
    by (intros w _; destruct (fetchone w) as [[[u|x] w'] o]; exact I).
  assert (HE : covers (fun _ => True) (fun _ _ => True)) by (intros x w _; exact I).
  unfold provision.
  eapply hoare_bind; [keep_fun Hx Hf HE | intros ?u; cbn beta].
  eapply hoare_bind; [keep_fun Hx Hf HE | intros ?u; cbn beta].
  eapply hoare_bind; [keep_fun Hx Hf HE | intros ?u; cbn beta].
  eapply hoare_bind; [keep_fun Hx Hf HE | intros ?u; cbn beta].
  eapply hoare_bind; [keep_fun Hx Hf HE | intros ?u; cbn beta].
  eapply hoare_bind; [keep_fun Hx Hf HE | intros demo_user_id; cbn beta].
  eapply hoare_bind; [keep_fun Hx Hf HE | intros ?u; cbn beta].
  eapply hoare_bind; [keep_fun Hx Hf HE | intros ?u; cbn beta].
  eapply hoare_bind; [keep_fun Hx Hf HE | intros ?u; cbn beta].
  intros w _. unfold commit. destruct (fault e (pc w)); [exact I | now repeat split].
Qed.

(** A run that commits leaves on disk what it committed, whatever happens
    to the statistics and the descriptor files. *)
Lemma committed_after s s' :
  can_connect e = true -> committed e s s' -> after e s = s'.
Proof.
  intros Hc [w [o [Hp ->]]]. unfold after.
  pose proof (run_provision e s Hc) as H. rewrite Hp in H.
  pose proof (provision_settled (boot s) I) as Hs. rewrite Hp in Hs.
  pose proof (report_settled (disk w) w Hs) as Hr.
  destruct (report e w) as [[r w'] o']. rewrite H. cbn.
  destruct r; exact (proj1 Hr).
Qed.

(** A run that ends well has committed. *)
Lemma run_ok_committed s w o :
  run e s = (Ok tt, w, o) -> can_connect e = true /\ committed e s (disk w).
Proof.
  intros H. destruct (can_connect e) eqn:Hc.
  - split; [reflexivity|].
    pose proof (run_provision e s Hc) as Hrun. rewrite H in Hrun. cbn in Hrun.
    pose proof (provision_settled (boot s) I) as Hs.
    destruct (provision e (boot s)) as [[[u|x] w1] o1] eqn:Hp; [|discriminate Hrun].
    pose proof (report_settled (disk w1) w1 Hs) as Hr.
    destruct (report e w1) as [[r w2] o2]. injection Hrun as <- ->.
    destruct u. exists w1, o1. split; [exact Hp|]. cbn. exact (proj1 Hr).
  - exfalso. unfold run in H. rewrite main_split in H.
    destruct (greet_boot e s) as [o0 Ho]. unfold bind at 1 in H. rewrite Ho in H.
    unfold bind at 1 in H. unfold connect in H. rewrite Hc in H. discriminate H.
Qed.

End Settled.

(** ** What a run that commits has done, function by function *)

Lemma hoare_ok {A} (P : world -> Prop) (m : M A) Q E w a w' o :
  hoare P m Q E -> P w -> m w = (Ok a, w', o) -> Q a w'.
Proof. intros H Hw Hm. specialize (H w Hw). now rewrite Hm in H. Qed.

Lemma execute_ok e q w w' o u :
  execute e q w = (Ok u, w', o) ->
  exists d rows,
    exec_stmt (fk_on w) (clock e (pc w)) q (conn_db w) = Ok (d, rows) /\
    conn_db w' = d /\ fetched w' = rows /\ pc w' = S (pc w).
Proof.
  unfold execute. destruct (fault e (pc w)); [discriminate|].
  destruct (exec_stmt (fk_on w) (clock e (pc w)) q (conn_db w)) as [[d rows]|x];
    [|discriminate].
  intros H. injection H as _ <- _. exists d, rows. auto.
Qed.

Lemma fetchone_ok w w' o r :
  fetchone w = (Ok r, w', o) ->
  r = hd_error (fetched w) /\ conn_db w' = conn_db w /\ pc w' = pc w.
Proof.
  unfold fetchone. destruct (fetched w); intros H; injection H as <- <- _; auto.
Qed.

Lemma exec_only_writes fk now q d d' rows t :
  only_writes t q = true -> exec_stmt fk now q d = Ok (d', rows) -> same_but t d d'.
Proof.
  intros Hs H. destruct q; exec_inv H.
  all: repeat split; intros Ht; try reflexivity.
  all: destruct t; try discriminate Hs; congruence.
Qed.

Lemma same_but_refl t d : same_but t d d.
Proof. repeat split. Qed.

Lemma same_but_trans t d1 d2 d3 : same_but t d1 d2 -> same_but t d2 d3 -> same_but t d1 d3.
Proof.
  intros (A1 & B1 & C1 & D1 & E1) (A2 & B2 & C2 & D2 & E2).
  repeat split; intros Ht;
    [rewrite (A2 Ht) | rewrite (B2 Ht) | rewrite (C2 Ht) | rewrite (D2 Ht) | rewrite (E2 Ht)];
    auto.
Qed.

Lemma new_rowid_above ids seq i :
  new_rowid ids seq = Some i -> (forall x, In x ids -> x < i) /\ seq < i.
Proof.
  unfold new_rowid, largest. destruct ids as [|a r].
  - destruct (seq =? MAX_ROWID); [discriminate|]. intros H. injection H as <-.
    split; [contradiction | lia].
  - destruct ((MAX_ROWID <=? fold_right Z.max a r) || (seq =? MAX_ROWID))%bool;
      [discriminate|].
    intros H. injection H as <-.
    assert (Hmax : forall x, In x (a :: r) -> x <= fold_right Z.max a r).
    { clear. induction r as [|b r IH]; cbn; intros x Hx.
      - destruct Hx as [->|[]]. lia.
      - destruct Hx as [->|[->|Hx]].
        + specialize (IH x (or_introl eq_refl)). lia.
        + lia.
        + specialize (IH x (or_intror Hx)). lia. }
    split; [|lia]. intros x Hx. specialize (Hmax x Hx). lia.
Qed.

Lemma filter_twice {A} (f g : A -> bool) l :
  filter f (filter g l) = filter (fun x => g x && f x) l.
Proof.
  induction l as [|x l IH]; cbn; [reflexivity|].
  destruct (g x); cbn; [destruct (f x)|]; now rewrite IH.
Qed.

Ltac bind_inv H :=
  repeat match type of H with
         | bind _ _ _ = (Ok _, _, _) =>
             let a := fresh "a" in let w := fresh "w" in
             let o1 := fresh "o" in let o2 := fresh "o" in
             let H1 := fresh "Hstep" in let Ho := fresh "Hout" in
             apply bind_ok in H; destruct H as (a & w & o1 & o2 & H1 & H & Ho)
         end.

Lemma upsert_app_info_ok e w w' o u :
  _upsert_app_info e w = (Ok u, w', o) ->
  pc w' = (4 + pc w)%nat /\
  same_but AppInfo (conn_db w) (conn_db w') /\
  app_info_reseeded e (pc w) (conn_db w) (conn_db w').
Proof.
  unfold _upsert_app_info. intros H. bind_inv H.
  apply execute_ok in Hstep, Hstep0, Hstep1, H.
  destruct Hstep as (d1 & r1 & X1 & C1 & _ & P1).
  destruct Hstep0 as (d2 & r2 & X2 & C2 & _ & P2).
  destruct Hstep1 as (d3 & r3 & X3 & C3 & _ & P3).
  destruct H as (d4 & r4 & X4 & C4 & _ & P4).
  rewrite C1 in X2. rewrite C2 in X3. rewrite C3 in X4. rewrite C4.
  rewrite P1 in X2, P2. rewrite P2 in X3, P3. rewrite P3 in X4, P4.
  split; [exact P4|]. split.
  - eapply same_but_trans; [eapply exec_only_writes; [|exact X1]; reflexivity|].
    eapply same_but_trans; [eapply exec_only_writes; [|exact X2]; reflexivity|].
    eapply same_but_trans; [eapply exec_only_writes; [|exact X3]; reflexivity|].
    eapply exec_only_writes; [|exact X4]; reflexivity.
  - exec_inv X1. exec_inv X2. exec_inv X3. exec_inv X4. cbn in *.
    repeat match goal with
           | Hn : new_rowid _ _ = Some _ |- _ => apply new_rowid_above in Hn; destruct Hn
           end.
    exists z, z0, z1, z2. unfold app_row. cbn.
    split; [|split; [|lia]].
    + rewrite !filter_app. cbn. rewrite !filter_twice, <- !app_assoc. cbn.
      f_equal. apply filter_ext. intros r. unfold non_seed_key, seed_keys. cbn.
      destruct (String.eqb (ai_key r) "project_name"),
               (String.eqb (ai_key r) "version"),
               (String.eqb (ai_key r) "author"),
               (String.eqb (ai_key r) "description"); reflexivity.
    + intros r Hr. match goal with Hx : forall x, In x (map ai_id (app_info (conn_db w))) -> _ |- _ =>
        apply Hx end. now apply in_map.
Qed.

(** *** The statement counter *)

Section Counter.

Variable e : env.

Lemma pc_execute q k :
  hoare (fun w => pc w = k) (execute e q) (fun _ w => pc w = S k) (fun _ _ => True).
Proof.
  intros w Hw. unfold execute. destruct (fault e (pc w)); [exact I|].
  destruct (exec_stmt (fk_on w) (clock e (pc w)) q (conn_db w)) as [[d rows]|x];
    [|exact I].
  cbn. now rewrite Hw.
Qed.

Lemma pc_fetchone k :
  hoare (fun w => pc w = k) fetchone (fun _ w => pc w = k) (fun _ _ => True).
Proof. intros w Hw. unfold fetchone. destruct (fetched w); exact Hw. Qed.

Lemma pc_item0 row k :
  hoare (fun w => pc w = k) (item0 row) (fun _ w => pc w = k) (fun _ _ => True).
Proof. intros w Hw. destruct row; cbn; [exact Hw | exact I]. Qed.

Ltac pc_step :=
  lazymatch goal with
  | |- hoare _ (execute _ _) _ _ => apply pc_execute
  | |- hoare _ fetchone _ _ => apply pc_fetchone
  | |- hoare _ (item0 _) _ _ => apply pc_item0
  | |- hoare _ (ret _) _ _ => apply hoare_ret; intros ? ?; assumption
  | |- hoare _ (bind _ _) _ _ => eapply hoare_bind; [| intros ?; cbn beta]
  end.

Lemma pc_enable_foreign_keys k :
  hoare (fun w => pc w = k) (_enable_foreign_keys e)
        (fun _ w => pc w = (1 + k)%nat) (fun _ _ => True).
Proof. unfold _enable_foreign_keys. repeat pc_step. Qed.

Lemma pc_create_core_tables k :
  hoare (fun w => pc w = k) (_create_core_tables e)
        (fun _ w => pc w = (2 + k)%nat) (fun _ _ => True).
Proof. unfold _create_core_tables. repeat pc_step. Qed.

Lemma pc_create_notes_schema k :
  hoare (fun w => pc w = k) (_create_notes_schema e)
        (fun _ w => pc w = (10 + k)%nat) (fun _ _ => True).
Proof. unfold _create_notes_schema. repeat pc_step. Qed.

Lemma pc_ensure_notes_title_unique_index k :
  hoare (fun w => pc w = k) (_ensure_notes_title_unique_index e)
        (fun _ w => pc w = (1 + k)%nat) (fun _ _ => True).
Proof. unfold _ensure_notes_title_unique_index. repeat pc_step. Qed.

Lemma pc_ensure_seed_user k :
  hoare (fun w => pc w = k) (_ensure_seed_user e)
        (fun _ w => pc w = (2 + k)%nat) (fun _ _ => True).
Proof. unfold _ensure_seed_user. repeat pc_step. Qed.

Lemma pc_seed_tags k :
  hoare (fun w => pc w = k) (_seed_tags e)
        (fun _ w => pc w = (4 + k)%nat) (fun _ _ => True).
Proof. unfold _seed_tags, seed_tags. cbn [for_each]. repeat pc_step. Qed.

Lemma pc_seed_notes uid k :
  hoare (fun w => pc w = k) (_seed_notes e uid)
        (fun _ w => pc w = (4 + k)%nat) (fun _ _ => True).
Proof. unfold _seed_notes, seed_notes. cbn [for_each]. repeat pc_step. Qed.

End Counter.

(** *** The schema statements leave the rows alone *)

Lemma has_obj_add t n t' n' d :
  has_obj t n (add_obj t' n' d)
  = (has_obj t n d || (obj_type_eqb t' t && name_eqb n' n))%bool.
Proof.
  unfold has_obj, add_obj. cbn [objects with_objects]. rewrite existsb_app.
  cbn [existsb fst snd]. now rewrite orb_false_r.
Qed.

Lemma exec_plain_ddl fk now q d d' rows :
  seed_stmt q -> plain_ddl q = true -> exec_stmt fk now q d = Ok (d', rows) ->
  same_rows d d' /\
  has_obj Index "uq_notes_title" d' = has_obj Index "uq_notes_title" d.
Proof.
  intros Hq Hp H. destruct q; try discriminate Hp; exec_inv H.
  all: split; [repeat split|]; try reflexivity.
  - rewrite has_obj_add. cbn [obj_type_eqb andb]. now rewrite orb_false_r.
  - assert (Hn : name_eqb name "uq_notes_title" = false).
    { cbn in Hq. unfold seed_indexes in Hq. cbn in Hq.
      repeat (destruct Hq as [<-|Hq]; [reflexivity|]). contradiction. }
    rewrite has_obj_add, Hn. cbn [obj_type_eqb andb]. now rewrite orb_false_r.
Qed.

Lemma keep_ok {A} (Inv : world -> Prop) (m : M A) E w a w' o :
  hoare Inv m (fun _ => Inv) E -> Inv w -> m w = (Ok a, w', o) -> Inv w'.
Proof. intros H Hw Hm. exact (hoare_ok _ _ _ _ _ _ _ _ H Hw Hm). Qed.

Section Steps.

Variable e : env.

Lemma schema_inv_execute s q :
  seed_stmt q -> plain_ddl q = true ->
  hoare (schema_inv s) (execute e q) (fun _ => schema_inv s) (fun _ _ => True).
Proof.
  intros Hq Hp w [Hr Hu].
  destruct (execute e q w) as [[[u|x] w'] o] eqn:Hx; [|exact I].
  apply execute_ok in Hx. destruct Hx as (d & rows & Hx & <- & _).
  destruct (exec_plain_ddl _ _ _ _ _ _ Hq Hp Hx) as [Hr' Hu'].
  split; [eapply same_rows_trans; eauto | congruence].
Qed.

Lemma schema_inv_fetchone s :
  hoare (schema_inv s) fetchone (fun _ => schema_inv s) (fun _ _ => True).
Proof. intros w Hw. unfold fetchone. destruct (fetched w); exact Hw. Qed.

(** The rows are untouched when the seeding starts, at statement 14, and
    the unique index is in place: it was there, or the titles are distinct. *)
Lemma schema_steps s w1 w2 w3 w4 o1 o2 o3 o4 :
  _enable_foreign_keys e (boot s) = (Ok tt, w1, o1) ->
  _create_core_tables e w1 = (Ok tt, w2, o2) ->
  _create_notes_schema e w2 = (Ok tt, w3, o3) ->
  _ensure_notes_title_unique_index e w3 = (Ok tt, w4, o4) ->
  pc w4 = 14%nat /\ same_rows s (conn_db w4) /\
  (has_obj Index "uq_notes_title" s = true \/
   distinct (map n_title (notes s)) = true).
Proof.
  intros H1 H2 H3 H4.
  pose proof (schema_inv_execute s) as Hx. pose proof (schema_inv_fetchone s) as Hf.
  assert (HE : covers (schema_inv s) (fun _ _ => True)) by (intros x w _; exact I).
  assert (I0 : schema_inv s (boot s)) by (split; [apply same_rows_refl | reflexivity]).
  assert (I1 : schema_inv s w1).
  { eapply keep_ok with (Inv := schema_inv s) (E := fun _ _ => True);
      [| exact I0 | exact H1]; keep_fun Hx Hf HE. }
  assert (I2 : schema_inv s w2).
  { eapply keep_ok with (Inv := schema_inv s) (E := fun _ _ => True);
      [| exact I1 | exact H2]; keep_fun Hx Hf HE. }
  assert (I3 : schema_inv s w3).
  { eapply keep_ok with (Inv := schema_inv s) (E := fun _ _ => True);
      [| exact I2 | exact H3]; keep_fun Hx Hf HE. }
  pose proof (hoare_ok _ _ _ _ (boot s) _ _ _ (pc_enable_foreign_keys e 0) eq_refl H1) as P1.
  pose proof (hoare_ok _ _ _ _ _ _ _ _ (pc_create_core_tables e _) P1 H2) as P2.
  pose proof (hoare_ok _ _ _ _ _ _ _ _ (pc_create_notes_schema e _) P2 H3) as P3.
  pose proof (hoare_ok _ _ _ _ _ _ _ _ (pc_ensure_notes_title_unique_index e _) P3 H4) as P4.
  cbn in P4. split; [exact P4|].
  unfold _ensure_notes_title_unique_index in H4. apply execute_ok in H4.
  destruct H4 as (d & rows & Hx4 & <- & _). destruct I3 as [Hr Hu].
  exec_inv Hx4.
  - split; [exact Hr|]. left. congruence.
  - split; [eapply same_rows_trans; [exact Hr | repeat split]|]. right.
    destruct Hr as (_ & _ & Hn & _). congruence.
Qed.

(** The seeding of a run that commits, function by function. *)
Lemma committed_steps s s' :
  committed e s s' ->
  exists d4 d5 d6 d7 d8 uid,
    same_rows s d4 /\
    (has_obj Index "uq_notes_title" s = true \/
     distinct (map n_title (notes s)) = true) /\
    step (_upsert_app_info e) 14 d4 tt d5 /\
    step (_ensure_seed_user e) 18 d5 uid d6 /\
    step (_seed_tags e) 20 d6 tt d7 /\
    step (_seed_notes e uid) 24 d7 tt d8 /\
    step (_seed_note_tags e) 28 d8 tt s'.
Proof.
  intros (w & o & H & ->). unfold provision in H. bind_inv H.
  repeat match goal with u : unit |- _ => destruct u end.
  destruct (schema_steps _ _ _ _ _ _ _ _ _ Hstep Hstep0 Hstep1 Hstep2) as (P4 & Hr & Hu).
  pose proof (upsert_app_info_ok _ _ _ _ _ Hstep3) as (P5 & _).
  pose proof (hoare_ok _ _ _ _ _ _ _ _ (pc_ensure_seed_user e _) P5 Hstep4) as P6.
  pose proof (hoare_ok _ _ _ _ _ _ _ _ (pc_seed_tags e _) P6 Hstep5) as P7.
  pose proof (hoare_ok _ _ _ _ _ _ _ _ (pc_seed_notes e _ _) P7 Hstep6) as P8.
  rewrite P4 in P5, P6, P7, P8. cbn in P5, P6, P7, P8.
  unfold commit in H. destruct (fault e (pc w8)); [discriminate|].
  injection H as <- _. cbn.
  exists (conn_db w3), (conn_db w4), (conn_db w5), (conn_db w6), (conn_db w7), a4.
  split; [exact Hr|]. split; [exact Hu|].
  unfold step. repeat split; eauto 10.
Qed.

End Steps.

(** *** The seed user *)

Lemma app_info_step e k d d' :
  step (_upsert_app_info e) k d tt d' ->
  same_but AppInfo d d' /\ app_info_reseeded e k d d'.
Proof.
  intros (w & w' & o & <- & <- & H & <-).
  now destruct (upsert_app_info_ok _ _ _ _ _ H) as (_ & H1 & H2).
Qed.

Lemma ensure_seed_user_step e k d uid d' :
  step (_ensure_seed_user e) k d uid d' ->
  same_but Users d d' /\
  first_user_id "demo" d' = Some uid /\
  (exists U, users d' = users d ++ U) /\
  (has_user "demo" d = true -> users d' = users d).
Proof.
  intros (w & w' & o & _ & <- & H & <-).
  unfold _ensure_seed_user in H. bind_inv H.
  apply execute_ok in Hstep, Hstep0.
  destruct Hstep as (d1 & r1 & X1 & C1 & _ & _).
  destruct Hstep0 as (d2 & r2 & X2 & C2 & F2 & _).
  apply fetchone_ok in Hstep1. destruct Hstep1 as (Hrow & C3 & _).
  rewrite C1 in X2. rewrite F2 in Hrow. rewrite C2 in C3.
  destruct a1 as [v|]; [|discriminate H]. cbn in H. injection H as <- <- _. rewrite C3.
  assert (Hsel : d2 = d1 /\ first_user_id "demo" d1 = Some v).
  { exec_inv X2. split; [reflexivity|]. unfold first_user_id. now rewrite <- Hrow. }
  destruct Hsel as [-> Hfirst].
  split; [eapply exec_only_writes; [|exact X1]; reflexivity|].
  split; [exact Hfirst|].
  exec_inv X1; cbn.
  - split; [exists []; now rewrite app_nil_r | reflexivity].
  - split; [eexists; reflexivity|]. unfold has_user. intros Hu.
    match goal with
    | Hx : existsb _ (users (conn_db w)) = false |- _ =>
        apply existsb_exists in Hu; destruct Hu as [u [Hin Hname]];
        pose proof (existsb_false_In _ _ _ Hx Hin) as Hf; cbn in Hf;
        rewrite Hname in Hf; discriminate Hf
    end.
Qed.

(** *** The seed tags *)

Lemma insert_ignore_tag_spec now n c d d' :
  insert_ignore_tag now n c d = Ok d' ->
  same_but Tags d d' /\
  has_tag n d' = true /\
  (forall m, has_tag m d = true -> has_tag m d' = true) /\
  (has_tag n d = true -> tags d' = tags d).
Proof.
  intros H.
  assert (Hs : same_but Tags d d').
  { apply (exec_only_writes true now (InsertIgnoreTag n c) d d' []); [reflexivity|].
    cbn. now rewrite H. }
  split; [exact Hs|].
  unfold insert_ignore_tag in H.
  destruct (negb (has_obj Table "tags" d)); [discriminate|].
  destruct (new_rowid (map t_id (tags d)) (seq_tags d)); [|discriminate].
  destruct (existsb (fun r => String.eqb (t_name r) n) (tags d)) eqn:Hn;
    injection H as <-; unfold has_tag; cbn.
  - auto.
  - split; [|split].
    + rewrite existsb_app. cbn. now rewrite String.eqb_refl, orb_true_r.
    + intros m Hm. rewrite existsb_app, Hm. reflexivity.
    + rewrite Hn. discriminate.
Qed.

Lemma seed_tags_step e k d d' :
  step (_seed_tags e) k d tt d' ->
  same_but Tags d d' /\
  (forall n, In n seed_names -> has_tag n d' = true) /\
  ((forall n, In n seed_names -> has_tag n d = true) -> tags d' = tags d).
Proof.
  intros (w & w' & o & _ & <- & H & <-).
  unfold _seed_tags, seed_tags in H. cbn [for_each] in H. bind_inv H.
  apply execute_ok in Hstep, Hstep0, Hstep1, Hstep2.
  destruct Hstep as (d1 & r1 & X1 & C1 & _ & _).
  destruct Hstep0 as (d2 & r2 & X2 & C2 & _ & _).
  destruct Hstep1 as (d3 & r3 & X3 & C3 & _ & _).
  destruct Hstep2 as (d4 & r4 & X4 & C4 & _ & _).
  injection H as <- _.
  rewrite C1 in X2. rewrite C2 in X3. rewrite C3 in X4. rewrite C4. clear C1 C2 C3 C4.
  cbn [exec_stmt] in X1, X2, X3, X4. unfold changed in X1, X2, X3, X4.
  destruct (insert_ignore_tag _ "work" _ _) as [d1'|] eqn:E1; [|discriminate].
  injection X1 as <- _.
  destruct (insert_ignore_tag _ "personal" _ _) as [d2'|] eqn:E2; [|discriminate].
  injection X2 as <- _.
  destruct (insert_ignore_tag _ "ideas" _ _) as [d3'|] eqn:E3; [|discriminate].
  injection X3 as <- _.
  destruct (insert_ignore_tag _ "urgent" _ _) as [d4'|] eqn:E4; [|discriminate].
  injection X4 as <- _.
  apply insert_ignore_tag_spec in E1, E2, E3, E4.
  destruct E1 as (S1 & N1 & M1 & K1), E2 as (S2 & N2 & M2 & K2),
           E3 as (S3 & N3 & M3 & K3), E4 as (S4 & N4 & M4 & K4).
  split; [eauto using same_but_trans|]. split.
  - intros n Hn. unfold seed_names in Hn. cbn in Hn.
    destruct Hn as [<-|[<-|[<-|[<-|[]]]]]; auto.
  - intros Hall.
    assert (H1 : tags d1' = tags (conn_db w))
      by (apply K1, Hall; unfold seed_names; cbn; auto).
    assert (H2 : tags d2' = tags d1')
      by (apply K2, M1, Hall; unfold seed_names; cbn; auto).
    assert (H3 : tags d3' = tags d2')
      by (apply K3, M2, M1, Hall; unfold seed_names; cbn; auto).
    assert (H4 : tags d4' = tags d3')
      by (apply K4, M3, M2, M1, Hall; unfold seed_names; cbn; auto 6).
    congruence.
Qed.

(** *** The seed notes *)

Lemma for_each_upserted e uid l :
  forall w w' o,
    for_each l (fun '(title, content, is_archived) =>
                  execute e (UpsertNote title content uid is_archived)) w
    = (Ok tt, w', o) ->
    upserted e uid (pc w) l (conn_db w) (conn_db w').
Proof.
  induction l as [|[[t c] a] l IH]; intros w w' o H; cbn [for_each] in H.
  - injection H as <- _. constructor.
  - bind_inv H. apply execute_ok in Hstep.
    destruct Hstep as (d1 & rows & X & C & _ & P).
    cbn [exec_stmt] in X. unfold changed in X.
    destruct (upsert_note _ _ t c uid a _) as [d1'|] eqn:Hu; [|discriminate].
    injection X as <- _. apply IH in H. rewrite P, C in H.
    econstructor; eauto.
Qed.

Lemma seed_notes_step e k uid d d' :
  step (_seed_notes e uid) k d tt d' -> upserted e uid k seed_notes d d'.
Proof.
  intros (w & w' & o & <- & <- & H & <-). now apply for_each_upserted in H.
Qed.

(** One upsert: the rows with the title are rewritten in place, or one row
    is added when there is none. *)
Lemma upsert_note_spec fk now t c uid a d d' :
  upsert_note fk now t c uid a d = Ok d' ->
  same_but Notes d d' /\
  ((has_note t d = true /\ notes d' = map (touch_note now t c uid a) (notes d)) \/
   (has_note t d = false /\
    exists i, notes d' = notes d ++ [{| n_id := i; n_title := t; n_content := c;
                                        n_user_id := Some uid; n_is_archived := a;
                                        n_created_at := now; n_updated_at := now |}])).
Proof.
  intros H.
  assert (Hs : same_but Notes d d').
  { apply (exec_only_writes fk now (UpsertNote t c uid a) d d' []); [reflexivity|].
    cbn. now rewrite H. }
  split; [exact Hs|]. unfold upsert_note in H.
  repeat match type of H with
         | context [match new_rowid ?x ?y with _ => _ end] => destruct (new_rowid x y)
         | context [if existsb (fun r => String.eqb (n_title r) t) (notes d) then _ else _] =>
             destruct (existsb (fun r => String.eqb (n_title r) t) (notes d)) eqn:Hn
         | context [if ?b then _ else _] => destruct b
         end; try discriminate H; injection H as <-; cbn; unfold has_note; eauto.
Qed.

Lemma upserted_same_but e uid k l d d' :
  upserted e uid k l d d' -> same_but Notes d d'.
Proof.
  induction 1 as [|k t c a l fk d d1 d' Hu _ IH]; [apply same_but_refl|].
  apply upsert_note_spec in Hu. eapply same_but_trans; [apply Hu | exact IH].
Qed.

Lemma has_note_In t d : has_note t d = true <-> In t (map n_title (notes d)).
Proof.
  unfold has_note. rewrite existsb_exists, in_map_iff. split.
  - intros [r [Hr Ht]]. apply String.eqb_eq in Ht. eauto.
  - intros [r [Ht Hr]]. exists r. split; [exact Hr | now apply String.eqb_eq].
Qed.

Lemma map_touch_titles now t c u a l :
  map n_title (map (touch_note now t c u a) l) = map n_title l.
Proof. rewrite map_map. apply map_ext. intros r. apply touch_note_title. Qed.

Lemma distinct_NoDup l : distinct l = true -> NoDup l.
Proof.
  induction l as [|x l IH]; cbn; intros H; [constructor|].
  apply andb_true_iff in H. destruct H as [Hx Hl]. constructor; [|auto].
  intros Hin. apply negb_true_iff in Hx.
  pose proof (existsb_false_In _ _ _ Hx Hin) as Hf. now rewrite String.eqb_refl in Hf.
Qed.

(** The titles stay distinct. *)
Lemma upserted_NoDup e uid k l d d' :
  upserted e uid k l d d' ->
  NoDup (map n_title (notes d)) -> NoDup (map n_title (notes d')).
Proof.
  induction 1 as [|k t c a l fk d d1 d' Hu _ IH]; [auto|]. intros Hd. apply IH.
  apply upsert_note_spec in Hu. destruct Hu as (_ & [[Hn ->]|[Hn [i ->]]]).
  - now rewrite map_touch_titles.
  - rewrite map_app. cbn. apply NoDup_app; [exact Hd | repeat constructor; auto |].
    intros x Hx [<-|[]]. apply has_note_In in Hx. congruence.
Qed.

(** A row whose title is none of [l] stays as it is. *)
Lemma upserted_other e uid k l d d' r :
  upserted e uid k l d d' ->
  ~ In (n_title r) (map (fun x => fst (fst x)) l) ->
  In r (notes d) -> In r (notes d').
Proof.
  induction 1 as [|k t c a l fk d d1 d' Hu _ IH]; [auto|]. cbn. intros Hr Hin.
  apply IH; [tauto|].
  apply upsert_note_spec in Hu. destruct Hu as (_ & [[Hn ->]|[Hn [i ->]]]).
  - apply in_map_iff. exists r. split; [|exact Hin].
    apply touch_note_other. intros Heq. apply Hr. now left.
  - apply in_or_app. now left.
Qed.

(** The [i]-th seed note: a row that bears its title is rewritten at the
    [i]-th statement and keeps its id and its creation time. *)
Lemma upserted_touch e uid l :
  forall k d d' i t c a r,
    upserted e uid k l d d' ->
    NoDup (map (fun x => fst (fst x)) l) ->
    nth_error l i = Some (t, c, a) ->
    In r (notes d) -> n_title r = t ->
    In (touch_note (clock e (k + i)) t c uid a r) (notes d').
Proof.
  induction l as [|[[t0 c0] a0] l IH]; intros k d d' i t c a r Hup Hnd Hi Hin Ht.
  - destruct i; discriminate Hi.
  - revert Hi Hin Ht.
    inversion Hup as [|k' t' c' a' l' fk d0 d1 d2 Hu Hrest]; subst.
    intros Hi Hin Ht. cbn in Hnd. apply NoDup_cons_iff in Hnd. destruct Hnd as [Hnot Hnd].
    pose proof (upsert_note_spec _ _ _ _ _ _ _ _ Hu) as (_ & Hcase).
    destruct i as [|i]; cbn in Hi.
    + injection Hi as -> -> ->. rewrite Nat.add_0_r.
      eapply upserted_other;
        [exact Hrest | rewrite touch_note_title, Ht; exact Hnot |].
      destruct Hcase as [[Hn ->]|[Hn _]].
      * now apply in_map.
      * assert (has_note (n_title r) d = true)
          by (apply has_note_In; now apply in_map).
        congruence.
    + replace (k + S i)%nat with (S k + i)%nat by lia.
      apply (IH (S k) d1 d' i t c a r Hrest Hnd Hi); [|exact Ht].
      assert (Hne : n_title r <> t0).
      { rewrite Ht. intros ->. apply Hnot.
        apply nth_error_In in Hi. now apply (in_map (fun x => fst (fst x))) in Hi. }
      destruct Hcase as [[Hn ->]|[Hn [j ->]]].
      * apply in_map_iff. exists r. split; [now apply touch_note_other | exact Hin].
      * apply in_or_app. now left.
Qed.

Lemma seeded_note_strip uid x d d1 :
  map strip (notes d1) = map strip (notes d) ->
  seeded_note uid x d -> seeded_note uid x d1.
Proof.
  destruct x as [[t c] a]. intros Hs [Hn Hr]. split.
  - apply has_note_In. apply has_note_In in Hn.
    replace (map n_title (notes d1)) with (map n_title (map strip (notes d1)))
      by (rewrite map_map; now apply map_ext).
    rewrite Hs, map_map. exact Hn.
  - intros r Hin Ht.
    assert (Hin' : In (strip r) (map strip (notes d))) by (rewrite <- Hs; now apply in_map).
    apply in_map_iff in Hin'. destruct Hin' as [r0 [Heq Hin0]].
    assert (Ht0 : n_title r0 = t)
      by (rewrite <- Ht; exact (f_equal n_title Heq)).
    destruct (Hr r0 Hin0 Ht0) as (Hc & Hu & Ha).
    rewrite <- Hc, <- Hu, <- Ha.
    repeat split;
      [exact (eq_sym (f_equal n_content Heq)) | exact (eq_sym (f_equal n_user_id Heq))
       | exact (eq_sym (f_equal n_is_archived Heq))].
Qed.

(** The upsert of a note that is already there as the script writes it
    changes update times only. *)
Lemma upsert_seeded_strip fk now t c uid a d d' :
  upsert_note fk now t c uid a d = Ok d' ->
  seeded_note uid (t, c, a) d ->
  map strip (notes d') = map strip (notes d).
Proof.
  intros Hu [Hn Hr]. apply upsert_note_spec in Hu.
  destruct Hu as (_ & [[_ Hd]|[Hn' _]]); [|congruence].
  rewrite Hd, map_map. apply map_ext_in. intros r Hin. unfold touch_note.
  destruct (String.eqb_spec (n_title r) t) as [Ht|]; [|reflexivity].
  destruct (Hr r Hin Ht) as (Hc & Hu & Ha). unfold strip. cbn. now rewrite Hc, Hu, Ha.
Qed.

Lemma upserted_strip e uid k l d d' :
  upserted e uid k l d d' ->
  (forall x, In x l -> seeded_note uid x d) ->
  map strip (notes d') = map strip (notes d).
Proof.
  induction 1 as [|k t c a l fk d d1 d' Hu _ IH]; [reflexivity|]. intros Hall.
  assert (H1 : map strip (notes d1) = map strip (notes d))
    by (eapply upsert_seeded_strip; [exact Hu | apply Hall; now left]).
  rewrite <- H1. apply IH. intros x Hx.
  apply (seeded_note_strip uid x d d1 H1). apply Hall. now right.
Qed.

(** An upsert writes its note as the script has it and leaves the notes of
    other titles as they are. *)
Lemma upsert_seeds fk now t c uid a d d' :
  upsert_note fk now t c uid a d = Ok d' -> seeded_note uid (t, c, a) d'.
Proof.
  intros Hu. apply upsert_note_spec in Hu. unfold seeded_note.
  destruct Hu as (_ & [[Hn Hd]|[Hn [i Hd]]]); split.
  - apply has_note_In. rewrite Hd, map_touch_titles. now apply has_note_In.
  - intros r Hin Ht. rewrite Hd in Hin.
    apply in_map_iff in Hin. destruct Hin as [r0 [<- Hin0]].
    rewrite touch_note_title in Ht. unfold touch_note.
    apply String.eqb_eq in Ht. rewrite Ht. cbn. auto.
  - unfold has_note. rewrite Hd, existsb_app. cbn.
    now rewrite String.eqb_refl, orb_true_r.
  - intros r Hin Ht. rewrite Hd in Hin. apply in_app_or in Hin.
    destruct Hin as [Hin|[<-|[]]]; [|cbn; auto].
    assert (has_note t d = true) by (apply has_note_In; rewrite <- Ht; now apply in_map).
    congruence.
Qed.

Lemma upsert_keeps_seeded fk now t0 c0 uid a0 d d' t c a :
  upsert_note fk now t0 c0 uid a0 d = Ok d' -> t <> t0 ->
  seeded_note uid (t, c, a) d -> seeded_note uid (t, c, a) d'.
Proof.
  intros Hu Hne [Hn Hr]. apply upsert_note_spec in Hu. unfold seeded_note.
  destruct Hu as (_ & [[_ Hd]|[_ [i Hd]]]); split.
  - apply has_note_In. rewrite Hd, map_touch_titles. now apply has_note_In.
  - intros r Hin Ht. rewrite Hd in Hin.
    apply in_map_iff in Hin. destruct Hin as [r0 [<- Hin0]].
    rewrite touch_note_title in Ht.
    rewrite touch_note_other by congruence. now apply Hr.
  - unfold has_note in *. now rewrite Hd, existsb_app, Hn.
  - intros r Hin Ht. rewrite Hd in Hin. apply in_app_or in Hin.
    destruct Hin as [Hin|[<-|[]]]; [now apply Hr|]. cbn in Ht. congruence.
Qed.

Lemma upserted_keeps_seeded e uid k l d d' t c a :
  upserted e uid k l d d' ->
  ~ In t (map (fun x => fst (fst x)) l) ->
  seeded_note uid (t, c, a) d -> seeded_note uid (t, c, a) d'.
Proof.
  induction 1 as [|k t0 c0 a0 l fk d d1 d' Hu _ IH]; [auto|]. cbn. intros Hnot Hs.
  apply IH; [tauto|]. eapply upsert_keeps_seeded; [exact Hu | | exact Hs].
  intros ->. apply Hnot. now left.
Qed.

(** After the upserts every seed note is there as the script writes it. *)
Lemma upserted_seeded e uid k l d d' :
  upserted e uid k l d d' ->
  NoDup (map (fun x => fst (fst x)) l) ->
  forall x, In x l -> seeded_note uid x d'.
Proof.
  induction 1 as [|k t c a l fk d d1 d' Hu Hrest IH]; [contradiction|].
  cbn. intros Hnd x [<-|Hx].
  - apply NoDup_cons_iff in Hnd.
    eapply upserted_keeps_seeded; [exact Hrest | apply Hnd|].
    eapply upsert_seeds; exact Hu.
  - apply NoDup_cons_iff in Hnd. now apply IH.
Qed.

Lemma seed_titles_NoDup : NoDup (map (fun x => fst (fst x)) seed_notes).
Proof.
  apply distinct_NoDup. reflexivity.
Qed.

(** *** The associations *)

Section Links.

Variable e : env.

Lemma ok_execute q (P Q : world -> Prop) :
  (forall w w' d rows, P w ->
     exec_stmt (fk_on w) (clock e (pc w)) q (conn_db w) = Ok (d, rows) ->
     conn_db w' = d -> fetched w' = rows -> pc w' = S (pc w) -> Q w') ->
  hoare P (execute e q) (fun _ => Q) (fun _ _ => True).
Proof.
  intros H w Hw. destruct (execute e q w) as [[[u|x] w'] o] eqn:Hx; [|exact I].
  apply execute_ok in Hx. destruct Hx as (d & rows & Hx & Hc & Hf & Hp). eauto.
Qed.

Lemma ok_fetchone (P : world -> Prop) (Q : option Z -> world -> Prop) :
  (forall w w', P w -> conn_db w' = conn_db w -> pc w' = pc w ->
     Q (hd_error (fetched w)) w') ->
  hoare P fetchone Q (fun _ _ => True).
Proof.
  intros H w Hw. destruct (fetchone w) as [[[r|x] w'] o] eqn:Hx; [|exact I].
  apply fetchone_ok in Hx. destruct Hx as (-> & Hc & Hp). eauto.
Qed.

Lemma hoare_pure {A} (F : Prop) (P : world -> Prop) (m : M A) Q E :
  (F -> hoare P m Q E) -> hoare (fun w => F /\ P w) m Q E.
Proof. intros H w [HF Hw]. now apply H. Qed.

Lemma insert_ignore_note_tag_spec fk now nid tid d d' :
  insert_ignore_note_tag fk now nid tid d = Ok d' ->
  same_but NoteTags d d' /\
  has_link nid tid d' = true /\
  (forall a b, has_link a b d = true -> has_link a b d' = true) /\
  (has_link nid tid d = true -> d' = d).
Proof.
  intros H.
  assert (Hs : same_but NoteTags d d').
  { apply (exec_only_writes fk now (InsertIgnoreNoteTag nid tid) d d' []); [reflexivity|].
    cbn. now rewrite H. }
  split; [exact Hs|]. unfold insert_ignore_note_tag in H.
  repeat match type of H with
         | context [if existsb ?f (note_tags d) then _ else _] =>
             destruct (existsb f (note_tags d)) eqn:Hn
         | context [if ?b then _ else _] => destruct b
         end; try discriminate H; injection H as <-; unfold has_link; cbn; auto.
  all: repeat split.
  all: try (rewrite existsb_app; cbn; now rewrite !Z.eqb_refl, orb_true_r).
  all: try (intros a b Hab; now rewrite existsb_app, Hab).
  all: try (rewrite Hn; discriminate).
Qed.

(** With every pair linked already, the function changes nothing. *)
Lemma seed_note_tags_noop d :
  linked_in mappings d ->
  hoare (fun w => conn_db w = d) (_seed_note_tags e)
        (fun _ w => conn_db w = d) (fun _ _ => True).
Proof.
  intros Hl. unfold _seed_note_tags. apply hoare_for_each. intros [t names] Hin.
  eapply hoare_bind.
  { apply ok_execute
      with (Q := fun w => hd_error (fetched w) = first_note_id t d /\ conn_db w = d).
    intros w w' d' rows Hw Hx Hc Hf Hp. rewrite Hw in Hx. exec_inv Hx.
    rewrite Hf. split; [reflexivity | congruence]. }
  intros ?u; cbn beta. eapply hoare_bind.
  { apply ok_fetchone
      with (Q := fun r w => r = first_note_id t d /\ conn_db w = d).
    intros w w' [Hf Hw] Hc Hp. split; congruence. }
  intros [nid|]; [|apply hoare_ret; tauto].
  apply hoare_pure. intros Hnid.
  apply hoare_for_each. intros n Hn.
  eapply hoare_bind.
  { apply ok_execute
      with (Q := fun w => hd_error (fetched w) = first_tag_id n d /\ conn_db w = d).
    intros w w' d' rows Hw Hx Hc Hf Hp. rewrite Hw in Hx. exec_inv Hx.
    rewrite Hf. split; [reflexivity | congruence]. }
  intros ?u; cbn beta. eapply hoare_bind.
  { apply ok_fetchone
      with (Q := fun r w => r = first_tag_id n d /\ conn_db w = d).
    intros w w' [Hf Hw] Hc Hp. split; congruence. }
  intros [tid|]; [|apply hoare_ret; tauto].
  apply hoare_pure. intros Htid.
  apply ok_execute. intros w w' d' rows Hw Hx Hc Hf Hp. rewrite Hw in Hx.
  cbn [exec_stmt] in Hx. unfold changed in Hx.
  destruct (insert_ignore_note_tag _ _ nid tid d) as [d1|] eqn:Hi; [|discriminate].
  injection Hx as <- _. apply insert_ignore_note_tag_spec in Hi.
  destruct Hi as (_ & _ & _ & Hsame). rewrite Hc. apply Hsame.
  eapply Hl; eauto.
Qed.

Lemma linked_in_mono maps d1 d2 :
  same_but NoteTags d1 d2 ->
  (forall a b, has_link a b d1 = true -> has_link a b d2 = true) ->
  linked_in maps d1 -> linked_in maps d2.
Proof.
  intros (_ & _ & Hn & Ht & _) Hm Hl t names n nid tid Hin Hn' Hnid Htid.
  apply Hm. apply (Hl t names n nid tid Hin Hn').
  - unfold first_note_id in *. rewrite <- Hn; [exact Hnid | discriminate].
  - unfold first_tag_id in *. rewrite <- Ht; [exact Htid | discriminate].
Qed.

Lemma linked_in_app l1 l2 d :
  linked_in l1 d -> linked_in l2 d -> linked_in (l1 ++ l2) d.
Proof.
  intros H1 H2 t names n nid tid Hin. apply in_app_or in Hin.
  destruct Hin; [now apply (H1 t names) | now apply (H2 t names)].
Qed.

Lemma linked_in_names t l1 l2 d :
  linked_in [(t, l1)] d -> linked_in [(t, l2)] d -> linked_in [(t, l1 ++ l2)] d.
Proof.
  intros H1 H2 t' names n nid tid [Heq|[]] Hn. injection Heq as <- <-.
  apply in_app_or in Hn.
  destruct Hn; [apply (H1 t l1) | apply (H2 t l2)]; auto; now left.
Qed.

Lemma same_but_note_tags_ids d d' t n :
  same_but NoteTags d d' ->
  first_note_id t d' = first_note_id t d /\ first_tag_id n d' = first_tag_id n d.
Proof.
  intros (_ & _ & Hn & Ht & _). unfold first_note_id, first_tag_id.
  rewrite Hn, Ht; [auto | discriminate | discriminate].
Qed.

(** The function links every pair whose note and tag it finds, and writes
    to note_tags only. *)
Lemma seed_note_tags_links d :
  hoare (fun w => conn_db w = d) (_seed_note_tags e)
        (fun _ w => same_but NoteTags d (conn_db w) /\
                    (forall a b, has_link a b d = true -> has_link a b (conn_db w) = true) /\
                    linked_in mappings (conn_db w))
        (fun _ _ => True).
Proof.
  set (Inv := fun (pre : list (string * list string)) (w : world) =>
                same_but NoteTags d (conn_db w) /\
                (forall a b, has_link a b d = true -> has_link a b (conn_db w) = true) /\
                linked_in pre (conn_db w)).
  apply hoare_conseq with (P' := Inv []) (Q' := fun _ => Inv ([] ++ mappings))
                          (E' := fun _ _ => True); [| | auto | auto].
  2:{ intros w Hw. unfold Inv. rewrite Hw.
      split; [apply same_but_refl | split; [auto|]]. intros t names n nid tid []. }
  unfold _seed_note_tags. apply hoare_for_each_prefix. intros pre [t names] post _.
  eapply hoare_bind.
  { apply ok_execute
      with (Q := fun w => hd_error (fetched w) = first_note_id t d /\ Inv pre w).
    intros w w' d' rows Hw Hx Hc Hf Hp.
    destruct (same_but_note_tags_ids _ _ t EmptyString (proj1 Hw)) as [Hid _].
    exec_inv Hx. rewrite Hf. split; [exact Hid|]. unfold Inv. now rewrite Hc. }
  intros ?u; cbn beta. eapply hoare_bind.
  { apply ok_fetchone with (Q := fun r w => r = first_note_id t d /\ Inv pre w).
    intros w w' [Hf Hw] Hc Hp. split; [now symmetry|]. unfold Inv. now rewrite Hc. }
  intros [nid|].
  2:{ apply hoare_ret. intros w [Hnone (Hs & Hm & Hl)].
      split; [exact Hs | split; [exact Hm|]].
      apply linked_in_app; [exact Hl|].
      intros t' names' n nid tid [Heq|[]] _ Hnid. injection Heq as <- <-.
      destruct (same_but_note_tags_ids _ _ t EmptyString Hs) as [Hid _]. congruence. }
  apply hoare_pure. intros Hnid.
  set (Inner := fun (pn : list string) (w : world) =>
                  Inv pre w /\ linked_in [(t, pn)] (conn_db w)).
  apply hoare_conseq with (P' := Inner []) (Q' := fun _ => Inner ([] ++ names))
                          (E' := fun _ _ => True); [| | | auto].
  2:{ intros w Hw. split; [exact Hw|]. intros t' names' n a b [Heq|[]] Hn.
      injection Heq as <- <-. contradiction. }
  2:{ intros _ w [(Hs & Hm & Hl) Hin].
      split; [exact Hs | split; [exact Hm|]]. now apply linked_in_app. }
  apply hoare_for_each_prefix. intros pn n postn _.
  eapply hoare_bind.
  { apply ok_execute
      with (Q := fun w => hd_error (fetched w) = first_tag_id n d /\ Inner pn w).
    intros w w' d' rows Hw Hx Hc Hf Hp.
    destruct (same_but_note_tags_ids _ _ EmptyString n (proj1 (proj1 Hw))) as [_ Hid].
    exec_inv Hx. rewrite Hf. split; [exact Hid|]. unfold Inner, Inv. now rewrite Hc. }
  intros ?u; cbn beta. eapply hoare_bind.
  { apply ok_fetchone with (Q := fun r w => r = first_tag_id n d /\ Inner pn w).
    intros w w' [Hf Hw] Hc Hp. split; [now symmetry|]. unfold Inner, Inv. now rewrite Hc. }
  intros [tid|].
  2:{ apply hoare_ret. intros w [Hnone [(Hs & Hm & Hl) Hin]].
      split; [split; [exact Hs | split; [exact Hm | exact Hl]]|].
      apply linked_in_names; [exact Hin|].
      intros t' names' n' a b [Heq|[]] Hn' _ Htid. injection Heq as <- <-.
      destruct Hn' as [<-|[]].
      destruct (same_but_note_tags_ids _ _ EmptyString n Hs) as [_ Hid]. congruence. }
  apply hoare_pure. intros Htid.
  apply ok_execute. intros w w' d' rows [(Hs & Hm & Hl) Hin] Hx Hc Hf Hp.
  cbn [exec_stmt] in Hx. unfold changed in Hx.
  destruct (insert_ignore_note_tag _ _ nid tid (conn_db w)) as [d1|] eqn:Hi; [|discriminate].
  injection Hx as <- _. apply insert_ignore_note_tag_spec in Hi.
  destruct Hi as (Hs1 & Hlink & Hmono & _). unfold Inner, Inv. rewrite Hc.
  split; [split; [|split]|].
  - eapply same_but_trans; eauto.
  - auto.
  - eapply linked_in_mono; eauto.
  - apply linked_in_names; [eapply linked_in_mono; eauto|].
    intros t' names' n' a b [Heq|[]] Hn' Ha Hb. injection Heq as <- <-.
    destruct Hn' as [<-|[]].
    assert (Hs2 : same_but NoteTags d d1) by (eapply same_but_trans; eauto).
    destruct (same_but_note_tags_ids _ _ t n Hs2) as [Hid1 Hid2].
    assert (a = nid) by congruence. assert (b = tid) by congruence. subst. exact Hlink.
Qed.

Lemma seed_note_tags_step k d d' :
  step (_seed_note_tags e) k d tt d' ->
  same_but NoteTags d d' /\
  (forall a b, has_link a b d = true -> has_link a b d' = true) /\
  linked_in mappings d' /\
  (linked_in mappings d -> d' = d).
Proof.
  intros (w & w' & o & _ & <- & H & <-).
  pose proof (hoare_ok _ _ _ _ _ _ _ _ (seed_note_tags_links (conn_db w)) eq_refl H)
    as (H1 & H2 & H3).
  split; [exact H1 | split; [exact H2 | split; [exact H3|]]]. intros Hl.
  exact (hoare_ok _ _ _ _ _ _ _ _ (seed_note_tags_noop (conn_db w) Hl) eq_refl H).
Qed.

End Links.

(** ** A committed run, table by table *)

Lemma committed_seeding e s s' :
  committed e s s' -> exists d5 d6 d7 d8 uid, seeding e s s' d5 d6 d7 d8 uid.
Proof.
  intros H. apply committed_steps in H.
  destruct H as (d4 & d5 & d6 & d7 & d8 & uid & Hr & Hu & S5 & S6 & S7 & S8 & S9).
  exists d5, d6, d7, d8, uid.
  destruct Hr as (R1 & R2 & R3 & R4 & R5 & _).
  destruct (app_info_step _ _ _ _ S5) as [(_ & B2 & B3 & B4 & B5) Happ].
  destruct (ensure_seed_user_step _ _ _ _ _ S6) as [(C1 & _ & C3 & C4 & C5) _].
  destruct (seed_tags_step _ _ _ _ S7) as [(D1 & D2 & D3 & _ & D5) _].
  pose proof (seed_notes_step _ _ _ _ _ S8) as Hup.
  destruct (upserted_same_but _ _ _ _ _ _ Hup) as (E1 & E2 & _ & E4 & E5).
  destruct (seed_note_tags_step _ _ _ _ S9) as [(F1 & F2 & F3 & F4 & _) _].
  specialize (B2 ltac:(discriminate)). specialize (B3 ltac:(discriminate)).
  specialize (B4 ltac:(discriminate)). specialize (B5 ltac:(discriminate)).
  specialize (C1 ltac:(discriminate)). specialize (C3 ltac:(discriminate)).
  specialize (C4 ltac:(discriminate)). specialize (C5 ltac:(discriminate)).
  specialize (D1 ltac:(discriminate)). specialize (D2 ltac:(discriminate)).
  specialize (D3 ltac:(discriminate)). specialize (D5 ltac:(discriminate)).
  specialize (E1 ltac:(discriminate)). specialize (E2 ltac:(discriminate)).
  specialize (E4 ltac:(discriminate)). specialize (E5 ltac:(discriminate)).
  specialize (F1 ltac:(discriminate)). specialize (F2 ltac:(discriminate)).
  specialize (F3 ltac:(discriminate)). specialize (F4 ltac:(discriminate)).
  split; try assumption; repeat split; try congruence.
  destruct Happ as (i1 & i2 & i3 & i4 & Hrows & Hids & Hlt).
  exists i1, i2, i3, i4. rewrite <- R1. auto.
Qed.

Lemma first_user_id_has u d uid : first_user_id u d = Some uid -> has_user u d = true.
Proof.
  unfold first_user_id, has_user. intros H.
  destruct (filter (fun r => String.eqb (u_username r) u) (users d)) as [|r l] eqn:Hf;
    [discriminate|].
  assert (Hin : In r (filter (fun r => String.eqb (u_username r) u) (users d)))
    by (rewrite Hf; now left).
  apply filter_In in Hin. apply existsb_exists. exists r. exact Hin.
Qed.

Lemma seeded_note_notes uid x d d' :
  notes d' = notes d -> seeded_note uid x d -> seeded_note uid x d'.
Proof. intros H. apply seeded_note_strip. now rewrite H. Qed.

(** A committed run leaves the store seeded. *)
Lemma seeding_seeded e s s' d5 d6 d7 d8 uid :
  seeding e s s' d5 d6 d7 d8 uid -> seeded s' uid.
Proof.
  intros [_ _ _ Su _ St (_ & Tu & _) Sn (_ & Nu & Nt & _) Sl (_ & Lu & Lt & Ln)].
  destruct (ensure_seed_user_step _ _ _ _ _ Su) as (_ & Hfirst & _).
  destruct (seed_tags_step _ _ _ _ St) as (_ & Htags & _).
  pose proof (upserted_seeded _ _ _ _ _ _ Sn seed_titles_NoDup) as Hnotes.
  destruct (seed_note_tags_step _ _ _ _ Sl) as (_ & _ & Hlinks & _).
  split.
  - unfold first_user_id in *. now rewrite Lu.
  - intros n Hn. unfold has_tag. rewrite Lt. now apply Htags.
  - intros x Hx. apply (seeded_note_notes uid x d8 s' Ln). now apply Hnotes.
  - exact Hlinks.
Qed.

(** ** A second run on a seeded store *)

Lemma ids_by_title_strip t l :
  map n_id (filter (fun r => String.eqb (n_title r) t) (map strip l))
  = map n_id (filter (fun r => String.eqb (n_title r) t) l).
Proof.
  induction l as [|r l IH]; cbn; [reflexivity|].
  destruct (String.eqb (n_title r) t); cbn; now rewrite IH.
Qed.

Lemma first_note_id_strip t d d' :
  map strip (notes d') = map strip (notes d) -> first_note_id t d' = first_note_id t d.
Proof.
  intros H. unfold first_note_id.
  now rewrite <- (ids_by_title_strip t (notes d')), H, ids_by_title_strip.
Qed.

Lemma linked_in_strip maps d d' :
  map strip (notes d') = map strip (notes d) -> tags d' = tags d ->
  note_tags d' = note_tags d -> linked_in maps d -> linked_in maps d'.
Proof.
  intros Hn Ht Hl H t names n nid tid Hin Hn' Hnid Htid.
  unfold has_link. rewrite Hl. apply (H t names n nid tid Hin Hn').
  - now rewrite <- (first_note_id_strip t d d' Hn).
  - unfold first_tag_id in *. now rewrite <- Ht.
Qed.

Lemma seeded_again e s1 s2 uid d5 d6 d7 d8 uid' :
  seeded s1 uid -> seeding e s1 s2 d5 d6 d7 d8 uid' ->
  users s2 = users s1 /\ tags s2 = tags s1 /\ note_tags s2 = note_tags s1 /\
  map strip (notes s2) = map strip (notes s1).
Proof.
  intros [Hu Ht Hn Hl]
         [_ _ (Au & An & At & Al) Su (_ & Un & Ut & Ul) St (_ & Tu & Tn & Tl)
          Sn (_ & Nu & Nt & Nl) Sl (_ & Lu & Lt & Ln)].
  destruct (ensure_seed_user_step _ _ _ _ _ Su) as (_ & Hfirst & _ & Hsame).
  assert (Hu6 : users d6 = users s1).
  { rewrite <- Au. apply Hsame. apply first_user_id_has with (uid := uid).
    unfold first_user_id in *. now rewrite Au. }
  assert (Huid : uid' = uid).
  { unfold first_user_id in *. rewrite Hu6 in Hfirst. congruence. }
  subst uid'.
  destruct (seed_tags_step _ _ _ _ St) as (_ & _ & Hsame7).
  assert (Ht7 : tags d7 = tags s1).
  { rewrite <- Ut. apply Hsame7. intros n Hin. unfold has_tag. rewrite Ut.
    now apply Ht. }
  assert (Hn8 : map strip (notes d8) = map strip (notes s1)).
  { rewrite <- Tn. apply (upserted_strip _ _ _ _ _ _ Sn). intros x Hx.
    apply (seeded_note_notes uid x s1 d7 Tn). now apply Hn. }
  destruct (seed_note_tags_step _ _ _ _ Sl) as (_ & _ & _ & Hnoop).
  assert (Hs2 : s2 = d8).
  { apply Hnoop. apply (linked_in_strip mappings s1 d8); auto; congruence. }
  subst s2. repeat split; congruence.
Qed.

(** The upsert of a note that is already there as the script writes it
    sets its update time and nothing else. *)
Lemma touch_seeded now t c uid a r :
  (n_title r = t -> n_content r = c /\ n_user_id r = Some uid /\ n_is_archived r = a) ->
  touch_note now t c uid a r
  = if String.eqb (n_title r) t then set_updated_at now r else r.
Proof.
  intros H. unfold touch_note, set_updated_at.
  destruct (String.eqb_spec (n_title r) t) as [Ht|]; [|reflexivity].
  destruct (H Ht) as (-> & -> & ->). reflexivity.
Qed.

Lemma restamp_other clk k l r :
  ~ In (n_title r) (map (fun x => fst (fst x)) l) -> restamp clk k l r = r.
Proof.
  revert k. induction l as [|[[t c] a] l IH]; intros k Hn; cbn; [reflexivity|].
  cbn in Hn. destruct (String.eqb_spec (n_title r) t) as [Ht|_].
  - exfalso. apply Hn. left. now symmetry.
  - apply IH. tauto.
Qed.

Lemma upserted_restamp e uid k l d d' :
  upserted e uid k l d d' ->
  NoDup (map (fun x => fst (fst x)) l) ->
  (forall x, In x l -> seeded_note uid x d) ->
  notes d' = map (restamp (clock e) k l) (notes d).
Proof.
  induction 1 as [|k t c a l fk d d1 d' Hu _ IH]; intros Hnd Hall.
  - cbn. now rewrite map_id.
  - cbn in Hnd. apply NoDup_cons_iff in Hnd. destruct Hnd as [Hnot Hnd].
    assert (H1 : map strip (notes d1) = map strip (notes d))
      by (eapply upsert_seeded_strip; [exact Hu | apply Hall; now left]).
    rewrite IH; [|exact Hnd|].
    2:{ intros x Hx. apply (seeded_note_strip uid x d d1 H1). apply Hall. now right. }
    destruct (Hall (t, c, a) (or_introl eq_refl)) as [Hn Hr].
    apply upsert_note_spec in Hu.
    destruct Hu as (_ & [[_ Hd]|[Hn' _]]); [|congruence].
    rewrite Hd, map_map. apply map_ext_in. intros r Hin.
    rewrite touch_seeded by (intros Ht; now apply Hr). cbn [restamp].
    destruct (String.eqb_spec (n_title r) t) as [Ht|]; [|reflexivity].
    apply restamp_other. cbn. now rewrite Ht.
Qed.

(** On a seeded store the second run's upserts set the update time of the
    seed notes, each to the time of its own upsert, and the second run
    rewrites the four app_info rows of the script. *)
Lemma seeded_again_rows e s1 s2 uid d5 d6 d7 d8 uid' :
  seeded s1 uid -> seeding e s1 s2 d5 d6 d7 d8 uid' ->
  notes s2 = map (restamp (clock e) 24 seed_notes) (notes s1) /\
  app_info_reseeded e 14 s1 s2.
Proof.
  intros Hsd Sg.
  destruct (seeded_again _ _ _ _ _ _ _ _ _ Hsd Sg) as (Hu2 & _).
  destruct Hsd as [Hu Ht Hn Hl].
  destruct Sg as [_ Ap (Au & An & At & Al) Su (_ & Un & Ut & Ul) St (A7 & Tu & Tn & Tl)
                  Sn (A8 & Nu & Nt & Nl) Sl (A2 & Lu & Lt & Ln)].
  assert (Huid : uid' = uid).
  { destruct (ensure_seed_user_step _ _ _ _ _ Su) as (_ & Hfirst & _ & Hsame).
    assert (Hu6 : users d6 = users s1).
    { rewrite <- Au. apply Hsame. apply first_user_id_has with (uid := uid).
      unfold first_user_id in *. now rewrite Au. }
    unfold first_user_id in *. rewrite Hu6 in Hfirst. congruence. }
  subst uid'. split.
  - rewrite Ln, <- Tn. apply (upserted_restamp _ _ _ _ _ _ Sn seed_titles_NoDup).
    intros x Hx. apply (seeded_note_notes uid x s1 d7 Tn). now apply Hn.
  - unfold app_info_reseeded in *. rewrite A2. exact Ap.
Qed.

Lemma filter_idem {A} (f : A -> bool) l : filter f (filter f l) = filter f l.
Proof.
  rewrite filter_twice. apply filter_ext. intros x. now destruct (f x).
Qed.

(** ** A run that commits met no fault *)

Lemma agree_refl {A} (m : M A) : agree m m.
Proof. intros w a w' o H. exact H. Qed.

Lemma agree_bind {A B} (m m' : M A) (f f' : A -> M B) :
  agree m m' -> (forall a, agree (f a) (f' a)) -> agree (bind m f) (bind m' f').
Proof.
  intros Hm Hf w b w' o H. apply bind_ok in H.
  destruct H as (a & w1 & o1 & o2 & H1 & H2 & ->).
  unfold bind. rewrite (Hm _ _ _ _ H1), (Hf _ _ _ _ _ H2). reflexivity.
Qed.

Lemma agree_for_each {X} (l : list X) (b b' : X -> M unit) :
  (forall x, agree (b x) (b' x)) -> agree (for_each l b) (for_each l b').
Proof.
  intros H. induction l as [|x l IH]; cbn; [apply agree_refl|].
  apply agree_bind; auto.
Qed.

Lemma agree_execute e q : agree (execute e q) (execute (no_faults e) q).
Proof.
  intros w a w' o. unfold execute. cbn [fault clock no_faults].
  destruct (fault e (pc w)); [discriminate | auto].
Qed.

Lemma agree_commit e : agree (commit e) (commit (no_faults e)).
Proof.
  intros w a w' o. unfold commit. cbn [fault no_faults].
  destruct (fault e (pc w)); [discriminate | auto].
Qed.

Ltac agree_step :=
  lazymatch goal with
  | |- agree (bind _ _) (bind _ _) => apply agree_bind; [| intros ?]
  | |- agree (for_each _ _) (for_each _ _) => apply agree_for_each; intros ?
  | |- agree (execute _ _) (execute _ _) => apply agree_execute
  | |- agree (commit _) (commit _) => apply agree_commit
  | |- agree (match ?x with _ => _ end) _ => destruct x
  | |- agree _ _ => apply agree_refl
  end.

Lemma provision_no_faults e : agree (provision e) (provision (no_faults e)).
Proof.
  unfold provision, _enable_foreign_keys, _create_core_tables, _create_notes_schema,
    _ensure_notes_title_unique_index, _upsert_app_info, _ensure_seed_user,
    _seed_tags, _seed_notes, _seed_note_tags.
  repeat agree_step.
Qed.

Lemma committed_no_faults e s s' : committed e s s' -> committed (no_faults e) s s'.
Proof.
  intros (w & o & H & ->). exists w, o. split; [|reflexivity].
  now apply provision_no_faults.
Qed.

(** The store that one run leaves from the empty store: counts of rows and
    the version entry. *)
Lemma committed_fresh e s' :
  committed e fresh s' ->
  List.length (notes s') = 4%nat /\ List.length (tags s') = 4%nat /\
  List.length (note_tags s') = 6%nat /\
  filter (fun r => String.eqb (ai_key r) "version") (app_info s')
  = [app_row 2 "version" "0.2.0" (clock e 15)].
Proof.
  intros H. apply committed_no_faults in H. destruct H as (w & o & H & ->).
  destruct e as [clk flt ex pr cc cwd cw pe cm wh]. unfold no_faults in H. cbn in H.
  vm_compute in H. injection H as <- _. cbn. repeat split.
Qed.

(** * The claims *)

(** ** C1: a second run *)

(** C1, counterexample.  Run twice from the empty store, both runs ending
    well: the second run leaves other app_info rows than the first (new ids
    5 to 8, new creation times), even under an unchanged clock, and other
    notes (new update times).  So the second run is not a no-op on the
    content of every table. *)
Lemma C1_second_run_changes_rows :
  fst (fst (run (calm t0) fresh)) = Ok tt /\
  fst (fst (run (calm t1) once)) = Ok tt /\
  app_info twice <> app_info once /\
  notes twice <> notes once /\
  map ai_id (app_info (after (calm t0) once)) <> map ai_id (app_info once).
Proof.
  repeat split; try (vm_compute; reflexivity);
    intros H; vm_compute in H; discriminate H.
Qed.

(** C1, amended.  When two runs in sequence commit, the second leaves the
    users, the tags and the associations exactly as the first left them.
    The notes are the notes the first run left, in the same order, each
    seed note with its updated_at set to the time of the second run's
    upsert of it and every other note as it was, updated_at included
    ([restamp]); so the notes agree up to their update time.  app_info
    keeps its other rows and holds, after them, four new rows for the four
    keys of the script, with ids above every id the table held and the
    creation times of the second run ([app_info_reseeded]); so it has the
    same keys and values in the same order.  Every table keeps its row
    count. *)
Theorem C1_second_run_keeps e1 e2 s s1 s2 :
  committed e1 s s1 -> committed e2 s1 s2 ->
  users s2 = users s1 /\ tags s2 = tags s1 /\ note_tags s2 = note_tags s1 /\
  map strip (notes s2) = map strip (notes s1) /\
  map (fun r => (ai_key r, ai_value r)) (app_info s2)
  = map (fun r => (ai_key r, ai_value r)) (app_info s1) /\
  List.length (notes s2) = List.length (notes s1) /\
  List.length (app_info s2) = List.length (app_info s1) /\
  notes s2 = map (restamp (clock e2) 24 seed_notes) (notes s1) /\
  app_info_reseeded e2 14 s1 s2.
Proof.
  intros H1 H2.
  apply committed_seeding in H1, H2.
  destruct H1 as (d5 & d6 & d7 & d8 & uid & S1).
  destruct H2 as (d5' & d6' & d7' & d8' & uid' & S2).
  pose proof (seeding_seeded _ _ _ _ _ _ _ _ S1) as Hseeded.
  destruct (seeded_again _ _ _ _ _ _ _ _ _ Hseeded S2) as (Hu & Ht & Hl & Hn).
  destruct (seeded_again_rows _ _ _ _ _ _ _ _ _ Hseeded S2) as (Hrows & Happ).
  assert (Ha : map (fun r => (ai_key r, ai_value r)) (app_info s2)
               = map (fun r => (ai_key r, ai_value r)) (app_info s1)).
  { destruct S1 as [_ A1 _ _ _ _ _ _ _ _ (L1 & _)].
    destruct S2 as [_ A2 _ _ _ _ _ _ _ _ (L2 & _)].
    rewrite L1, L2.
    destruct A2 as (j1 & j2 & j3 & j4 & E2 & _).
    destruct A1 as (i1 & i2 & i3 & i4 & E1 & _).
    rewrite L1 in E2. rewrite E2, E1, filter_app, filter_idem.
    match goal with
    | |- context [filter non_seed_key (?a :: ?l)] =>
        replace (filter non_seed_key (a :: l)) with (@nil app_info_row) by reflexivity
    end.
    rewrite app_nil_r, !map_app. reflexivity. }
  repeat split; try assumption.
  - rewrite <- (length_map strip (notes s2)), Hn. apply length_map.
  - rewrite <- (length_map (fun r => (ai_key r, ai_value r)) (app_info s2)), Ha.
    apply length_map.
Qed.

Lemma committed_once : committed (calm t0) fresh once.
Proof.
  unfold committed. eexists. eexists.
  split; [vm_compute; reflexivity | vm_compute; reflexivity].
Defined.

Lemma committed_twice : committed (calm t1) once twice.
Proof.
  unfold committed. eexists. eexists.
  split; [vm_compute; reflexivity | vm_compute; reflexivity].
Defined.

(** C1, witness: the two runs from the empty store. *)
Lemma C1_second_run_keeps_witness :
  users twice = users once /\ tags twice = tags once /\
  note_tags twice = note_tags once /\
  map strip (notes twice) = map strip (notes once) /\
  map (fun r => (ai_key r, ai_value r)) (app_info twice)
  = map (fun r => (ai_key r, ai_value r)) (app_info once) /\
  List.length (notes twice) = List.length (notes once) /\
  List.length (app_info twice) = List.length (app_info once) /\
  notes twice = map (restamp (clock (calm t1)) 24 seed_notes) (notes once) /\
  app_info_reseeded (calm t1) 14 once twice.
Proof.
  exact (C1_second_run_keeps (calm t0) (calm t1) fresh once twice
           committed_once committed_twice).
Defined.

(** ** C2: the seed notes *)

Lemma count_one t l :
  NoDup (map n_title l) -> In t (map n_title l) ->
  List.length (filter (fun r => String.eqb (n_title r) t) l) = 1%nat.
Proof.
  induction l as [|r l IH]; cbn; intros Hnd Hin; [contradiction|].
  apply NoDup_cons_iff in Hnd. destruct Hnd as [Hnot Hnd].
  destruct (String.eqb_spec (n_title r) t) as [Heq|Hne].
  - cbn. f_equal. rewrite Heq in Hnot.
    assert (Hnone : forall l', ~ In t (map n_title l') ->
              filter (fun r => String.eqb (n_title r) t) l' = []).
    { induction l' as [|r' l' IH']; cbn; intros Hn; [reflexivity|].
      destruct (String.eqb_spec (n_title r') t); [tauto | apply IH'; tauto]. }
    now rewrite Hnone.
  - destruct Hin as [Hin|Hin]; [contradiction | now apply IH].
Qed.

(** C2.  Let the titles of the store be distinct wherever its unique index
    on notes.title exists (which SQLite guarantees).  After a run that
    commits, each seed note title is borne by exactly one note; and a note
    that bore the title of the [i]-th seed note before the run is still
    there under the same id and creation time, with the seed content and
    archive flag and with the time of the run's statement 24 + i as its
    update time. *)
Theorem C2_seed_note_once_and_updated e s s' i t c a :
  (has_obj Index "uq_notes_title" s = true -> NoDup (map n_title (notes s))) ->
  committed e s s' ->
  nth_error seed_notes i = Some (t, c, a) ->
  List.length (filter (fun r => String.eqb (n_title r) t) (notes s')) = 1%nat /\
  forall r, In r (notes s) -> n_title r = t ->
    exists r', In r' (notes s') /\ n_id r' = n_id r /\ n_title r' = t /\
               n_content r' = c /\ n_is_archived r' = a /\
               n_updated_at r' = clock e (24 + i) /\
               n_created_at r' = n_created_at r.
Proof.
  intros Hwf Hc Hi. apply committed_seeding in Hc.
  destruct Hc as (d5 & d6 & d7 & d8 & uid & S).
  destruct S as [Ht _ _ _ _ _ (_ & _ & T7 & _) Hup _ _ (_ & _ & _ & L8)].
  assert (Hnd : NoDup (map n_title (notes s)))
    by (destruct Ht as [Hx|Hx]; [auto | now apply distinct_NoDup]).
  rewrite <- T7 in Hnd. rewrite L8. split.
  - apply count_one; [exact (upserted_NoDup _ _ _ _ _ _ Hup Hnd)|].
    apply has_note_In.
    apply (upserted_seeded _ _ _ _ _ _ Hup seed_titles_NoDup (t, c, a)).
    exact (nth_error_In _ _ Hi).
  - intros r Hr Htitle. rewrite <- T7 in Hr.
    pose proof (upserted_touch _ _ _ _ _ _ _ _ _ _ r Hup seed_titles_NoDup Hi Hr Htitle)
      as Hin.
    exists (touch_note (clock e (24 + i)) t c uid a r). split; [exact Hin|].
    unfold touch_note. rewrite (proj2 (String.eqb_eq _ _) Htitle). cbn.
    repeat split; auto.
Qed.

Lemma once_titles_distinct :
  has_obj Index "uq_notes_title" once = true -> NoDup (map n_title (notes once)).
Proof. intros _. apply distinct_NoDup. vm_compute. reflexivity. Defined.

(** C2, witness: the second run, a day later, on the store of the first;
    the welcome note, of id 1, is rewritten at the time of statement 24. *)
Lemma C2_seed_note_once_and_updated_witness :
  List.length (filter (fun r => String.eqb (n_title r) "Welcome to Notemaster")
                      (notes twice)) = 1%nat /\
  forall r, In r (notes once) -> n_title r = "Welcome to Notemaster" ->
    exists r', In r' (notes twice) /\ n_id r' = n_id r /\
               n_title r' = "Welcome to Notemaster" /\
               n_content r' = snd (fst (hd (EmptyString, EmptyString, 0) seed_notes)) /\
               n_is_archived r' = 0 /\
               n_updated_at r' = clock (calm t1) (24 + 0) /\
               n_created_at r' = n_created_at r.
Proof.
  exact (C2_seed_note_once_and_updated (calm t1) once twice 0 _ _ _
           once_titles_distinct committed_twice eq_refl).
Defined.

(** ** C3: one run on the empty store *)

(** C3.  A run on the empty store that commits leaves 4 notes, 4 tags and
    6 associations, which is at least 5, and one app_info row of key
    "version", whose value is "0.2.0". *)
Theorem C3_fresh_store_counts e s' :
  committed e fresh s' ->
  List.length (notes s') = 4%nat /\ List.length (tags s') = 4%nat /\
  (5 <= List.length (note_tags s'))%nat /\
  exists r, filter (fun r => String.eqb (ai_key r) "version") (app_info s') = [r] /\
            ai_value r = Some "0.2.0".
Proof.
  intros H. apply committed_fresh in H. destruct H as (Hn & Ht & Hl & Hv).
  repeat split; auto; [lia|]. eexists. split; [exact Hv | reflexivity].
Qed.

(** C3, witness: the run on the empty store. *)
Lemma C3_fresh_store_counts_witness :
  List.length (notes once) = 4%nat /\ List.length (tags once) = 4%nat /\
  (5 <= List.length (note_tags once))%nat /\
  exists r, filter (fun r => String.eqb (ai_key r) "version") (app_info once) = [r] /\
            ai_value r = Some "0.2.0".
Proof. exact (C3_fresh_store_counts (calm t0) once committed_once). Defined.

(** ** C4: the seed user *)

(** When the user "demo" is there, the function returns the id of the first
    such user and leaves the users as they are; it never adds a row but the
    one of "demo". *)
Lemma ensure_seed_user_present e k d uid d' :
  has_user "demo" d = true -> step (_ensure_seed_user e) k d uid d' ->
  users d' = users d /\ first_user_id "demo" d = Some uid.
Proof.
  intros Hd H. destruct (ensure_seed_user_step _ _ _ _ _ H) as (_ & Hf & _ & Hsame).
  specialize (Hsame Hd). split; [exact Hsame|].
  unfold first_user_id in *. now rewrite <- Hsame.
Qed.

(** C4, the code at the failing input.  The store holds one user, "alice",
    whose email is the seed email.  INSERT OR IGNORE skips the insert on
    the email conflict, the SELECT by username finds no row, and row[0]
    raises TypeError: no id is returned, and the run as a whole aborts. *)
Theorem C4_email_taken_raises :
  fst (fst (_ensure_seed_user (calm t0) (boot email_taken))) = Raise TypeError /\
  fst (fst (run (calm t0) email_taken)) = Raise TypeError /\
  users (after (calm t0) email_taken) = users email_taken.
Proof. repeat split; vm_compute; reflexivity. Qed.

(** ** C5: the seed tags *)

Lemma has_tag_recolor n name color d : has_tag n (recolor name color d) = has_tag n d.
Proof.
  unfold has_tag, recolor. cbn. induction (tags d) as [|r l IH]; cbn; [reflexivity|].
  rewrite IH. now destruct (String.eqb (t_name r) name).
Qed.

(** C5.  A run that commits leaves the tags it found as they were, in
    place, and adds after them only tags of seed names that were not there,
    one of each.  Every seed tag is then there; and if a color is edited
    afterwards, any further run, whatever its outcome, leaves the tags
    exactly as edited. *)
Theorem C5_tags_insert_only e1 e2 s s1 name color :
  committed e1 s s1 ->
  (exists T, tags s1 = tags s ++ T /\ NoDup (map t_name T) /\
             forall t, In t T -> In (t_name t) seed_names /\
                                 has_tag (t_name t) s = false) /\
  (forall n, In n seed_names -> has_tag n s1 = true) /\
  tags (after e2 (recolor name color s1)) = tags (recolor name color s1).
Proof.
  intros Hc.
  pose proof (committed_keeps e1 false (frame s) s s1 (frame_stable s) (frame_refl s) Hc)
    as [_ _ Ht _ _ _].
  split; [exact Ht|].
  apply committed_seeding in Hc. destruct Hc as (d5 & d6 & d7 & d8 & uid & S).
  destruct (seeding_seeded _ _ _ _ _ _ _ _ S) as [_ Htags _ _].
  split; [exact Htags|].
  destruct (after_frame e2 (recolor name color s1)) as [_ _ (T & HT & _ & Hnew) _ _ _].
  destruct T as [|t T]; [now rewrite app_nil_r in HT|].
  destruct (Hnew t (or_introl eq_refl)) as [Hin Hnot].
  change (has_tag (t_name t) (recolor name color s1) = false) in Hnot.
  rewrite has_tag_recolor, (Htags _ Hin) in Hnot. discriminate Hnot.
Qed.

(** C5, witness: the tag "work" is made black between two runs from the
    empty store. *)
Lemma C5_tags_insert_only_witness :
  (exists T, tags once = tags fresh ++ T /\ NoDup (map t_name T) /\
             forall t, In t T -> In (t_name t) seed_names /\
                                 has_tag (t_name t) fresh = false) /\
  (forall n, In n seed_names -> has_tag n once = true) /\
  tags (after (calm t1) (recolor "work" "#000000" once))
  = tags (recolor "work" "#000000" once).
Proof.
  exact (C5_tags_insert_only (calm t0) (calm t1) fresh once "work" "#000000"
           committed_once).
Defined.

(** ** C6: referential integrity *)

(** C6.  From a store without dangling associations (the empty store is
    one), every store that runs reach, in any number and whatever the
    outcome of each, is without dangling associations: each row of
    note_tags bears the id of a note and the id of a tag. *)
Theorem C6_no_dangling_associations s0 s :
  ref_integrity s0 -> reachable s0 s -> ref_integrity s.
Proof.
  intros H0 Hr. induction Hr as [|e s Hr IH]; [exact H0|].
  exact (after_keeps e true ref_integrity s ref_integrity_stable IH).
Qed.

Lemma ref_integrity_fresh : ref_integrity fresh.
Proof. intros r []. Defined.

(** C6, witness: two runs from the empty store. *)
Lemma C6_no_dangling_associations_witness : ref_integrity twice.
Proof.
  exact (C6_no_dangling_associations fresh twice ref_integrity_fresh
           (reach_run fresh (calm t1) once
              (reach_run fresh (calm t0) fresh (reach_start fresh)))).
Defined.

(** ** C7: a failure before the commit *)




(** ** C8: the descriptor files *)


(** C8, the code at the failing input.  The directory db_visualizer is
    absent and os.makedirs fails: the exception is raised outside the two
    try blocks, so the run ends with OSError, after the commit (the store
    is the one of a run without failure).  When only the two files cannot
    be written, the run ends well and prints the two warnings. *)
Theorem C8_makedirs_failure_ends_the_run :
  fst (fst (run no_mkdir fresh)) = Raise OSError /\
  after no_mkdir fresh = once /\
  fst (fst (run no_write fresh)) = Ok tt /\
  after no_write fresh = once /\
  In (Print (LineExn "Warning: Could not save connection info: " OSError))
     (snd (run no_write fresh)) /\
  In (Print (LineExn "Warning: Could not save environment variables: " OSError))
     (snd (run no_write fresh)).
Proof.
  split; [vm_compute; reflexivity|].
  split; [vm_compute; reflexivity|].
  split; [vm_compute; reflexivity|].
  split; [vm_compute; reflexivity|].
  split; vm_compute; tauto.
Qed.

(** ** C9: what a run leaves alone *)


(** ** C10: the app metadata *)

Lemma filter_none {A} (f : A -> bool) l :
  (forall x, In x l -> f x = false) -> filter f l = [].
Proof.
  induction l as [|x l IH]; cbn; intros H; [reflexivity|].
  rewrite (H x (or_introl eq_refl)). apply IH. intros y Hy. apply H. now right.
Qed.

Lemma seed_key_filtered k v i r :
  nth_error seed_app_info i = Some (k, v) -> ai_key r = k -> non_seed_key r = false.
Proof.
  intros Hi Hk. apply nth_error_In in Hi. unfold non_seed_key. rewrite Hk.
  unfold seed_app_info in Hi. cbn in Hi.
  destruct Hi as [Hi|[Hi|[Hi|[Hi|[]]]]]; injection Hi as <- _; reflexivity.
Qed.

(** C10.  Let a run commit, and let the store hold, before the run, a row
    [r] of app_info whose key is the [i]-th seed key.  After the run [r] is
    gone, and the one row of that key holds the seed value, a greater id
    and, as its creation time, the time of the run's statement 14 + i. *)
Theorem C10_app_info_row_replaced e s s' i k v r :
  committed e s s' ->
  nth_error seed_app_info i = Some (k, v) ->
  In r (app_info s) -> ai_key r = k ->
  ~ In r (app_info s') /\
  exists r', filter (fun x => String.eqb (ai_key x) k) (app_info s') = [r'] /\
             ai_value r' = Some v /\
             ai_created_at r' = Some (clock e (14 + i)) /\
             ai_id r < ai_id r'.
Proof.
  intros Hc Hi Hr Hk. apply committed_seeding in Hc.
  destruct Hc as (d5 & d6 & d7 & d8 & uid & S).
  destruct S as [_ (i1 & i2 & i3 & i4 & Hrows & Hids & H12 & H23 & H34)
                   _ _ _ _ _ _ _ _ (L & _)].
  rewrite L, Hrows. specialize (Hids r Hr).
  pose proof (seed_key_filtered k v i r Hi Hk) as Hseed.
  split.
  - intros Hin. apply in_app_or in Hin. destruct Hin as [Hin|Hin].
    + apply filter_In in Hin. destruct Hin as [_ Hin]. congruence.
    + cbn in Hin.
      destruct Hin as [<-|[<-|[<-|[<-|[]]]]]; cbn in Hids; lia.
  - rewrite filter_app.
    rewrite (filter_none (fun x => String.eqb (ai_key x) k)
                         (filter non_seed_key (app_info s))).
    2:{ intros x Hx. apply filter_In in Hx. destruct Hx as [_ Hx].
        destruct (String.eqb_spec (ai_key x) k) as [Hxk|]; [|reflexivity].
        rewrite (seed_key_filtered k v i x Hi Hxk) in Hx. discriminate Hx. }
    destruct i as [|[|[|[|i]]]]; cbn in Hi; try (destruct i; discriminate Hi);
      injection Hi as <- <-; cbn; eexists; (split; [reflexivity|]);
      cbn; repeat split; lia.
Qed.

Lemma version_row_once :
  In (app_row 2 "version" "0.2.0" t0) (app_info once).
Proof. vm_compute. tauto. Defined.

(** C10, witness: the version row of a first run, of id 2, under a second
    run a day later. *)
Lemma C10_app_info_row_replaced_witness :
  ~ In (app_row 2 "version" "0.2.0" t0) (app_info twice) /\
  exists r', filter (fun x => String.eqb (ai_key x) "version") (app_info twice) = [r'] /\
             ai_value r' = Some "0.2.0" /\
             ai_created_at r' = Some (clock (calm t1) (14 + 1)) /\
             ai_id (app_row 2 "version" "0.2.0" t0) < ai_id r'.
Proof.
  exact (C10_app_info_row_replaced (calm t1) once twice 1 "version" "0.2.0"
           (app_row 2 "version" "0.2.0" t0) committed_twice eq_refl
           version_row_once eq_refl).
Defined.

(** * Further properties of the script *)

(** ** What every run keeps *)

Lemma NoDup_map_filter {A B} (f : A -> B) (p : A -> bool) l :
  NoDup (map f l) -> NoDup (map f (filter p l)).
Proof.
  induction l as [|x l IH]; cbn; intros H; [constructor|].
  apply NoDup_cons_iff in H. destruct H as [Hx Hl].
  destruct (p x); cbn; [|auto]. constructor; [|auto].
  intros Hin. apply Hx. apply in_map_iff in Hin. destruct Hin as [y [Hy Hin]].
  apply filter_In in Hin. apply in_map_iff. exists y. tauto.
Qed.

Lemma NoDup_snoc {A} (l : list A) x : NoDup l -> ~ In x l -> NoDup (l ++ [x]).
Proof.
  intros Hl Hx. apply NoDup_app; [exact Hl | repeat constructor; auto |].
  intros a Ha [<-|[]]. contradiction.
Qed.

Lemma not_in_by {A} (f : A -> bool) (key : A -> string) k l :
  (forall r, f r = String.eqb (key r) k) -> existsb f l = false ->
  ~ In k (map key l).
Proof.
  intros Hf Hn Hin. apply in_map_iff in Hin. destruct Hin as [r [Hk Hr]].
  pose proof (existsb_false_In _ _ _ Hn Hr) as H. rewrite Hf, Hk, String.eqb_refl in H.
  discriminate H.
Qed.

Lemma constraints_stable : stable false constraints.
Proof.
  intros q fk now d d' rows Hq _ (Ha & Hu & He & Ht & Hl & Hn) H.
  destruct (plain_ddl q) eqn:Hp.
  { destruct (exec_plain_ddl _ _ _ _ _ _ Hq Hp H)
      as [(R1 & R2 & R3 & R4 & R5 & _) Hx].
    unfold constraints. rewrite R1, R2, R3, R4, R5, Hx. repeat split; assumption. }
  destruct q; try discriminate Hp; exec_inv H.
  all: unfold constraints; cbn [app_info users notes tags note_tags with_app_info
                                with_users with_notes with_tags with_note_tags add_obj
                                with_objects].
  all: repeat (split; [try assumption|]); try assumption; try exact Hn;
    try (intros ?; apply Hn; first [reflexivity | assumption]).
  - (* the unique index is built: the titles were checked *)
    intros _. now apply distinct_NoDup.
  - (* REPLACE: the rows of the key are deleted first *)
    rewrite map_app. apply NoDup_snoc; [now apply NoDup_map_filter|].
    cbn. intros Hin. apply in_map_iff in Hin. destruct Hin as [r [Hk Hr]].
    apply filter_In in Hr. destruct Hr as [_ Hr].
    rewrite Hk, String.eqb_refl in Hr. discriminate Hr.
  - rewrite map_app. apply NoDup_snoc; [assumption|]. cbn.
    intros Hin. apply in_map_iff in Hin. destruct Hin as [r [Hk Hr]].
    match goal with Hx : existsb _ (users d) = false |- _ =>
      pose proof (existsb_false_In _ _ _ Hx Hr) as Hf end.
    cbn in Hf. rewrite Hk, String.eqb_refl in Hf. discriminate Hf.
  - rewrite map_app. apply NoDup_snoc; [assumption|]. cbn.
    intros Hin. apply in_map_iff in Hin. destruct Hin as [r [Hk Hr]].
    match goal with Hx : existsb _ (users d) = false |- _ =>
      pose proof (existsb_false_In _ _ _ Hx Hr) as Hf end.
    cbn in Hf. rewrite Hk, String.eqb_refl, orb_true_r in Hf. discriminate Hf.
  - rewrite map_app. apply NoDup_snoc; [assumption|]. cbn.
    eapply not_in_by; [|eassumption]. reflexivity.
  - intros Hx. rewrite map_touch_titles. exact (Hn Hx).
  - intros Hx. rewrite map_app. apply NoDup_snoc; [exact (Hn Hx)|]. cbn.
    eapply not_in_by; [|eassumption]. reflexivity.
  - rewrite map_app. apply NoDup_snoc; [assumption|]. cbn.
    intros Hin. apply in_map_iff in Hin. destruct Hin as [r [Hk Hr]].
    match goal with Hx : existsb _ (note_tags d) = false |- _ =>
      pose proof (existsb_false_In _ _ _ Hx Hr) as Hf end.
    cbn in Hf. injection Hk as Hk1 Hk2. rewrite Hk1, Hk2, !Z.eqb_refl in Hf.
    discriminate Hf.
Qed.

(** X1.  The UNIQUE constraints of the schema hold in every store that
    runs reach from a store in which they hold, whatever the number of runs
    and the outcome of each: no two app_info rows share a key, no two users
    a username or an email, no two tags a name, no two associations their
    pair of ids, and, where the unique index on notes.title exists, no two
    notes a title. *)
Theorem X1_unique_constraints_kept s0 s :
  constraints s0 -> reachable s0 s -> constraints s.
Proof.
  intros H0 Hr. induction Hr as [|e s Hr IH]; [exact H0|].
  exact (after_keeps e false constraints s constraints_stable IH).
Qed.

Lemma constraints_fresh : constraints fresh.
Proof. unfold constraints. cbn. repeat split; try constructor. Defined.

Lemma reachable_twice : reachable fresh twice.
Proof.
  exact (reach_run fresh (calm t1) once
           (reach_run fresh (calm t0) fresh (reach_start fresh))).
Defined.

(** X1, witness: two runs from the empty store. *)
Lemma X1_unique_constraints_kept_witness : constraints twice.
Proof.
  exact (X1_unique_constraints_kept fresh twice constraints_fresh reachable_twice).
Defined.

(** ** Rowids *)

Lemma rowids_add {A} (f : A -> Z) l x seq i :
  NoDup (map f l) -> (forall j, In j (map f l) -> j <= seq) ->
  new_rowid (map f l) seq = Some i -> f x = i ->
  NoDup (map f (l ++ [x])) /\ forall j, In j (map f (l ++ [x])) -> j <= i.
Proof.
  intros Hnd Hb Hn Hx. apply new_rowid_above in Hn. destruct Hn as [Hlt Hs].
  rewrite map_app. cbn. split.
  - apply NoDup_snoc; [exact Hnd|]. intros Hin. apply Hlt in Hin. lia.
  - intros j Hj. apply in_app_or in Hj. destruct Hj as [Hj|[<-|[]]]; [|lia].
    apply Hlt in Hj. lia.
Qed.

Lemma rowids_keep {A} (f : A -> Z) (l : list A) seq i :
  new_rowid (map f l) seq = Some i -> forall j, In j (map f l) -> j <= i.
Proof.
  intros Hn j Hj. apply new_rowid_above in Hn. destruct Hn as [Hlt _].
  apply Hlt in Hj. lia.
Qed.

Lemma in_map_filter {A B} (f : A -> B) (p : A -> bool) l y :
  In y (map f (filter p l)) -> In y (map f l).
Proof.
  intros H. apply in_map_iff in H. destruct H as [x [Hx Hin]].
  apply filter_In in Hin. apply in_map_iff. exists x. tauto.
Qed.

Lemma rowids_stable s0 :
  stable false (fun d => rowids_sound d /\ counters_from s0 d).
Proof.
  intros q fk now d d' rows Hq _ [Hs Hc] H.
  destruct (is_dml q) eqn:Hd.
  2:{ destruct (exec_not_dml _ _ _ _ _ _ Hd H)
        as [(R1 & R2 & R3 & R4 & _ & S1 & S2 & S3 & S4) _].
      unfold rowids_sound, counters_from in *.
      rewrite R1, R2, R3, R4, S1, S2, S3, S4. split; assumption. }
  destruct Hs as ((Ha1 & Ha2) & (Hu1 & Hu2) & (Hn1 & Hn2) & (Ht1 & Ht2)).
  destruct Hc as (Ca & Cu & Cn & Ct).
  destruct q; try discriminate Hd; exec_inv H;
    unfold rowids_sound, counters_from;
    cbn [app_info users notes tags note_tags seq_app_info seq_users seq_notes seq_tags
         with_app_info with_users with_notes with_tags with_note_tags];
    repeat match goal with
           | Hn : new_rowid _ _ = Some _ |- _ =>
               pose proof (rowids_keep _ _ _ _ Hn);
               pose proof (proj2 (new_rowid_above _ _ _ Hn));
               revert Hn
           end; intros;
    repeat split; try assumption; try lia.
  - (* REPLACE *)
    rewrite map_app. apply NoDup_snoc; [now apply NoDup_map_filter|].
    cbn. intros Hin. apply in_map_filter in Hin.
    match goal with Hn : new_rowid _ _ = Some _ |- _ =>
      apply new_rowid_above in Hn; destruct Hn as [Hlt _]; apply Hlt in Hin; lia end.
  - intros j Hj. rewrite map_app in Hj. apply in_app_or in Hj.
    destruct Hj as [Hj|[<-|[]]]; [|cbn; lia]. apply in_map_filter in Hj.
    apply Ha2 in Hj. lia.
  - eapply proj1, (rowids_add u_id); [exact Hu1 | exact Hu2 | eassumption | reflexivity].
  - eapply proj2, (rowids_add u_id); [exact Hu1 | exact Hu2 | eassumption | reflexivity].
  - eapply proj1, (rowids_add t_id); [exact Ht1 | exact Ht2 | eassumption | reflexivity].
  - eapply proj2, (rowids_add t_id); [exact Ht1 | exact Ht2 | eassumption | reflexivity].
  - rewrite map_map.
    erewrite map_ext; [exact Hn1|]. intros r. apply touch_note_id.
  - intros j Hj. rewrite map_map in Hj.
    erewrite map_ext in Hj; [|intros r; apply touch_note_id]. apply Hn2 in Hj. lia.
  - eapply proj1, (rowids_add n_id); [exact Hn1 | exact Hn2 | eassumption | reflexivity].
  - eapply proj2, (rowids_add n_id); [exact Hn1 | exact Hn2 | eassumption | reflexivity].
Qed.

Lemma new_ids_stable s0 :
  stable false (fun d => counters_from s0 d /\ new_ids_above s0 d).
Proof.
  intros q fk now d d' rows Hq _ [Hc Hs] H.
  destruct (is_dml q) eqn:Hd.
  2:{ destruct (exec_not_dml _ _ _ _ _ _ Hd H)
        as [(R1 & R2 & R3 & R4 & _ & S1 & S2 & S3 & S4) _].
      unfold new_ids_above, counters_from in *.
      rewrite R1, R2, R3, R4, S1, S2, S3, S4. split; assumption. }
  destruct Hs as (Ha & Hu & Hn & Ht).
  destruct Hc as (Ca & Cu & Cn & Ct).
  destruct q; try discriminate Hd; exec_inv H;
    unfold new_ids_above, counters_from;
    cbn [app_info users notes tags note_tags seq_app_info seq_users seq_notes seq_tags
         with_app_info with_users with_notes with_tags with_note_tags];
    repeat match goal with
           | Hn : new_rowid _ _ = Some _ |- _ =>
               apply new_rowid_above in Hn; destruct Hn as [_ ?]
           end;
    repeat split; try assumption; try lia.
  all: intros r Hr.
  - apply in_app_or in Hr. destruct Hr as [Hr|[<-|[]]]; [|right; cbn; lia].
    apply filter_In in Hr. apply Ha. tauto.
  - apply in_app_or in Hr. destruct Hr as [Hr|[<-|[]]]; [auto | right; cbn; lia].
  - apply in_app_or in Hr. destruct Hr as [Hr|[<-|[]]]; [auto | right; cbn; lia].
  - apply in_map_iff in Hr. destruct Hr as [r1 [<- Hr]].
    rewrite touch_note_id. auto.
  - apply in_app_or in Hr. destruct Hr as [Hr|[<-|[]]]; [auto | right; cbn; lia].
Qed.

Lemma stable_and b (R1 R2 : db -> Prop) :
  stable b R1 -> stable b R2 -> stable b (fun d => R1 d /\ R2 d).
Proof.
  intros H1 H2 q fk now d d' rows Hq Hfk [Hd1 Hd2] H. split.
  - exact (H1 q fk now d d' rows Hq Hfk Hd1 H).
  - exact (H2 q fk now d d' rows Hq Hfk Hd2 H).
Qed.

Lemma new_ids_refl s : counters_from s s /\ new_ids_above s s.
Proof.
  unfold counters_from, new_ids_above. repeat split; try lia; auto.
  intros r Hr. left. now exists r.
Qed.

(** X2.  In every store that runs reach from a store [s0] whose rowids are
    sound, the rowids of each AUTOINCREMENT table are distinct and bounded
    by the table's counter, no counter is lower than in [s0], and every row
    that was not in [s0] bears an id above the counter that [s0] held for
    its table: a run never reuses an id. *)
Theorem X2_rowids_never_reused s0 s :
  rowids_sound s0 -> reachable s0 s ->
  rowids_sound s /\ counters_from s0 s /\ new_ids_above s0 s.
Proof.
  intros H0 Hr.
  assert (H : (rowids_sound s /\ counters_from s0 s)
              /\ (counters_from s0 s /\ new_ids_above s0 s)).
  { induction Hr as [|e s Hr IH].
    - split; [split; [exact H0 | apply new_ids_refl] | apply new_ids_refl].
    - exact (after_keeps e false _ s
               (stable_and false _ _ (rowids_stable s0) (new_ids_stable s0)) IH). }
  tauto.
Qed.

Lemma rowids_sound_fresh : rowids_sound fresh.
Proof. unfold rowids_sound. cbn. repeat split; try constructor; contradiction. Defined.

(** X2, witness: two runs from the empty store. *)
Lemma X2_rowids_never_reused_witness :
  rowids_sound twice /\ counters_from fresh twice /\ new_ids_above fresh twice.
Proof.
  exact (X2_rowids_never_reused fresh twice rowids_sound_fresh reachable_twice).
Defined.

(** ** The owners of the notes *)

Lemma owner_integrity_stable : stable true owner_integrity.
Proof.
  intros q fk now d d' rows Hq Hfk Hd H. rewrite (Hfk eq_refl) in H.
  destruct q; exec_inv H; try exact Hd.
  all: intros n u Hn Hu; cbn in *.
  - (* a user is added *)
    destruct (Hd n u Hn Hu) as [r [Hr Hid]].
    exists r. split; [apply in_or_app; now left | exact Hid].
  - (* a note is rewritten: its owner was checked *)
    apply in_map_iff in Hn. destruct Hn as [n0 [<- Hn0]].
    unfold touch_note in Hu. destruct (String.eqb (n_title n0) title).
    + cbn in Hu. injection Hu as <-.
      match goal with
      | Hx : negb (existsb _ (users d)) = false |- _ =>
          apply negb_false_iff, existsb_In in Hx; destruct Hx as [r [Hr Hid]]
      end.
      exists r. split; [exact Hr | now apply Z.eqb_eq].
    + exact (Hd n0 u Hn0 Hu).
  - (* a note is added: its owner was checked *)
    apply in_app_or in Hn. destruct Hn as [Hn|[<-|[]]]; [exact (Hd n u Hn Hu)|].
    cbn in Hu. injection Hu as <-.
    match goal with
    | Hx : negb (existsb _ (users d)) = false |- _ =>
        apply negb_false_iff, existsb_In in Hx; destruct Hx as [r [Hr Hid]]
    end.
    exists r. split; [exact Hr | now apply Z.eqb_eq].
Qed.

(** X3.  From a store in which every note's owner is a user, every store
    that runs reach, in any number and whatever the outcome of each, is
    such a store: a note's user_id, when it is not NULL, is the id of a row
    of users. *)
Theorem X3_owners_are_users s0 s :
  owner_integrity s0 -> reachable s0 s -> owner_integrity s.
Proof.
  intros H0 Hr. induction Hr as [|e s Hr IH]; [exact H0|].
  exact (after_keeps e true owner_integrity s owner_integrity_stable IH).
Qed.

Lemma owner_integrity_fresh : owner_integrity fresh.
Proof. intros n u []. Defined.

(** X3, witness: two runs from the empty store. *)
Lemma X3_owners_are_users_witness : owner_integrity twice.
Proof.
  exact (X3_owners_are_users fresh twice owner_integrity_fresh reachable_twice).
Defined.

(** ** What a committed run leaves *)

Lemma first_of_existsb {A} (f : A -> bool) (g : A -> Z) l :
  existsb f l = true -> exists x, hd_error (map g (filter f l)) = Some x.
Proof.
  induction l as [|a l IH]; cbn; [discriminate|].
  destruct (f a); cbn; [eauto | exact IH].
Qed.






(** ** The seed user *)

Lemma first_user_id_new u l r :
  existsb (fun x => String.eqb (u_username x) u) l = false -> u_username r = u ->
  hd_error (map u_id (filter (fun x => String.eqb (u_username x) u) (l ++ [r])))
  = Some (u_id r).
Proof.
  intros Hn Hr. rewrite filter_app.
  rewrite (filter_none _ l).
  - cbn. now rewrite Hr, String.eqb_refl.
  - intros x Hx. exact (existsb_false_In _ _ _ Hn Hx).
Qed.

(** X6.  When [_ensure_seed_user] returns, the id it returns is the id of
    the first user named "demo"; the other tables are as they were; if
    "demo" was there the users are as they were; and if not, exactly one
    row was added after them: the user "demo" with the seed email and the
    time of the INSERT as creation time, under the returned id, which
    exceeds every id of users and the table's counter; no user held the
    seed email. *)
Theorem X6_ensure_seed_user_contract e k d uid d' :
  step (_ensure_seed_user e) k d uid d' ->
  first_user_id "demo" d' = Some uid /\
  app_info d' = app_info d /\ notes d' = notes d /\ tags d' = tags d /\
  note_tags d' = note_tags d /\
  if has_user "demo" d then users d' = users d
  else users d'
       = users d ++ [{| u_id := uid; u_username := "demo";
                        u_email := "demo@example.com";
                        u_created_at := Some (clock e k) |}]
       /\ (forall r, In r (users d) -> u_id r < uid /\ u_email r <> "demo@example.com")
       /\ seq_users d < uid.
Proof.
  intros Hs.
  destruct (ensure_seed_user_step _ _ _ _ _ Hs) as ((Sa & _ & Sn & St & Sl) & Hfirst & _ & Hsame).
  split; [exact Hfirst|].
  split; [apply Sa; discriminate|]. split; [apply Sn; discriminate|].
  split; [apply St; discriminate|]. split; [apply Sl; discriminate|].
  destruct (has_user "demo" d) eqn:Hd; [now apply Hsame|].
  destruct Hs as (w & w' & o & Hk & <- & H & <-).
  unfold _ensure_seed_user in H. bind_inv H.
  apply execute_ok in Hstep, Hstep0.
  destruct Hstep as (d1 & r1 & X1 & C1 & _ & _).
  destruct Hstep0 as (d2 & r2 & X2 & C2 & F2 & _).
  apply fetchone_ok in Hstep1. destruct Hstep1 as (Hrow & C3 & _).
  rewrite C1 in X2. rewrite F2 in Hrow. rewrite C2 in C3. rewrite Hk in X1.
  destruct a1 as [v|]; [|discriminate H]. cbn in H. injection H as <- <- _.
  rewrite C3 in *.
  assert (Hsel : d2 = d1 /\ first_user_id "demo" d1 = Some v).
  { exec_inv X2. split; [reflexivity|]. unfold first_user_id. now rewrite <- Hrow. }
  destruct Hsel as [-> Hv]. clear X2 Hrow.
  unfold has_user in Hd.
  exec_inv X1; cbn in Hv, Hfirst |- *.
  - (* the insert was ignored: no row of demo is found *)
    unfold first_user_id in Hv. cbn in Hv.
    rewrite (filter_none _ (users (conn_db w))) in Hv; [discriminate|].
    intros x Hx. exact (existsb_false_In _ _ _ Hd Hx).
  - unfold first_user_id in Hv. cbn [users with_users] in Hv.
    rewrite first_user_id_new in Hv; [|exact Hd|reflexivity]. cbn in Hv.
    injection Hv as <-.
    match goal with Hn : new_rowid _ _ = Some _ |- _ =>
      apply new_rowid_above in Hn; destruct Hn as [Hlt Hseq] end.
    split; [reflexivity|]. split; [|exact Hseq].
    intros r Hr. split; [apply Hlt; now apply in_map|].
    match goal with Hx : existsb (fun x => (_ || _)%bool) (users (conn_db w)) = false |- _ =>
      pose proof (existsb_false_In _ _ _ Hx Hr) as Hf end.
    cbn in Hf. apply orb_false_elim in Hf. destruct Hf as [_ Hf].
    now apply String.eqb_neq.
Qed.

Lemma step_ensure_seed_user_schema_only :
  step (_ensure_seed_user (calm t0)) 0 schema_only 1
       (conn_db (snd (fst (_ensure_seed_user (calm t0) (boot schema_only))))).
Proof.
  exists (boot schema_only). eexists. eexists.
  split; [reflexivity|]. split; [reflexivity|].
  split; [vm_compute; reflexivity | vm_compute; reflexivity].
Defined.

(** X6, witness: the call on the store that has the schema and no row. *)
Lemma X6_ensure_seed_user_contract_witness :
  let d' := conn_db (snd (fst (_ensure_seed_user (calm t0) (boot schema_only)))) in
  first_user_id "demo" d' = Some 1 /\
  app_info d' = app_info schema_only /\ notes d' = notes schema_only /\
  tags d' = tags schema_only /\ note_tags d' = note_tags schema_only /\
  if has_user "demo" schema_only then users d' = users schema_only
  else users d'
       = users schema_only ++ [{| u_id := 1; u_username := "demo";
                                  u_email := "demo@example.com";
                                  u_created_at := Some (clock (calm t0) 0) |}]
       /\ (forall r, In r (users schema_only) ->
             u_id r < 1 /\ u_email r <> "demo@example.com")
       /\ seq_users schema_only < 1.
Proof.
  exact (X6_ensure_seed_user_contract (calm t0) 0 schema_only 1 _
           step_ensure_seed_user_schema_only).
Defined.

(** *** Running a computation forward *)

Lemma bind_run {A B} (m : M A) (f : A -> M B) w a w1 o1 :
  m w = (Ok a, w1, o1) ->
  bind m f w = (let '(r, w2, o2) := f a w1 in (r, w2, o1 ++ o2)).
Proof. intros H. unfold bind. now rewrite H. Qed.

Lemma bind_raise {A B} (m : M A) (f : A -> M B) w x w1 o1 :
  m w = (Raise x, w1, o1) -> bind m f w = (Raise x, w1, o1).
Proof. intros H. unfold bind. now rewrite H. Qed.

Lemma execute_run e q w d rows :
  fault e (pc w) = false ->
  exec_stmt (fk_on w) (clock e (pc w)) q (conn_db w) = Ok (d, rows) ->
  exists w', execute e q w = (Ok tt, w', []) /\ conn_db w' = d /\
             fetched w' = rows /\ pc w' = S (pc w) /\
             (fk_on w = true -> fk_on w' = true).
Proof.
  intros Hf Hx. unfold execute. rewrite Hf, Hx. eexists. split; [reflexivity|].
  cbn. repeat split. intros ->. reflexivity.
Qed.

Lemma execute_raises e q w x :
  fault e (pc w) = false ->
  exec_stmt (fk_on w) (clock e (pc w)) q (conn_db w) = Raise x ->
  exists w', execute e q w = (Raise x, w', []) /\ conn_db w' = conn_db w.
Proof.
  intros Hf Hx. unfold execute. rewrite Hf, Hx. eexists. split; reflexivity.
Qed.

Lemma existsb_or {A} (f g : A -> bool) l :
  existsb (fun x => f x || g x) l = (existsb f l || existsb g l)%bool.
Proof.
  induction l as [|a l IH]; cbn; [reflexivity|]. rewrite IH.
  destruct (f a), (g a), (existsb f l), (existsb g l); reflexivity.
Qed.

(** X7.  Let the store answer the two statements of [_ensure_seed_user],
    the table users exist and a rowid be left.  When no user is named
    "demo" and some user holds the seed email, the function raises
    TypeError and leaves the users as they were: the INSERT is ignored on
    the email, the SELECT finds no row, and row[0] is taken of None.  In
    every other case the function returns an id. *)
Theorem X7_ensure_seed_user_type_error e w :
  fault e (pc w) = false -> fault e (S (pc w)) = false ->
  has_obj Table "users" (conn_db w) = true ->
  new_rowid (map u_id (users (conn_db w))) (seq_users (conn_db w)) <> None ->
  if negb (has_user "demo" (conn_db w))
     && existsb (fun r => String.eqb (u_email r) "demo@example.com") (users (conn_db w))
  then fst (fst (_ensure_seed_user e w)) = Raise TypeError /\
       users (conn_db (snd (fst (_ensure_seed_user e w)))) = users (conn_db w)
  else exists uid, fst (fst (_ensure_seed_user e w)) = Ok uid.
Proof.
  intros F1 F2 Ht Hid.
  destruct (new_rowid _ _) as [i|] eqn:Hi; [|contradiction]. clear Hid.
  set (taken := existsb (fun r => String.eqb (u_email r) "demo@example.com")
                        (users (conn_db w))).
  assert (X1 : exists d1,
             exec_stmt (fk_on w) (clock e (pc w))
               (InsertIgnoreUser "demo" "demo@example.com") (conn_db w) = Ok (d1, [])
             /\ has_obj Table "users" d1 = true
             /\ users d1
                = if has_user "demo" (conn_db w) || taken then users (conn_db w)
                  else users (conn_db w)
                       ++ [{| u_id := i; u_username := "demo";
                              u_email := "demo@example.com";
                              u_created_at := Some (clock e (pc w)) |}]).
  { cbn [exec_stmt]. unfold insert_ignore_user. rewrite Ht, Hi. cbn [negb].
    rewrite existsb_or. fold (has_user "demo" (conn_db w)). fold taken.
    destruct (has_user "demo" (conn_db w) || taken)%bool;
      eexists; (split; [reflexivity|]); split; try reflexivity; exact Ht. }
  destruct X1 as (d1 & X1 & Ht1 & Hu1).
  destruct (execute_run _ _ _ _ _ F1 X1) as (w1 & E1 & C1 & _ & P1 & _).
  assert (X2 : exec_stmt (fk_on w1) (clock e (pc w1)) (SelectUserId "demo") (conn_db w1)
               = Ok (d1, map u_id (filter (fun r => String.eqb (u_username r) "demo")
                                          (users d1)))).
  { cbn [exec_stmt]. unfold select_user_id. rewrite C1, Ht1. reflexivity. }
  rewrite <- P1 in F2.
  destruct (execute_run _ _ _ _ _ F2 X2) as (w2 & E2 & C2 & R2 & _).
  unfold _ensure_seed_user.
  rewrite (bind_run _ _ _ _ _ _ E1), (bind_run _ _ _ _ _ _ E2).
  unfold bind, fetchone. cbn beta. rewrite R2.
  destruct (has_user "demo" (conn_db w)) eqn:Hd; cbn [negb andb orb] in *.
  - destruct (first_of_existsb _ u_id _ Hd) as [uid Huid].
    rewrite Hu1.
    destruct (map u_id (filter _ (users (conn_db w)))) as [|v rest]; [discriminate|].
    cbn. eauto.
  - destruct taken eqn:He.
    + rewrite Hu1, (filter_none _ (users (conn_db w)));
        [|intros x Hx; exact (existsb_false_In _ _ _ Hd Hx)].
      cbn. rewrite C2. split; [reflexivity | exact Hu1].
    + rewrite Hu1, filter_app, (filter_none _ (users (conn_db w)));
        [|intros x Hx; exact (existsb_false_In _ _ _ Hd Hx)].
      cbn. eauto.
Qed.

Lemma rowid_left_email_taken :
  new_rowid (map u_id (users (conn_db (boot email_taken))))
            (seq_users (conn_db (boot email_taken))) <> None.
Proof. vm_compute. discriminate. Defined.

(** X7, witness: the store whose only user, alice, holds the seed email. *)
Lemma X7_ensure_seed_user_type_error_witness :
  fst (fst (_ensure_seed_user (calm t0) (boot email_taken))) = Raise TypeError /\
  users (conn_db (snd (fst (_ensure_seed_user (calm t0) (boot email_taken)))))
  = users (conn_db (boot email_taken)).
Proof.
  exact (X7_ensure_seed_user_type_error (calm t0) (boot email_taken)
           eq_refl eq_refl eq_refl rowid_left_email_taken).
Defined.

(** ** The run as a whole *)

Lemma run_no_connect e s :
  can_connect e = false -> exists o, run e s = (Raise OperationalError, boot s, o).
Proof.
  intros Hc. unfold run. rewrite main_split.
  destruct (greet_boot e s) as [o Ho]. unfold bind at 1. rewrite Ho.
  unfold bind at 1. unfold connect. rewrite Hc. eauto.
Qed.

(** The store a run leaves is the one its schema and seed steps leave. *)
Lemma after_provision e s :
  can_connect e = true -> after e s = disk (snd (fst (provision e (boot s)))).
Proof.
  intros Hc. unfold after.
  pose proof (run_provision e s Hc) as H.
  pose proof (provision_settled e (boot s) I) as Hs.
  destruct (provision e (boot s)) as [[[u|x] w] o]; cbn [fst snd].
  - pose proof (report_settled e (disk w) w Hs) as Hr.
    destruct (report e w) as [[r w'] o']. rewrite H. cbn.
    destruct r; exact (proj1 Hr).
  - rewrite H. reflexivity.
Qed.

(** X8.  A store whose table notes has no unique index on the title and
    holds two notes under one title cannot be provisioned: no run on it
    commits or ends well, whatever the environment, and every run leaves
    the rows of every table as they were. *)
Theorem X8_duplicate_titles_block e s :
  has_obj Index "uq_notes_title" s = false ->
  distinct (map n_title (notes s)) = false ->
  (forall s', ~ committed e s s') /\
  fst (fst (run e s)) <> Ok tt /\
  same_rows s (after e s).
Proof.
  intros Hi Hd.
  assert (Hno : forall s', ~ committed e s s').
  { intros s' Hc. apply committed_seeding in Hc.
    destruct Hc as (d5 & d6 & d7 & d8 & uid & [[Ht|Ht] _ _ _ _ _ _ _ _ _ _]); congruence. }
  split; [exact Hno|]. split.
  - intros Hok. destruct (run e s) as [[r w] o] eqn:Hrun. cbn in Hok. subst r.
    destruct (run_ok_committed e s w o Hrun) as [_ Hc]. exact (Hno _ Hc).
  - destruct (can_connect e) eqn:Hc.
    + rewrite (after_provision e s Hc).
      pose proof (provision_untouched e s (boot s) (untouched_boot s)) as Hu.
      destruct (provision e (boot s)) as [[[u|x] w] o] eqn:Hp; cbn [fst snd].
      * exfalso. destruct u. apply (Hno (disk w)). exists w, o. auto.
      * exact (proj1 Hu).
    + destruct (run_no_connect e s Hc) as [o Ho]. unfold after. rewrite Ho.
      apply same_rows_refl.
Qed.

(** X8, witness: two notes titled "todo" in a store without the index. *)
Lemma X8_duplicate_titles_block_witness :
  (forall s', ~ committed (calm t0) dup_titles s') /\
  fst (fst (run (calm t0) dup_titles)) <> Ok tt /\
  same_rows dup_titles (after (calm t0) dup_titles).
Proof. exact (X8_duplicate_titles_block (calm t0) dup_titles eq_refl eq_refl). Defined.

(** ** The files a run writes *)

Lemma in_bind {A B} (m : M A) (f : A -> M B) w ev :
  In ev (snd (bind m f w)) ->
  In ev (snd (m w)) \/
  exists a w1 o1, m w = (Ok a, w1, o1) /\ In ev (snd (f a w1)).
Proof.
  unfold bind. destruct (m w) as [[[a|x] w1] o1]; cbn [snd]; [|auto].
  destruct (f a w1) as [[r w2] o2] eqn:Hf. cbn [snd]. intros H.
  apply in_app_or in H. destruct H as [H|H]; [auto|].
  right. exists a, w1, o1. rewrite Hf. auto.
Qed.

Lemma writes_only_bind {A B} P (m : M A) (f : A -> M B) :
  writes_only P m -> (forall a, writes_only P (f a)) -> writes_only P (bind m f).
Proof.
  intros Hm Hf w p c H. apply in_bind in H.
  destruct H as [H|(a & w1 & o1 & _ & H)]; [exact (Hm _ _ _ H) | exact (Hf _ _ _ _ H)].
Qed.

Lemma writes_only_try_except {A} P (m : M A) h :
  writes_only P m -> (forall x, writes_only P (h x)) -> writes_only P (try_except m h).
Proof.
  intros Hm Hh w p c. unfold try_except.
  pose proof (Hm w p c) as Hmw.
  destruct (m w) as [[[a|x] w1] o1]; cbn [snd] in *; [exact Hmw|].
  pose proof (Hh x w1 p c) as Hhw.
  destruct (h x w1) as [[r w2] o2]. cbn [snd] in *. intros H.
  apply in_app_or in H. tauto.
Qed.

Lemma writes_only_for_each {X} P (l : list X) (body : X -> M unit) :
  (forall x, writes_only P (body x)) -> writes_only P (for_each l body).
Proof.
  intros Hb. induction l as [|x l IH]; cbn [for_each].
  - intros w p c [].
  - apply writes_only_bind; [apply Hb | intros _; exact IH].
Qed.

Lemma writes_only_ret {A} P (a : A) : writes_only P (ret a).
Proof. intros w p c []. Qed.

Lemma writes_only_print P m : writes_only P (print m).
Proof. intros w p c [H|[]]. discriminate H. Qed.

Lemma writes_only_execute P e q : writes_only P (execute e q).
Proof.
  intros w p c. unfold execute. destruct (fault e (pc w)); [intros []|].
  destruct (exec_stmt _ _ _ _) as [[d rows]|x]; intros [].
Qed.

Lemma writes_only_fetchone P : writes_only P fetchone.
Proof. intros w p c. unfold fetchone. destruct (fetched w); intros []. Qed.

Lemma writes_only_item0 P row : writes_only P (item0 row).
Proof. intros w p c. destruct row; intros []. Qed.

Lemma writes_only_commit P e : writes_only P (commit e).
Proof. intros w p c. unfold commit. destruct (fault e (pc w)); intros []. Qed.

Lemma writes_only_connect P e : writes_only P (connect e).
Proof. intros w p c. unfold connect. destruct (can_connect e); intros []. Qed.

Lemma writes_only_probe P e : writes_only P (probe e).
Proof. intros w p c. unfold probe. destruct (probe_ok e); intros []. Qed.

Lemma writes_only_which_cli P e : writes_only P (which_cli e).
Proof. intros w p c. unfold which_cli. destruct (which_sqlite3 e) as [b|]; intros []. Qed.

Lemma writes_only_os_getcwd P e : writes_only P (os_getcwd e).
Proof. intros w p c. unfold os_getcwd. destruct (getcwd e); intros []. Qed.

Lemma writes_only_os_makedirs P e path : writes_only P (os_makedirs e path).
Proof. intros w p c. unfold os_makedirs. destruct (can_mkdir e path); intros []. Qed.

Lemma writes_only_write_file (P : string -> string -> Prop) e path content :
  P path content -> writes_only P (write_file e path content).
Proof.
  intros HP w p c. unfold write_file. destruct (can_write e path); [|intros []].
  intros [H|[]]. injection H as <- <-. exact HP.
Qed.

(** One step of a proof about the files written. *)
Ltac writes_step :=
  lazymatch goal with
  | |- writes_only _ (ret _) => apply writes_only_ret
  | |- writes_only _ (print _) => apply writes_only_print
  | |- writes_only _ fetchone => apply writes_only_fetchone
  | |- writes_only _ (item0 _) => apply writes_only_item0
  | |- writes_only _ (execute _ _) => apply writes_only_execute
  | |- writes_only _ (commit _) => apply writes_only_commit
  | |- writes_only _ (connect _) => apply writes_only_connect
  | |- writes_only _ (probe _) => apply writes_only_probe
  | |- writes_only _ (which_cli _) => apply writes_only_which_cli
  | |- writes_only _ (os_getcwd _) => apply writes_only_os_getcwd
  | |- writes_only _ (os_makedirs _ _) => apply writes_only_os_makedirs
  | |- writes_only _ (bind _ _) => apply writes_only_bind; [| intros ?]
  | |- writes_only _ (try_except _ _) => apply writes_only_try_except; [| intros ?]
  | |- writes_only _ (for_each _ _) => apply writes_only_for_each; intros ?
  | |- writes_only _ (match ?x with _ => _ end) => destruct x
  | |- writes_only _ (if ?x then _ else _) => destruct x
  end.

Lemma quiet_provision e : quiet (provision e).
Proof.
  unfold quiet, provision, _enable_foreign_keys, _create_core_tables,
    _create_notes_schema, _ensure_notes_title_unique_index, _upsert_app_info,
    _ensure_seed_user, _seed_tags, _seed_notes, _seed_note_tags.
  repeat writes_step.
Qed.

Lemma quiet_greet e : quiet (greet e).
Proof. unfold quiet, greet. repeat writes_step. Qed.

(** The descriptor files, by path. *)
Lemma report_writes e :
  writes_only (fun p _ => p = "db_connection.txt" \/ p = "db_visualizer/sqlite.env")
              (report e).
Proof.
  unfold report, _write_connection_files, os_path_abspath.
  change (os_path_isabs DB_NAME) with false. cbv iota.
  repeat first [ writes_step | apply writes_only_write_file; tauto ].
Qed.

(** X9.  A run writes a file only after its schema and seed steps were
    committed, and only under the two descriptor paths: when the store
    cannot be opened, or a statement or the commit fails, no file is
    written. *)
Theorem X9_files_only_after_commit e s p c :
  In (Wrote p c) (snd (run e s)) ->
  can_connect e = true /\ committed e s (after e s) /\
  (p = "db_connection.txt" \/ p = "db_visualizer/sqlite.env").
Proof.
  unfold run. rewrite main_split. intros H.
  apply in_bind in H. destruct H as [H|(u0 & w0 & o0 & Hg & H)];
    [destruct (quiet_greet e _ _ _ H)|].
  destruct (greet_boot e s) as [og Hgb]. rewrite Hgb in Hg. injection Hg as _ <- _.
  apply in_bind in H. destruct H as [H|(u1 & w1 & o1 & Hc & H)];
    [destruct (writes_only_connect (fun _ _ => False) e _ _ _ H)|].
  unfold connect in Hc. destruct (can_connect e) eqn:Hcan; [|discriminate Hc].
  injection Hc as _ <- _.
  assert (H' : In (Wrote p c) (snd ((provision e ;; report e) (boot s)))).
  { unfold try_finally in H. destruct ((provision e ;; report e) (boot s)) as [[r w] o].
    exact H. }
  clear H. apply in_bind in H'. destruct H' as [H|(u2 & w2 & o2 & Hp & H)];
    [destruct (quiet_provision e _ _ _ H)|].
  destruct u2. assert (Hcm : committed e s (disk w2)) by (exists w2, o2; auto).
  split; [reflexivity|]. split.
  - now rewrite (committed_after e s _ Hcan Hcm).
  - exact (report_writes e _ _ _ H).
Qed.

Lemma wrote_env_once :
  In (Wrote "db_visualizer/sqlite.env"
            ("export SQLITE_DB=" ++ dq ++ "/srv/notes/myapp.db" ++ dq ++ nl))
     (snd (run (calm t0) fresh)).
Proof. vm_compute. tauto. Defined.

(** X9, witness: the environment file of the run on the empty store. *)
Lemma X9_files_only_after_commit_witness :
  can_connect (calm t0) = true /\
  committed (calm t0) fresh (after (calm t0) fresh) /\
  ("db_visualizer/sqlite.env" = "db_connection.txt" \/
   "db_visualizer/sqlite.env" = "db_visualizer/sqlite.env").
Proof.
  exact (X9_files_only_after_commit (calm t0) fresh _ _ wrote_env_once).
Defined.

(** ** What the store depends on *)

Lemma provision_ext e e' :
  clock e = clock e' -> fault e = fault e' -> provision e = provision e'.
Proof.
  intros Hc Hf.
  unfold provision, _enable_foreign_keys, _create_core_tables, _create_notes_schema,
    _ensure_notes_title_unique_index, _upsert_app_info, _ensure_seed_user,
    _seed_tags, _seed_notes, _seed_note_tags, execute, commit.
  rewrite Hc, Hf. reflexivity.
Qed.

(** X10.  The store that a run leaves depends on the environment only
    through the store itself: its clock, its failures and whether it can be
    opened.  The probe of an existing file, the working directory, the
    descriptor files and their directory, and the search for the sqlite3
    CLI have no effect on it. *)
Theorem X10_store_independent_of_reporting e e' s :
  clock e = clock e' -> fault e = fault e' -> can_connect e = can_connect e' ->
  after e s = after e' s.
Proof.
  intros Hc Hf Hcan. destruct (can_connect e) eqn:He; symmetry in Hcan.
  - rewrite (after_provision e s He), (after_provision e' s Hcan).
    now rewrite (provision_ext e e' Hc Hf).
  - destruct (run_no_connect e s He) as [o Ho].
    destruct (run_no_connect e' s Hcan) as [o' Ho'].
    unfold after. now rewrite Ho, Ho'.
Qed.

(** X10, witness: a run in which no file can be written, against one in
    which all can. *)
Lemma X10_store_independent_of_reporting_witness :
  after no_write fresh = after (calm t0) fresh.
Proof.
  exact (X10_store_independent_of_reporting no_write (calm t0) fresh
           eq_refl eq_refl eq_refl).
Defined.

(** ** The statistics *)

Lemma execute_silent e q w r w' o : execute e q w = (r, w', o) -> o = [].
Proof.
  unfold execute. destruct (fault e (pc w)); [now intros [= _ _ <-]|].
  destruct (exec_stmt _ _ _ _) as [[? ?]|?]; now intros [= _ _ <-].
Qed.

(** A count is sent, its row fetched and its first column bound. *)
Lemma counted e q (rest : Z -> M unit) w u w' o :
  (execute e q ;; v <- (row <- fetchone ;; item0 row) ;; rest v) w = (Ok u, w', o) ->
  exists d v rows w1,
    exec_stmt (fk_on w) (clock e (pc w)) q (conn_db w) = Ok (d, v :: rows) /\
    conn_db w1 = d /\ rest v w1 = (Ok u, w', o).
Proof.
  intros H. bind_inv H. pose proof (execute_silent _ _ _ _ _ _ Hstep) as Ho.
  apply execute_ok in Hstep.
  destruct Hstep as (d & rows & Hx & Hc & Hf & _).
  bind_inv Hstep0. unfold fetchone in Hstep. rewrite Hf in Hstep.
  destruct rows as [|v rows]; injection Hstep as <- <- <-;
    cbn in Hstep0; [discriminate Hstep0|].
  injection Hstep0 as <- <- <-. subst o o0 o1 o2. cbn in *.
  exists d, v, rows. eexists. split; [exact Hx|]. split; [|exact H]. exact Hc.
Qed.

Lemma print_ok m w a w' o : print m w = (Ok a, w', o) -> o = [Print m].
Proof. now intros [= _ _ <-]. Qed.

(** The four numbers that [report] prints are the counts of the store
    that the connection sees. *)
Lemma report_prints e w w' o :
  report e w = (Ok tt, w', o) ->
  In (Print (LineZ "  Tables: " (count_tables (conn_db w)))) o /\
  In (Print (LineZ "  Notes: " (Z.of_nat (List.length (notes (conn_db w)))))) o /\
  In (Print (LineZ "  Tags: " (Z.of_nat (List.length (tags (conn_db w)))))) o /\
  In (Print (LineZ "  Note-Tag relations: "
               (Z.of_nat (List.length (note_tags (conn_db w)))))) o.
Proof.
  intros H. unfold report in H.
  apply counted in H. destruct H as (d1 & v1 & rows1 & w1 & X1 & C1 & H).
  cbn [exec_stmt] in X1. injection X1 as <- <- _.
  apply counted in H. destruct H as (d2 & v2 & rows2 & w2 & X2 & C2 & H).
  cbn [exec_stmt] in X2. unfold selected, count_rows in X2.
  destruct (negb (has_obj Table "notes" (conn_db w1))); [discriminate|].
  injection X2 as <- <- _.
  apply counted in H. destruct H as (d3 & v3 & rows3 & w3 & X3 & C3 & H).
  cbn [exec_stmt] in X3. unfold selected, count_rows in X3.
  destruct (negb (has_obj Table "tags" (conn_db w2))); [discriminate|].
  injection X3 as <- <- _.
  apply counted in H. destruct H as (d4 & v4 & rows4 & w4 & X4 & C4 & H).
  cbn [exec_stmt] in X4. unfold selected, count_rows in X4.
  destruct (negb (has_obj Table "note_tags" (conn_db w3))); [discriminate|].
  injection X4 as <- <- _.
  rewrite C3, C2, C1 in *. clear C1 C2 C3 C4.
  bind_inv H.
  repeat match goal with
         | Hp : print _ _ = (Ok _, _, _) |- _ => apply print_ok in Hp
         end.
  subst. rewrite !in_app_iff. cbn. tauto.
Qed.

(** X11.  When a run ends well, the four statistics it printed are those
    of the store it committed and left: the number of tables whose name
    does not start with sqlite_, and the numbers of notes, of tags and of
    associations. *)
Theorem X11_statistics_of_committed_store e s w o :
  run e s = (Ok tt, w, o) ->
  disk w = after e s /\ committed e s (disk w) /\
  In (Print (LineZ "  Tables: " (count_tables (disk w)))) o /\
  In (Print (LineZ "  Notes: " (Z.of_nat (List.length (notes (disk w)))))) o /\
  In (Print (LineZ "  Tags: " (Z.of_nat (List.length (tags (disk w)))))) o /\
  In (Print (LineZ "  Note-Tag relations: "
               (Z.of_nat (List.length (note_tags (disk w)))))) o.
Proof.
  intros H. split; [unfold after; now rewrite H|].
  split; [exact (proj2 (run_ok_committed e s w o H))|].
  unfold run in H. rewrite main_split in H. bind_inv H.
  unfold try_finally in H.
  destruct ((provision e ;; report e) _) as [[r wr] ot] eqn:Hpr.
  injection H as -> <- ->. bind_inv Hpr.
  match goal with
  | Hg : greet e (boot s) = _, Hc : connect e _ = _,
    Hp : provision e ?wc = (Ok ?u, ?wp, _) |- _ =>
      destruct (greet_boot e s) as [og Hgb]; rewrite Hgb in Hg;
      injection Hg as _ <- _; unfold connect in Hc;
      destruct (can_connect e); [|discriminate Hc]; injection Hc as _ <- _;
      destruct u; pose proof (provision_settled e (boot s) I) as Hs;
      rewrite Hp in Hs;
      pose proof (report_settled e (disk wp) wp Hs) as Hr; rewrite Hpr in Hr;
      pose proof (report_prints e wp wr _ Hpr) as Hprt;
      destruct Hs as (_ & Hcd & _); destruct Hr as (Hd & _); rewrite Hcd in Hprt
  end.
  cbn [disk close]. rewrite Hd. subst. rewrite !in_app_iff. tauto.
Qed.

Lemma run_once_ok :
  run (calm t0) fresh
  = (Ok tt, snd (fst (run (calm t0) fresh)), snd (run (calm t0) fresh)).
Proof. vm_compute. reflexivity. Defined.

(** X11, witness: the run on the empty store prints 5 tables, 4 notes,
    4 tags and 6 associations. *)
Lemma X11_statistics_of_committed_store_witness :
  let w := snd (fst (run (calm t0) fresh)) in
  let o := snd (run (calm t0) fresh) in
  disk w = after (calm t0) fresh /\ committed (calm t0) fresh (disk w) /\
  In (Print (LineZ "  Tables: " (count_tables (disk w)))) o /\
  In (Print (LineZ "  Notes: " (Z.of_nat (List.length (notes (disk w)))))) o /\
  In (Print (LineZ "  Tags: " (Z.of_nat (List.length (tags (disk w)))))) o /\
  In (Print (LineZ "  Note-Tag relations: "
               (Z.of_nat (List.length (note_tags (disk w)))))) o.
Proof.
  exact (X11_statistics_of_committed_store (calm t0) fresh _ _ run_once_ok).
Defined.

(** ** The descriptor files *)

(** [os.path.abspath("myapp.db")] under some working directories: one
    separator joins the directory and the name, and the path is normalised
    (at the root the path is /myapp.db). *)
Lemma abspath_db_name :
  map (fun cwd => os_path_normpath (os_path_join cwd DB_NAME))
      ["/"; "/srv/notes"; "/srv/notes/"; "/srv/./notes/../data"; "//"; "///"]
  = ["/myapp.db"; "/srv/notes/myapp.db"; "/srv/notes/myapp.db";
     "/srv/data/myapp.db"; "//myapp.db"; "/myapp.db"].
Proof. vm_compute. reflexivity. Qed.

(** X12.  [_write_connection_files] never touches the store.  It raises,
    and then OSError, exactly when the working directory cannot be read or
    db_visualizer is absent and cannot be created; a file that cannot be
    written only yields its warning.  db_connection.txt is written whenever
    the working directory is known and the file writable, also when the
    directory then fails; sqlite.env is written exactly when the function
    returns and the file is writable, and it exports the absolute path of
    myapp.db as os.path.abspath gives it: the working directory joined
    with the name, normalised. *)
Theorem X12_write_connection_files_outcome e w :
  let r := _write_connection_files e w in
  snd (fst r) = w /\
  (fst (fst r) = Ok tt \/ fst (fst r) = Raise OSError) /\
  (fst (fst r) = Raise OSError <->
   getcwd e = None \/
   (path_exists e "db_visualizer" = false /\ can_mkdir e "db_visualizer" = false)) /\
  (getcwd e <> None ->
   if can_write e "db_connection.txt"
   then exists c, In (Wrote "db_connection.txt" c) (snd r)
   else In (Print (LineExn "Warning: Could not save connection info: " OSError)) (snd r)) /\
  ((exists c, In (Wrote "db_visualizer/sqlite.env" c) (snd r)) <->
   fst (fst r) = Ok tt /\ can_write e "db_visualizer/sqlite.env" = true) /\
  (fst (fst r) = Ok tt -> can_write e "db_visualizer/sqlite.env" = false ->
   In (Print (LineExn "Warning: Could not save environment variables: " OSError)) (snd r)) /\
  (forall c, In (Wrote "db_visualizer/sqlite.env" c) (snd r) ->
   exists p, getcwd e = Some p /\
             c = ("export SQLITE_DB=" ++ dq
                  ++ os_path_normpath (os_path_join p DB_NAME) ++ dq ++ nl)%string).
Proof.
  unfold _write_connection_files, os_path_abspath.
  change (os_path_isabs DB_NAME) with false. cbv iota.
  unfold bind, try_except, os_getcwd, write_file, print, os_makedirs, ret.
  destruct (getcwd e) as [p|].
  2:{ cbn. split; [reflexivity|]. split; [now right|].
      split; [split; [now left | reflexivity]|].
      split; [intros Hx; now contradiction Hx|].
      split; [split; [intros [c []] | intros [Hx _]; discriminate Hx]|].
      split; [discriminate | intros c []]. }
  destruct (can_write e "db_connection.txt"), (can_write e "db_visualizer/sqlite.env"),
    (path_exists e "db_visualizer"), (can_mkdir e "db_visualizer");
    cbn [fst snd negb app];
    (split; [reflexivity|]);
    (split; [tauto|]);
    (split; [split; [try discriminate; tauto | intros [Hx|[Hx Hy]]; try discriminate; reflexivity]|]);
    (split; [intros _; try (eexists; cbn; tauto); cbn; tauto|]).
  all: split; [split; [intros [c Hc]; cbn in Hc; split; try reflexivity;
                       repeat (destruct Hc as [Hc|Hc]; try discriminate Hc); try contradiction
                      |intros [Hx Hy]; try discriminate Hx; try discriminate Hy;
                       eexists; cbn; tauto]|].
  all: split; [intros Hx Hy; try discriminate Hx; try discriminate Hy; cbn; tauto|].
  all: intros c Hc; cbn in Hc;
    repeat (destruct Hc as [Hc|Hc]; try discriminate Hc); try contradiction;
    injection Hc as <-; exists p; split; reflexivity.
Qed.

(** ** The schema *)

Lemma name_eqb_refl n : name_eqb n n = true.
Proof. unfold name_eqb. apply String.eqb_refl. Qed.

Lemma has_obj_incl t n d d' :
  incl (objects d) (objects d') -> has_obj t n d = true -> has_obj t n d' = true.
Proof.
  unfold has_obj. intros Hi H. apply existsb_exists in H. destruct H as [o [Ho Hf]].
  apply existsb_exists. exists o. split; [now apply Hi | exact Hf].
Qed.

Lemma exec_objects fk now q d d' rows :
  exec_stmt fk now q d = Ok (d', rows) -> incl (objects d) (objects d').
Proof.
  intros H. destruct q; exec_inv H; cbn; try apply incl_refl; apply incl_appl, incl_refl.
Qed.

(** A schema statement that returns leaves its object in the store. *)
Lemma execute_creates e q w u w' o :
  execute e q w = (Ok u, w', o) ->
  incl (objects (conn_db w)) (objects (conn_db w')) /\
  match q with
  | CreateTable n => has_obj Table n (conn_db w') = true
  | CreateIndex n _ _ => has_obj Index n (conn_db w') = true
  | CreateUniqueIndexNotesTitle => has_obj Index "uq_notes_title" (conn_db w') = true
  | _ => True
  end.
Proof.
  intros H. apply execute_ok in H. destruct H as (d & rows & Hx & <- & _).
  split; [exact (exec_objects _ _ _ _ _ _ Hx)|].
  destruct q; try exact I; exec_inv Hx; try assumption;
    rewrite has_obj_add; cbn; rewrite ?name_eqb_refl; apply orb_true_r.
Qed.

Lemma objects_execute e (O : list (obj_type * string)) q :
  hoare (fun w => incl O (objects (conn_db w))) (execute e q)
        (fun _ w => incl O (objects (conn_db w))) (fun _ _ => True).
Proof.
  intros w Hw. destruct (execute e q w) as [[[u|x] w'] o] eqn:H; [|exact I].
  apply execute_creates in H. eapply incl_tran; [exact Hw | apply H].
Qed.

Lemma objects_fetchone (O : list (obj_type * string)) :
  hoare (fun w => incl O (objects (conn_db w))) fetchone
        (fun _ w => incl O (objects (conn_db w))) (fun _ _ => True).
Proof. intros w Hw. unfold fetchone. destruct (fetched w); exact Hw. Qed.

(** The seed functions drop no schema object. *)
Ltac objects_grow e H :=
  lazymatch type of H with
  | ?m ?w = (Ok ?a, ?w', ?o) =>
      let G := fresh "G" in
      assert (G : incl (objects (conn_db w)) (objects (conn_db w')));
      [ refine (keep_ok (fun w0 => incl (objects (conn_db w)) (objects (conn_db w0)))
                        m (fun _ _ => True) w a w' o _ (incl_refl _) H);
        let Hx := fresh "Hx" in let Hf := fresh "Hf" in let HE := fresh "HE" in
        pose proof (fun q (_ : seed_stmt q) (_ : true = true) =>
                      objects_execute e (objects (conn_db w)) q) as Hx;
        pose proof (objects_fetchone (objects (conn_db w))) as Hf;
        assert (HE : covers (fun w0 => incl (objects (conn_db w)) (objects (conn_db w0)))
                            (fun _ _ => True)) by (intros ? ? _; exact I);
        keep_fun Hx Hf HE
      | ]
  end.

Lemma provision_has_schema e w w' o :
  provision e w = (Ok tt, w', o) -> has_schema (disk w').
Proof.
  intros H. unfold provision in H. bind_inv H.
  match goal with Hc : commit e ?w8 = _ |- _ =>
    assert (Hd : disk w' = conn_db w8)
      by (unfold commit in Hc; destruct (fault e (pc w8)); [discriminate Hc|];
          now injection Hc as <- _)
  end.
  rewrite Hd. clear Hd H.
  objects_grow e Hstep3. objects_grow e Hstep4. objects_grow e Hstep5.
  objects_grow e Hstep6. objects_grow e Hstep7.
  unfold _create_core_tables in Hstep0. bind_inv Hstep0.
  unfold _create_notes_schema in Hstep1. bind_inv Hstep1.
  unfold _ensure_notes_title_unique_index in Hstep2.
  repeat match goal with
         | Hx : execute e _ _ = (Ok _, _, _) |- _ =>
             apply execute_creates in Hx; destruct Hx as [? ?]
         end.
  assert (Hall : forall t n wx,
            has_obj t n (conn_db wx) = true ->
            incl (objects (conn_db wx)) (objects (conn_db w8)) ->
            has_obj t n (conn_db w8) = true)
    by (intros t n wx Ho Hi; exact (has_obj_incl _ _ _ _ Hi Ho)).
  unfold has_schema, schema_tables, seed_indexes.
  split; [|split].
  - intros t Ht. cbn in Ht.
    repeat (destruct Ht as [<-|Ht];
            [eapply Hall; [eassumption | repeat (first [eassumption | apply incl_refl | eapply incl_tran; [eassumption|]])]|]).
    contradiction.
  - intros i Hi. cbn in Hi.
    repeat (destruct Hi as [<-|Hi];
            [eapply Hall; [eassumption | repeat (first [eassumption | apply incl_refl | eapply incl_tran; [eassumption|]])]|]).
    contradiction.
  - eapply Hall; [eassumption | repeat (first [eassumption | apply incl_refl | eapply incl_tran; [eassumption|]])].
Qed.

(** X13.  After a run that commits, the store has the whole schema of the
    script: the five tables, the seven plain indexes and the unique index
    on notes.title; and every object it had before is still there. *)
Theorem X13_schema_complete e s s' :
  committed e s s' -> has_schema s' /\ incl (objects s) (objects s').
Proof.
  intros Hc. split.
  - destruct Hc as (w & o & H & ->). exact (provision_has_schema e _ _ _ H).
  - exact (fr_objects _ _ (committed_keeps e false (frame s) s s' (frame_stable s)
                             (frame_refl s) Hc)).
Qed.

(** X13, witness: the run on the empty store. *)
Lemma X13_schema_complete_witness :
  has_schema once /\ incl (objects fresh) (objects once).
Proof. exact (X13_schema_complete (calm t0) fresh once committed_once). Defined.

Lemma has_obj_objects t n d d' : objects d = objects d' -> has_obj t n d = has_obj t n d'.
Proof. unfold has_obj. now intros ->. Qed.

(** On a store that has the schema, no statement of the script changes the
    schema objects. *)
Lemma schema_kept_exec s q fk now d d' rows :
  has_schema s -> seed_stmt q -> script_ddl q = true ->
  objects d = objects s -> exec_stmt fk now q d = Ok (d', rows) ->
  objects d' = objects s.
Proof.
  intros (Ht & Hi & Hu) Hq Hok Hd H.
  destruct q; exec_inv H; try exact Hd; exfalso.
  - (* a table of the script is there *)
    unfold script_ddl in Hok. apply existsb_exists in Hok. destruct Hok as [n [Hn Heq]].
    apply String.eqb_eq in Heq. subst n.
    rewrite (has_obj_objects _ _ _ _ Hd), (Ht _ Hn) in Heqb. discriminate Heqb.
  - (* an index of the script is there *)
    cbn in Hq. rewrite (has_obj_objects _ _ _ _ Hd), (Hi _ Hq) in Heqb1.
    discriminate Heqb1.
  - rewrite (has_obj_objects _ _ _ _ Hd), Hu in Heqb1. discriminate Heqb1.
Qed.

Lemma provision_schema_kept e s :
  has_schema s ->
  hoare (bothk false (fun d => objects d = objects s)) (provision e)
        (fun _ => bothk false (fun d => objects d = objects s))
        (fun _ => bothk false (fun d => objects d = objects s)).
Proof.
  intros Hs.
  pose proof (covers_refl (bothk false (fun d => objects d = objects s))) as HE.
  assert (Hx : forall q, seed_stmt q -> script_ddl q = true ->
                 hoare (bothk false (fun d => objects d = objects s)) (execute e q)
                       (fun _ => bothk false (fun d => objects d = objects s))
                       (fun _ => bothk false (fun d => objects d = objects s))).
  { intros q Hq Hok. apply keep_execute; [exact HE|].
    intros fk now d d' rows _ Hd H. exact (schema_kept_exec s q fk now d d' rows Hs Hq Hok Hd H). }
  pose proof (keep_fetchone false (fun d => objects d = objects s)
                (fun _ => bothk false (fun d => objects d = objects s))) as Hf.
  unfold provision, _enable_foreign_keys, _create_core_tables, _create_notes_schema,
    _ensure_notes_title_unique_index.
  repeat keep_fun Hx Hf HE.
  apply keep_commit; exact HE.
Qed.

(** X14.  A run on a store that has the schema of the script creates and
    drops no schema object, whatever the outcome of the run: each CREATE
    ... IF NOT EXISTS leaves the existing definition as it is. *)
Theorem X14_schema_left_alone e s :
  has_schema s -> objects (after e s) = objects s.
Proof.
  intros Hs. destruct (can_connect e) eqn:Hc.
  - rewrite (after_provision e s Hc).
    pose proof (provision_schema_kept e s Hs (boot s)) as H.
    destruct (provision e (boot s)) as [[[u|x] w] o]; cbn [fst snd];
      apply H; repeat split; discriminate.
  - destruct (run_no_connect e s Hc) as [o Ho]. unfold after. now rewrite Ho.
Qed.

Lemma has_schema_once : has_schema once.
Proof.
  split; [|split]; [intros t Ht | intros i Hi | vm_compute; reflexivity].
  - cbn in Ht. repeat (destruct Ht as [<-|Ht]; [vm_compute; reflexivity|]).
    contradiction.
  - cbn in Hi. repeat (destruct Hi as [<-|Hi]; [vm_compute; reflexivity|]).
    contradiction.
Defined.

(** X14, witness: a second run on the store of a first. *)
Lemma X14_schema_left_alone_witness : objects (after (calm t1) once) = objects once.
Proof. exact (X14_schema_left_alone (calm t1) once has_schema_once). Defined.

(** ** Runs that cannot fail *)

Section Total.

Variable e : env.
Hypothesis no_fault : forall k, fault e k = false.

(** A statement that the store accepts is executed. *)
Lemma total_execute q (P Q : world -> Prop) :
  (forall w, P w ->
     exists d rows,
       exec_stmt (fk_on w) (clock e (pc w)) q (conn_db w) = Ok (d, rows) /\
       forall w', conn_db w' = d -> fetched w' = rows ->
                  (fk_on w = true -> fk_on w' = true) -> Q w') ->
  hoare P (execute e q) (fun _ => Q) (fun _ _ => False).
Proof.
  intros H w Hw. destruct (H w Hw) as (d & rows & Hx & HQ).
  destruct (execute_run e q w d rows (no_fault _) Hx) as (w' & -> & Hc & Hf & _ & Hk).
  now apply HQ.
Qed.

Lemma total_fetchone (P : world -> Prop) (Q : option Z -> world -> Prop) :
  (forall w w', P w -> conn_db w' = conn_db w -> fk_on w' = fk_on w ->
     Q (hd_error (fetched w)) w') ->
  hoare P fetchone Q (fun _ _ => False).
Proof.
  intros H w Hw. unfold fetchone.
  destruct (fetched w) as [|r rest] eqn:Hf.
  - specialize (H w w Hw eq_refl eq_refl). now rewrite Hf in H.
  - specialize (H w {| disk := disk w; conn_db := conn_db w; in_txn := in_txn w;
                       fk_on := fk_on w; fetched := rest; pc := pc w |}
                  Hw eq_refl eq_refl).
    now rewrite Hf in H.
Qed.

Lemma first_id_in {A} (f : A -> bool) (g : A -> Z) l i :
  hd_error (map g (filter f l)) = Some i -> existsb (fun r => g r =? i) l = true.
Proof.
  intros H. destruct (filter f l) as [|r rest] eqn:Hf; [discriminate|].
  cbn in H. injection H as <-.
  assert (Hin : In r (filter f l)) by (rewrite Hf; now left).
  apply filter_In in Hin. apply existsb_exists. exists r.
  split; [tauto | apply Z.eqb_refl].
Qed.

(** The association of a note and a tag that are there is accepted, with
    or without foreign keys, and leaves no dangling association. *)
Lemma insert_ignore_note_tag_total fk now nid tid d :
  has_link_tables d ->
  existsb (fun r => n_id r =? nid) (notes d) = true ->
  existsb (fun r => t_id r =? tid) (tags d) = true ->
  exists d', insert_ignore_note_tag fk now nid tid d = Ok d' /\
             has_link_tables d' /\ same_but NoteTags d d' /\
             (ref_integrity d -> ref_integrity d').
Proof.
  intros (Hn & Ht & Hl) Hnid Htid. unfold insert_ignore_note_tag.
  rewrite Hn, Ht, Hl, Hnid, Htid. cbn [negb andb]. rewrite !andb_false_r.
  destruct (existsb _ (note_tags d)) eqn:Hex.
  - exists d. split; [reflexivity|]. split; [now repeat split|].
    split; [apply same_but_refl | auto].
  - eexists. split; [reflexivity|]. split; [now repeat split|]. split.
    + unfold same_but. cbn.
      repeat split; intros Hx; try reflexivity; now contradiction Hx.
    + intros Hr r Hin. cbn in Hin |- *. apply in_app_or in Hin.
      destruct Hin as [Hin|[<-|[]]]; [exact (Hr r Hin)|]. cbn.
      apply existsb_exists in Hnid, Htid.
      destruct Hnid as [n [Hn1 Hn2]], Htid as [t [Ht1 Ht2]].
      split; [exists n | exists t]; split; auto; now apply Z.eqb_eq.
Qed.

(** [_seed_note_tags] returns whenever the store answers and the three
    tables are there. *)
Lemma seed_note_tags_total d0 :
  hoare (fun w => conn_db w = d0 /\ has_link_tables d0) (_seed_note_tags e)
        (fun _ w => has_link_tables (conn_db w) /\ same_but NoteTags d0 (conn_db w) /\
                    (ref_integrity d0 -> ref_integrity (conn_db w)))
        (fun _ _ => False).
Proof.
  set (Inv := fun w : world =>
                has_link_tables (conn_db w) /\ same_but NoteTags d0 (conn_db w) /\
                (ref_integrity d0 -> ref_integrity (conn_db w))).
  apply hoare_conseq with (P' := Inv) (Q' := fun _ => Inv) (E' := fun _ _ => False);
    [| | auto | auto].
  2:{ intros w [Hc Ht]. unfold Inv. rewrite Hc.
      split; [exact Ht|]. split; [apply same_but_refl | auto]. }
  unfold _seed_note_tags. apply hoare_for_each. intros [t names] _.
  eapply hoare_bind.
  { apply total_execute
      with (Q := fun w => Inv w /\
                   forall i, hd_error (fetched w) = Some i ->
                     existsb (fun r => n_id r =? i) (notes (conn_db w)) = true).
    intros w Hw. pose proof Hw as ((Hn & _) & _).
    cbn [exec_stmt]. unfold select_note_id. rewrite Hn. cbn.
    eexists. eexists. split; [reflexivity|]. intros w' Hc Hf _.
    unfold Inv. rewrite Hc, Hf. split; [exact Hw|]. apply first_id_in. }
  intros ?u; cbn beta. eapply hoare_bind.
  { apply total_fetchone
      with (Q := fun r w => Inv w /\
                   forall i, r = Some i ->
                     existsb (fun r => n_id r =? i) (notes (conn_db w)) = true).
    intros w w' [Hw Hi] Hc _. unfold Inv. rewrite Hc. split; [exact Hw | exact Hi]. }
  intros [nid|]; [|apply hoare_ret; tauto].
  apply hoare_conseq
    with (P' := fun w => Inv w /\
                  existsb (fun r => n_id r =? nid) (notes (conn_db w)) = true)
         (Q' := fun _ w => Inv w /\
                  existsb (fun r => n_id r =? nid) (notes (conn_db w)) = true)
         (E' := fun _ _ => False); [| intros w [Hw Hi]; auto | tauto | auto].
  apply hoare_for_each. intros n _.
  eapply hoare_bind.
  { apply total_execute
      with (Q := fun w => (Inv w /\
                   existsb (fun r => n_id r =? nid) (notes (conn_db w)) = true) /\
                   forall i, hd_error (fetched w) = Some i ->
                     existsb (fun r => t_id r =? i) (tags (conn_db w)) = true).
    intros w Hw. pose proof Hw as (((_ & Ht & _) & _) & _).
    cbn [exec_stmt]. unfold select_tag_id. rewrite Ht. cbn.
    eexists. eexists. split; [reflexivity|]. intros w' Hc Hf _.
    unfold Inv. rewrite Hc, Hf. split; [exact Hw|]. apply first_id_in. }
  intros ?u; cbn beta. eapply hoare_bind.
  { apply total_fetchone
      with (Q := fun r w => (Inv w /\
                   existsb (fun r => n_id r =? nid) (notes (conn_db w)) = true) /\
                   forall i, r = Some i ->
                     existsb (fun r => t_id r =? i) (tags (conn_db w)) = true).
    intros w w' [Hw Hi] Hc _. unfold Inv. rewrite Hc. split; [exact Hw | exact Hi]. }
  intros [tid|]; [|apply hoare_ret; tauto].
  apply total_execute. intros w [[(Ht & Hs & Hr) Hnid] Htid].
  specialize (Htid tid eq_refl).
  destruct (insert_ignore_note_tag_total (fk_on w) (clock e (pc w)) nid tid (conn_db w)
              Ht Hnid Htid) as (d' & Hi & Ht' & Hs' & Hr').
  exists d', []. cbn [exec_stmt]. rewrite Hi. split; [reflexivity|].
  intros w' Hc _ _. unfold Inv. rewrite Hc.
  split; [split; [exact Ht' | split; [eapply same_but_trans; eauto | auto]]|].
  destruct Hs' as (_ & _ & Hn' & _). rewrite Hn'; [exact Hnid | discriminate].
Qed.

End Total.

(** X15.  When the store answers every statement and the tables notes,
    tags and note_tags are there, [_seed_note_tags] returns, with or
    without foreign keys: a note or a tag that is not found is passed over,
    and an association is only asked for ids that were just read.  It
    writes to note_tags only, leaves no dangling association in a store
    that had none, and changes nothing when no note of the mapping is
    found. *)
Theorem X15_seed_note_tags_returns e w :
  (forall k, fault e k = false) -> has_link_tables (conn_db w) ->
  exists w' o,
    _seed_note_tags e w = (Ok tt, w', o) /\
    same_but NoteTags (conn_db w) (conn_db w') /\
    (ref_integrity (conn_db w) -> ref_integrity (conn_db w')) /\
    ((forall t names, In (t, names) mappings -> first_note_id t (conn_db w) = None) ->
     conn_db w' = conn_db w).
Proof.
  intros Hnf Ht.
  pose proof (seed_note_tags_total e Hnf (conn_db w) w (conj eq_refl Ht)) as H.
  destruct (_seed_note_tags e w) as [[[[]|x] w'] o] eqn:Hm; [|contradiction].
  destruct H as (_ & Hs & Hr).
  exists w', o. split; [reflexivity|]. split; [exact Hs|]. split; [exact Hr|].
  intros Hnone.
  refine (hoare_ok _ _ _ _ _ _ _ _ (seed_note_tags_noop e (conn_db w) _) eq_refl Hm).
  intros t names n nid tid Hin _ Hnid. rewrite (Hnone t names Hin) in Hnid.
  discriminate Hnid.
Qed.

Lemma has_link_tables_schema_only : has_link_tables (conn_db (boot schema_only)).
Proof. split; [|split]; vm_compute; reflexivity. Defined.

(** X15, witness: the store that has the schema and no row, where no note
    is found. *)
Lemma X15_seed_note_tags_returns_witness :
  exists w' o,
    _seed_note_tags (calm t0) (boot schema_only) = (Ok tt, w', o) /\
    same_but NoteTags (conn_db (boot schema_only)) (conn_db w') /\
    (ref_integrity (conn_db (boot schema_only)) -> ref_integrity (conn_db w')) /\
    ((forall t names, In (t, names) mappings ->
        first_note_id t (conn_db (boot schema_only)) = None) ->
     conn_db w' = conn_db (boot schema_only)).
Proof.
  exact (X15_seed_note_tags_returns (calm t0) (boot schema_only)
           (fun _ => eq_refl) has_link_tables_schema_only).
Defined.

(** ** Rowids left *)

Lemma largest_le b ids m : (forall i, In i ids -> i <= b) -> largest ids = Some m -> m <= b.
Proof.
  unfold largest. destruct ids as [|a r]; [discriminate|]. intros Hb H. injection H as <-.
  revert Hb. induction r as [|x r IH]; cbn; intros Hb.
  - apply Hb. now left.
  - assert (Hr : fold_right Z.max a r <= b).
    { apply IH. intros i [<-|Hi]; apply Hb; [now left | right; now right]. }
    assert (Hx : x <= b) by (apply Hb; right; now left). lia.
Qed.

Lemma new_rowid_room b ids seq :
  (forall i, In i ids -> i <= b) -> seq <= b -> b < MAX_ROWID -> 0 <= b ->
  exists i, new_rowid ids seq = Some i /\ i <= b + 1.
Proof.
  intros Hb Hs Hm H0. unfold new_rowid.
  destruct (largest ids) as [m|] eqn:Hl.
  - pose proof (largest_le b ids m Hb Hl) as Hle.
    destruct (MAX_ROWID <=? m) eqn:H1; [apply Z.leb_le in H1; lia|].
    destruct (seq =? MAX_ROWID) eqn:H2; [apply Z.eqb_eq in H2; lia|].
    cbn. eexists. split; [reflexivity | lia].
  - destruct (seq =? MAX_ROWID) eqn:H2; [apply Z.eqb_eq in H2; lia|].
    eexists. split; [reflexivity | lia].
Qed.

(** ** Stores that a run can provision *)

Lemma table_index_names t i :
  In t schema_tables -> In i ("uq_notes_title" :: seed_indexes) ->
  name_eqb t i = false /\ name_eqb i t = false.
Proof.
  unfold schema_tables, seed_indexes. cbn. intros Ht Hi.
  repeat match goal with
         | H : _ \/ _ |- _ => destruct H as [<-|H]
         | H : False |- _ => destruct H
         end; split; reflexivity.
Qed.

Lemma seed_index_not_unique n :
  In n seed_indexes -> name_eqb n "uq_notes_title" = false.
Proof.
  unfold seed_indexes. cbn. intros H.
  repeat (destruct H as [<-|H]; [reflexivity|]). contradiction.
Qed.

Lemma create_table_total s L J t d :
  In t schema_tables -> ddl_inv s L J d ->
  exists d', create_table t d = Ok d' /\ ddl_inv s (t :: L) J d'.
Proof.
  intros Ht (Hr & (Hc1 & Hc2) & Hu & HL & HJ). unfold create_table.
  destruct (has_obj Table t d) eqn:Hhas.
  - exists d. split; [reflexivity|]. split; [exact Hr|].
    split; [split; assumption|]. split; [exact Hu|]. split; [|exact HJ].
    intros x [<-|Hx]; auto.
  - rewrite (Hc1 t Ht). eexists. split; [reflexivity|].
    split; [|split; [|split; [|split]]].
    + exact Hr.
    + split.
      * intros x Hx. rewrite has_obj_add. cbn. rewrite orb_false_r. auto.
      * intros i Hi. rewrite has_obj_add. cbn.
        rewrite (Hc2 i Hi), (proj1 (table_index_names t i Ht Hi)). reflexivity.
    + rewrite has_obj_add. cbn. now rewrite orb_false_r.
    + intros x [<-|Hx]; rewrite has_obj_add; cbn.
      * rewrite name_eqb_refl. apply orb_true_r.
      * now rewrite (HL x Hx).
    + intros x Hx. rewrite has_obj_add. cbn. rewrite orb_false_r. auto.
Qed.

Lemma create_index_total s L J n tbl col d :
  In n seed_indexes -> In tbl L -> has_column tbl col = true -> ddl_inv s L J d ->
  exists d', create_index n tbl col d = Ok d' /\ ddl_inv s L (n :: J) d'.
Proof.
  intros Hn Ht Hcol (Hr & (Hc1 & Hc2) & Hu & HL & HJ). unfold create_index.
  rewrite (HL tbl Ht), (Hc2 n (or_intror Hn)), Hcol. cbn [negb].
  destruct (has_obj Index n d) eqn:Hhas.
  - exists d. split; [reflexivity|]. split; [exact Hr|].
    split; [split; assumption|]. split; [exact Hu|]. split; [exact HL|].
    intros x [<-|Hx]; auto.
  - eexists. split; [reflexivity|]. split; [|split; [|split; [|split]]].
    + exact Hr.
    + split.
      * intros x Hx. rewrite has_obj_add. cbn.
        rewrite (Hc1 x Hx), (proj2 (table_index_names x n Hx (or_intror Hn))).
        reflexivity.
      * intros i Hi. rewrite has_obj_add. cbn. rewrite orb_false_r. auto.
    + rewrite has_obj_add. cbn. rewrite (seed_index_not_unique n Hn).
      now rewrite orb_false_r.
    + intros x Hx. rewrite has_obj_add. cbn. rewrite orb_false_r. auto.
    + intros x [<-|Hx]; rewrite has_obj_add; cbn.
      * rewrite name_eqb_refl. apply orb_true_r.
      * now rewrite (HJ x Hx).
Qed.

Lemma create_unique_index_total s L J d :
  In "notes" L -> ddl_inv s L J d ->
  has_obj Index "uq_notes_title" s = true \/ distinct (map n_title (notes s)) = true ->
  exists d', create_unique_index_notes_title d = Ok d' /\ same_rows s d' /\
             has_obj Index "uq_notes_title" d' = true /\
             incl (objects d) (objects d').
Proof.
  intros Ht (Hr & (Hc1 & Hc2) & Hu & HL & HJ) Hs. unfold create_unique_index_notes_title.
  rewrite (HL _ Ht), (Hc2 _ (or_introl eq_refl)). cbn [negb].
  destruct (has_obj Index "uq_notes_title" d) eqn:Hhas.
  - exists d. split; [reflexivity|]. split; [exact Hr|]. split; [exact Hhas|].
    apply incl_refl.
  - destruct Hs as [Hs|Hs]; [congruence|].
    destruct Hr as (Ra & Ru & Rn & Rr). rewrite Rn, Hs.
    eexists. split; [reflexivity|]. split; [repeat split; auto; apply Rr|].
    split; [|apply incl_appl, incl_refl].
    rewrite has_obj_add. cbn. apply orb_true_r.
Qed.

Lemma has_schema_objects d d' : objects d' = objects d -> has_schema d -> has_schema d'.
Proof.
  intros Ho (Ht & Hi & Hu). unfold has_schema.
  rewrite (has_obj_objects _ _ _ _ Ho).
  split; [|split; [|exact Hu]]; intros x Hx; rewrite (has_obj_objects _ _ _ _ Ho); auto.
Qed.

Lemma in_map_snoc {A} (f : A -> Z) l x i :
  In i (map f (l ++ [x])) -> In i (map f l) \/ i = f x.
Proof.
  rewrite map_app. intros H. apply in_app_or in H. destruct H as [H|[H|[]]]; auto.
Qed.

(** An INSERT of the script into app_info, tags or notes is accepted when
    the schema is there and a rowid is left; it uses up one rowid at
    most. *)
Lemma dml_total fk now q b U d :
  0 <= b -> b < MAX_ROWID -> seed_inv b U d ->
  match q with
  | ReplaceAppInfo _ _ | InsertIgnoreTag _ _ => True
  | UpsertNote _ _ uid _ => existsb (fun r => u_id r =? uid) U = true
  | _ => False
  end ->
  exists d', exec_stmt fk now q d = Ok (d', []) /\ seed_inv (b + 1) U d'.
Proof.
  intros H0 Hm (Hs & ((Ra & Sa) & (Ru & Su) & (Rn & Sn) & (Rt & St)) & HU) Hq.
  pose proof Hs as (Ht & _ & Hidx).
  assert (Ta : has_obj Table "app_info" d = true) by (apply Ht; cbn; tauto).
  assert (Tu : has_obj Table "users" d = true) by (apply Ht; cbn; tauto).
  assert (Tn : has_obj Table "notes" d = true) by (apply Ht; cbn; tauto).
  assert (Tt : has_obj Table "tags" d = true) by (apply Ht; cbn; tauto).
  destruct q; try contradiction; cbn [exec_stmt].
  - (* REPLACE INTO app_info *)
    unfold replace_app_info. rewrite Ta. cbn [negb].
    destruct (new_rowid_room b _ _ Ra Sa Hm H0) as (i & -> & Hi).
    eexists. split; [reflexivity|]. split; [exact Hs|]. split; [|exact HU].
    unfold room. cbn. repeat split; try lia;
      try (intros j Hj; first [apply Ru in Hj | apply Rn in Hj | apply Rt in Hj]; lia).
    intros j Hj. apply in_map_snoc in Hj. destruct Hj as [Hj| ->]; [|cbn; lia].
    apply in_map_filter in Hj. apply Ra in Hj. lia.
  - (* INSERT OR IGNORE INTO tags *)
    unfold insert_ignore_tag. rewrite Tt. cbn [negb].
    destruct (new_rowid_room b _ _ Rt St Hm H0) as (i & -> & Hi).
    destruct (existsb _ (tags d));
      (eexists; split; [reflexivity|]; split; [exact Hs|]; split; [|exact HU]);
      unfold room; cbn; repeat split; try lia;
      try (intros j Hj; first [apply Ra in Hj | apply Ru in Hj | apply Rn in Hj
                              | apply Rt in Hj]; lia).
    intros j Hj. apply in_map_snoc in Hj. destruct Hj as [Hj| ->]; [|cbn; lia].
    apply Rt in Hj. lia.
  - (* INSERT INTO notes ... ON CONFLICT DO UPDATE *)
    unfold upsert_note. rewrite Tn, Hidx, Tu, HU, Hq. cbn [negb andb].
    rewrite !andb_false_r.
    destruct (new_rowid_room b _ _ Rn Sn Hm H0) as (i & -> & Hi).
    destruct (existsb _ (notes d));
      (eexists; split; [reflexivity|]; split; [exact Hs|]; split; [|exact HU]);
      unfold room; cbn; repeat split; try lia;
      try (intros j Hj; first [apply Ra in Hj | apply Ru in Hj | apply Rt in Hj]; lia).
    + intros j Hj. rewrite map_map in Hj.
      erewrite map_ext in Hj; [|intros r; apply touch_note_id]. apply Rn in Hj. lia.
    + intros j Hj. apply in_map_snoc in Hj. destruct Hj as [Hj| ->]; [|cbn; lia].
      apply Rn in Hj. lia.
Qed.

Section Provisionable.

Variable e : env.
Hypothesis no_fault : forall k, fault e k = false.

Lemma total_dml q b U :
  0 <= b -> b < MAX_ROWID ->
  match q with
  | ReplaceAppInfo _ _ | InsertIgnoreTag _ _ => True
  | UpsertNote _ _ uid _ => existsb (fun r => u_id r =? uid) U = true
  | _ => False
  end ->
  hoare (fun w => seed_inv b U (conn_db w)) (execute e q)
        (fun _ w => seed_inv (b + 1) U (conn_db w)) (fun _ _ => False).
Proof.
  intros H0 Hm Hq. apply total_execute; [exact no_fault|]. intros w Hw.
  destruct (dml_total (fk_on w) (clock e (pc w)) q b U (conn_db w) H0 Hm Hw Hq)
    as (d' & Hx & Hd).
  exists d', []. split; [exact Hx|]. intros w' Hc _ _. now rewrite Hc.
Qed.

Lemma total_for_each_dml {X} (body : X -> M unit) U (l : list X) :
  (forall x c, In x l -> 0 <= c -> c < MAX_ROWID ->
     hoare (fun w => seed_inv c U (conn_db w)) (body x)
           (fun _ w => seed_inv (c + 1) U (conn_db w)) (fun _ _ => False)) ->
  forall b, 0 <= b -> b + Z.of_nat (List.length l) <= MAX_ROWID ->
  hoare (fun w => seed_inv b U (conn_db w)) (for_each l body)
        (fun _ w => seed_inv (b + Z.of_nat (List.length l)) U (conn_db w))
        (fun _ _ => False).
Proof.
  induction l as [|x l IH]; intros Hb b H0 Hm; cbn [for_each List.length] in *.
  - apply hoare_ret. intros w Hw. cbn. now rewrite Z.add_0_r.
  - rewrite Nat2Z.inj_succ in Hm |- *. eapply hoare_bind.
    + apply Hb; [now left | exact H0 | lia].
    + intros ?u. cbn beta. replace (b + Z.succ (Z.of_nat (List.length l)))
        with (b + 1 + Z.of_nat (List.length l)) by lia.
      apply IH; [intros y c Hy; apply Hb; now right | lia | lia].
Qed.

Lemma total_upsert_app_info b U :
  0 <= b -> b + 4 <= MAX_ROWID ->
  hoare (fun w => seed_inv b U (conn_db w)) (_upsert_app_info e)
        (fun _ w => seed_inv (b + 4) U (conn_db w)) (fun _ _ => False).
Proof.
  intros H0 Hm. unfold _upsert_app_info.
  replace (b + 4) with (b + 1 + 1 + 1 + 1) by lia.
  eapply hoare_bind; [apply total_dml; [lia | lia | exact I] | intros ?u; cbn beta].
  eapply hoare_bind; [apply total_dml; [lia | lia | exact I] | intros ?u; cbn beta].
  eapply hoare_bind; [apply total_dml; [lia | lia | exact I] | intros ?u; cbn beta].
  apply total_dml; [lia | lia | exact I].
Qed.

Lemma total_seed_tags b U :
  0 <= b -> b + 4 <= MAX_ROWID ->
  hoare (fun w => seed_inv b U (conn_db w)) (_seed_tags e)
        (fun _ w => seed_inv (b + 4) U (conn_db w)) (fun _ _ => False).
Proof.
  intros H0 Hm. unfold _seed_tags.
  apply (total_for_each_dml (fun '(name, color) => execute e (InsertIgnoreTag name color))
           U seed_tags); [|exact H0 | exact Hm].
  intros [n c] k _ Hk0 Hkm. apply total_dml; [exact Hk0 | exact Hkm | exact I].
Qed.

Lemma total_seed_notes b U uid :
  0 <= b -> b + 4 <= MAX_ROWID -> existsb (fun r => u_id r =? uid) U = true ->
  hoare (fun w => seed_inv b U (conn_db w)) (_seed_notes e uid)
        (fun _ w => seed_inv (b + 4) U (conn_db w)) (fun _ _ => False).
Proof.
  intros H0 Hm Hu. unfold _seed_notes.
  apply (total_for_each_dml
           (fun '(title, content, is_archived) =>
              execute e (UpsertNote title content uid is_archived))
           U seed_notes); [|exact H0 | exact Hm].
  intros [[t c] a] k _ Hk0 Hkm. apply total_dml; [exact Hk0 | exact Hkm | exact Hu].
Qed.

Lemma insert_ignore_user_total fk now b U d :
  0 <= b -> b < MAX_ROWID -> seed_inv b U d ->
  has_user "demo" d = true \/ email_free d = true ->
  exists d' U', exec_stmt fk now (InsertIgnoreUser "demo" "demo@example.com") d
                = Ok (d', []) /\
                seed_inv (b + 1) U' d' /\ has_user "demo" d' = true.
Proof.
  intros H0 Hm (Hs & ((Ra & Sa) & (Ru & Su) & (Rn & Sn) & (Rt & St)) & HU) Hdemo.
  pose proof Hs as (Ht & _ & _).
  assert (Tu : has_obj Table "users" d = true) by (apply Ht; cbn; tauto).
  cbn [exec_stmt]. unfold insert_ignore_user. rewrite Tu. cbn [negb].
  destruct (new_rowid_room b _ _ Ru Su Hm H0) as (i & -> & Hi).
  rewrite existsb_or. fold (has_user "demo" d).
  assert (Hroom : forall us, (forall j, In j (map u_id us) -> j <= b + 1) ->
            room (b + 1) (with_users us i d)).
  { intros us Hus. unfold room. cbn. repeat split; try lia; try exact Hus;
      intros j Hj; first [apply Ra in Hj | apply Rn in Hj | apply Rt in Hj]; lia. }
  destruct (has_user "demo" d) eqn:Hd; cbn [orb].
  - eexists. exists (users d). split; [reflexivity|].
    split; [|exact Hd]. split; [exact Hs|]. split; [|reflexivity].
    apply Hroom. intros j Hj. apply Ru in Hj. lia.
  - destruct Hdemo as [Hx|Hfree]; [discriminate Hx|].
    unfold email_free in Hfree. apply negb_true_iff in Hfree. rewrite Hfree.
    eexists. eexists. split; [reflexivity|].
    split; [split; [exact Hs | split; [|reflexivity]]|].
    + apply Hroom. intros j Hj. apply in_map_snoc in Hj.
      destruct Hj as [Hj| ->]; [apply Ru in Hj; lia | cbn; lia].
    + unfold has_user. cbn. rewrite existsb_app. cbn. apply orb_true_r.
Qed.

Lemma total_ensure_seed_user b U :
  0 <= b -> b < MAX_ROWID ->
  existsb (fun r => String.eqb (u_username r) "demo") U = true \/
  existsb (fun r => String.eqb (u_email r) "demo@example.com") U = false ->
  hoare (fun w => seed_inv b U (conn_db w)) (_ensure_seed_user e)
        (fun uid w => exists U', existsb (fun r => u_id r =? uid) U' = true /\
                                 seed_inv (b + 1) U' (conn_db w))
        (fun _ _ => False).
Proof.
  intros H0 Hm HdU. unfold _ensure_seed_user.
  eapply hoare_bind.
  { apply total_execute
      with (Q := fun w => exists U', seed_inv (b + 1) U' (conn_db w) /\
                                     has_user "demo" (conn_db w) = true);
      [exact no_fault|].
    intros w Hw.
    assert (Hd : has_user "demo" (conn_db w) = true \/ email_free (conn_db w) = true).
    { destruct Hw as (_ & _ & HU). unfold has_user, email_free. rewrite HU.
      destruct HdU as [Hx|Hx]; [now left | right; now rewrite Hx]. }
    destruct (insert_ignore_user_total (fk_on w) (clock e (pc w)) b U (conn_db w)
                H0 Hm Hw Hd) as (d' & U' & Hx & Hinv & Hdemo).
    exists d', []. split; [exact Hx|]. intros w' Hc _ _. rewrite Hc. eauto. }
  intros ?u; cbn beta. eapply hoare_bind.
  { apply total_execute
      with (Q := fun w => exists U' uid, seed_inv (b + 1) U' (conn_db w) /\
                            hd_error (fetched w) = Some uid /\
                            existsb (fun r => u_id r =? uid) U' = true);
      [exact no_fault|].
    intros w (U' & Hw & Hd). pose proof Hw as ((Ht & _) & _ & HU).
    assert (Tu : has_obj Table "users" (conn_db w) = true) by (apply Ht; cbn; tauto).
    cbn [exec_stmt]. unfold select_user_id. rewrite Tu. cbn [negb selected].
    eexists. eexists. split; [reflexivity|]. intros w' Hc Hf _.
    destruct (first_of_existsb _ u_id _ Hd) as [uid Huid].
    exists U', uid. rewrite Hc, Hf. split; [exact Hw|]. split; [exact Huid|].
    rewrite <- HU. exact (first_id_in _ _ _ _ Huid). }
  intros ?u; cbn beta. eapply hoare_bind.
  { apply total_fetchone
      with (Q := fun r w => exists U' uid, seed_inv (b + 1) U' (conn_db w) /\
                              r = Some uid /\
                              existsb (fun r => u_id r =? uid) U' = true).
    intros w w' (U' & uid & Hw & Hf & Hu) Hc _. exists U', uid. rewrite Hc. auto. }
  intros [v|]; cbn [item0].
  - apply hoare_ret. intros w (U' & uid & Hw & Hf & Hu). injection Hf as ->. eauto.
  - intros w (U' & uid & _ & Hf & _). discriminate Hf.
Qed.

Lemma hoare_exists {A X} (P : X -> world -> Prop) (m : M A) Q E :
  (forall x, hoare (P x) m Q E) -> hoare (fun w => exists x, P x w) m Q E.
Proof. intros H w [x Hw]. exact (H x w Hw). Qed.

Lemma total_commit (P : world -> Prop) :
  hoare P (commit e) (fun _ _ => True) (fun _ _ => False).
Proof. intros w _. unfold commit. now rewrite no_fault. Qed.

Lemma total_create_table s L J t :
  In t schema_tables ->
  hoare (fun w => ddl_inv s L J (conn_db w)) (execute e (CreateTable t))
        (fun _ w => ddl_inv s (t :: L) J (conn_db w)) (fun _ _ => False).
Proof.
  intros Ht. apply total_execute; [exact no_fault|]. intros w Hw.
  destruct (create_table_total s L J t (conn_db w) Ht Hw) as (d' & Hx & Hd).
  exists d', []. cbn [exec_stmt]. rewrite Hx. split; [reflexivity|].
  intros w' Hc _ _. now rewrite Hc.
Qed.

Lemma total_create_index s L J n tbl col :
  In n seed_indexes -> In tbl L -> has_column tbl col = true ->
  hoare (fun w => ddl_inv s L J (conn_db w)) (execute e (CreateIndex n tbl col))
        (fun _ w => ddl_inv s L (n :: J) (conn_db w)) (fun _ _ => False).
Proof.
  intros Hn Ht Hcol. apply total_execute; [exact no_fault|]. intros w Hw.
  destruct (create_index_total s L J n tbl col (conn_db w) Hn Ht Hcol Hw) as (d' & Hx & Hd).
  exists d', []. cbn [exec_stmt]. rewrite Hx. split; [reflexivity|].
  intros w' Hc _ _. now rewrite Hc.
Qed.

Lemma total_unique_index s L J b :
  incl schema_tables L -> incl seed_indexes J -> room b s ->
  has_obj Index "uq_notes_title" s = true \/ distinct (map n_title (notes s)) = true ->
  hoare (fun w => ddl_inv s L J (conn_db w)) (execute e CreateUniqueIndexNotesTitle)
        (fun _ w => seed_inv b (users s) (conn_db w)) (fun _ _ => False).
Proof.
  intros HL HJ Hroom Huq. apply total_execute; [exact no_fault|]. intros w Hw.
  assert (Hn : In "notes" L) by (apply HL; cbn; tauto).
  destruct (create_unique_index_total s L J (conn_db w) Hn Hw Huq)
    as (d' & Hx & Hr & Hu & Hi).
  exists d', []. cbn [exec_stmt]. rewrite Hx. split; [reflexivity|].
  intros w' Hc _ _. rewrite Hc. destruct Hw as (_ & _ & _ & HLd & HJd).
  split; [|split].
  - split; [|split; [|exact Hu]]; intros x Hx'.
    + apply (has_obj_incl _ _ _ _ Hi). apply HLd, HL, Hx'.
    + apply (has_obj_incl _ _ _ _ Hi). apply HJd, HJ, Hx'.
  - destruct Hr as (Ra & Ru & Rn & Rt & _ & Sa & Su & Sn & St).
    unfold room. rewrite Ra, Ru, Rn, Rt, Sa, Su, Sn, St. exact Hroom.
  - apply Hr.
Qed.

Ltac ddl_step :=
  lazymatch goal with
  | |- hoare _ (bind _ _) _ _ => eapply hoare_bind; [| intros ?u; cbn beta]
  | |- hoare _ (execute _ (CreateTable _)) _ _ =>
      apply total_create_table; cbn; tauto
  | |- hoare _ (execute _ (CreateIndex _ _ _)) _ _ =>
      apply total_create_index; [cbn; tauto | cbn; tauto | reflexivity]
  end.

(** On a provisionable store, with a store that answers, the schema and
    seed steps run to the end of the commit. *)
Lemma provision_total s :
  provisionable s ->
  hoare (fun w => conn_db w = s) (provision e) (fun _ _ => True) (fun _ _ => False).
Proof.
  intros (Hcf & Huq & Hdemo & Hroom).
  unfold provision, _enable_foreign_keys, _create_core_tables, _create_notes_schema,
    _ensure_notes_title_unique_index.
  eapply hoare_bind.
  { apply total_execute with (Q := fun w => ddl_inv s [] [] (conn_db w));
      [exact no_fault|].
    intros w Hw. exists (conn_db w), []. split; [reflexivity|].
    intros w' Hc _ _. rewrite Hc, Hw.
    split; [apply same_rows_refl|]. split; [exact Hcf|]. split; [reflexivity|].
    split; intros x []. }
  intros ?u; cbn beta.
  eapply hoare_bind; [repeat ddl_step | intros ?u; cbn beta].
  eapply hoare_bind; [repeat ddl_step | intros ?u; cbn beta].
  eapply hoare_bind.
  { apply (total_unique_index s _ _ (MAX_ROWID - 14)); [| | exact Hroom | exact Huq];
      intros x Hx; cbn in Hx |- *; tauto. }
  intros ?u; cbn beta.
  eapply hoare_bind;
    [apply total_upsert_app_info; unfold MAX_ROWID; lia | intros ?u; cbn beta].
  eapply hoare_bind.
  { apply total_ensure_seed_user; [unfold MAX_ROWID; lia | unfold MAX_ROWID; lia |].
    unfold has_user, email_free in Hdemo.
    destruct Hdemo as [Hx|Hx]; [now left | right; now apply negb_true_iff]. }
  intros uid; cbn beta. apply hoare_exists. intros U'. apply hoare_pure. intros Hu.
  eapply hoare_bind;
    [apply total_seed_tags; unfold MAX_ROWID; lia | intros ?u; cbn beta].
  eapply hoare_bind;
    [apply total_seed_notes; [unfold MAX_ROWID; lia | unfold MAX_ROWID; lia | exact Hu]
    | intros ?u; cbn beta].
  eapply hoare_bind; [| intros ?u; apply total_commit].
  intros w ((Ht & _) & _).
  assert (Hl : has_link_tables (conn_db w)) by (repeat split; apply Ht; cbn; tauto).
  pose proof (seed_note_tags_total e no_fault (conn_db w) w (conj eq_refl Hl)) as H.
  destruct (_seed_note_tags e w) as [[[r|x] w'] o]; [exact I | exact H].
Qed.

End Provisionable.







(** ** Runs that end well *)

Section EndsWell.

Variable e : env.
Hypothesis no_fault : forall k, fault e k = false.
Hypothesis cwd_known : getcwd e <> None.
Hypothesis dir_ok :
  path_exists e "db_visualizer" = true \/ can_mkdir e "db_visualizer" = true.





End EndsWell.




(** ** A further run *)

Lemma has_obj_name t n x d : name_eqb n x = true -> has_obj t n d = has_obj t x d.
Proof.
  intros H. apply String.eqb_eq in H. unfold has_obj.
  induction (objects d) as [|o l IH]; cbn [existsb]; [reflexivity|].
  rewrite IH. unfold name_eqb. now rewrite H.
Qed.

Lemma unique_names_stable : stable false unique_names.
Proof.
  intros q fk now d d' rows Hq _ Hd H.
  destruct q; exec_inv H; try exact Hd; intros x Ht Hi;
    rewrite has_obj_add in Ht, Hi; cbn [obj_type_eqb andb] in Ht, Hi;
    try rewrite orb_false_r in Ht; try rewrite orb_false_r in Hi.
  - (* a table is added: no index bore its name *)
    apply orb_true_iff in Ht. destruct Ht as [Ht|Ht]; [exact (Hd x Ht Hi)|].
    rewrite <- (has_obj_name Index _ _ d Ht) in Hi. congruence.
  - (* an index is added: no table bore its name *)
    apply orb_true_iff in Hi. destruct Hi as [Hi|Hi]; [exact (Hd x Ht Hi)|].
    rewrite <- (has_obj_name Table _ _ d Hi) in Ht. congruence.
  - apply orb_true_iff in Hi. destruct Hi as [Hi|Hi]; [exact (Hd x Ht Hi)|].
    rewrite <- (has_obj_name Table _ _ d Hi) in Ht. congruence.
Qed.

(** The store that a committed run leaves is provisionable as long as
    rowids are left. *)
Lemma committed_provisionable e s s' :
  unique_names s -> committed e s s' -> room (MAX_ROWID - 14) s' -> provisionable s'.
Proof.
  intros Hn Hc Hroom.
  pose proof (committed_keeps e false unique_names s s' unique_names_stable Hn Hc) as Hn'.
  assert (Hs : has_schema s')
    by (destruct Hc as (w & o & H & ->); exact (provision_has_schema e _ _ _ H)).
  destruct Hs as (Ht & Hi & Hu).
  split; [split|split; [now left|split; [left|exact Hroom]]].
  - intros t Hin. destruct (has_obj Index t s') eqn:Hx; [|reflexivity].
    destruct (Hn' t (Ht t Hin) Hx).
  - intros i Hin. destruct (has_obj Table i s') eqn:Hx; [|reflexivity].
    destruct Hin as [<-|Hin]; [destruct (Hn' _ Hx Hu) | destruct (Hn' _ Hx (Hi i Hin))].
  - apply committed_seeding in Hc. destruct Hc as (d5 & d6 & d7 & d8 & uid & S).
    destruct (seeding_seeded _ _ _ _ _ _ _ _ S) as [Hfirst _ _ _].
    exact (first_user_id_has _ _ _ Hfirst).
Qed.

(** X18.  The script can be run again: on the store that a committed run
    left (from a store in which no table and index share a name, as SQLite
    ensures), a further run commits whenever the store answers every
    statement and the ids and counters leave room for thirteen rowids. *)
Theorem X18_rerun_commits e1 e2 s s1 :
  unique_names s -> committed e1 s s1 ->
  (forall k, fault e2 k = false) -> room (MAX_ROWID - 14) s1 ->
  exists s2, committed e2 s1 s2.
Proof.
  intros Hn Hc Hnf Hroom.
  pose proof (committed_provisionable e1 s s1 Hn Hc Hroom) as Hs.
  pose proof (provision_total e2 Hnf s1 Hs (boot s1) eq_refl) as H.
  destruct (provision e2 (boot s1)) as [[[[]|x] w] o] eqn:Hp; [|contradiction].
  exists (disk w), w, o. auto.
Qed.

Lemma unique_names_fresh : unique_names fresh.
Proof. intros n H. discriminate H. Defined.

Lemma room_once : room (MAX_ROWID - 14) once.
Proof.
  assert (Ea : map ai_id (app_info once) = [1; 2; 3; 4]) by (vm_compute; reflexivity).
  assert (Eu : map u_id (users once) = [1]) by (vm_compute; reflexivity).
  assert (En : map n_id (notes once) = [1; 2; 3; 4]) by (vm_compute; reflexivity).
  assert (Et : map t_id (tags once) = [1; 2; 3; 4]) by (vm_compute; reflexivity).
  unfold room. rewrite Ea, Eu, En, Et.
  split; [split|split; [split|split; [split|split]]].
  all: lazymatch goal with
       | |- forall _, _ =>
           intros i Hi; cbn in Hi;
           repeat (destruct Hi as [Hi|Hi];
                   [rewrite <- Hi; vm_compute; intros H; discriminate H|]);
           contradiction
       | |- _ => vm_compute; intros H; discriminate H
       end.
Defined.

(** X18, witness: a second run on the store of the run on the empty
    store. *)
Lemma X18_rerun_commits_witness : exists s2, committed (calm t1) once s2.
Proof.
  exact (X18_rerun_commits (calm t0) (calm t1) fresh once unique_names_fresh
           committed_once (fun _ => eq_refl) room_once).
Defined.

(** ** The advisory checks *)

Lemma fst_bind {A B} (m m' : M A) (f f' : A -> M B) w :
  fst (m w) = fst (m' w) -> (forall a w1, fst (f a w1) = fst (f' a w1)) ->
  fst (bind m f w) = fst (bind m' f' w).
Proof.
  intros Hm Hf. unfold bind.
  destruct (m w) as [[[a|x] w1] o1], (m' w) as [[[a'|x'] w1'] o1'];
    cbn in Hm; try discriminate Hm.
  - injection Hm as <- <-. specialize (Hf a w1).
    destruct (f a w1) as [[r w2] o2], (f' a w1) as [[r' w2'] o2'].
    cbn in Hf |- *. exact Hf.
  - injection Hm as <- <-. reflexivity.
Qed.

Lemma report_checks x y c e w : fst (report (with_checks x y c e) w) = fst (report e w).
Proof.
  unfold report.
  repeat (apply fst_bind; [reflexivity | intros ? ?]).
  apply fst_bind; [|reflexivity].
  unfold try_except, bind, which_cli, print, ret. cbn [which_sqlite3 with_checks].
  destruct c as [[|]|], (which_sqlite3 e) as [[|]|]; reflexivity.
Qed.

Lemma run_after_greet e s :
  fst (run e s)
  = fst ((connect e ;; try_finally (provision e ;; report e) close) (boot s)).
Proof.
  unfold run. rewrite main_split. destruct (greet_boot e s) as [o Ho].
  unfold bind at 1. rewrite Ho.
  destruct ((connect e ;; try_finally (provision e ;; report e) close) (boot s))
    as [[r w] o'].
  reflexivity.
Qed.

(** X19.  The three advisory checks of [main] never change what a run does
    to the store nor how it ends: whatever os.path.exists reports of the
    database file, whether the probing connection succeeds, and whatever
    the search for the sqlite3 CLI returns or raises, the run ends with the
    same result in the same state.  A probe that fails on an existing file
    is reported by a warning only. *)
Theorem X19_checks_are_advisory e s :
  (forall x y c, fst (run (with_checks x y c e) s) = fst (run e s)) /\
  (db_file_exists e = true -> probe_ok e = false ->
   In (Print (LineExn "Warning: Database exists but may be corrupted: " OperationalError))
      (snd (run e s))).
Proof.
  split.
  - intros x y c. rewrite !run_after_greet.
    apply (fst_bind (connect (with_checks x y c e)) (connect e)
             (fun _ => try_finally (provision (with_checks x y c e) ;;
                                    report (with_checks x y c e)) close)
             (fun _ => try_finally (provision e ;; report e) close));
      [reflexivity|].
    intros _ w1. unfold try_finally.
    assert (H : fst ((provision (with_checks x y c e) ;; report (with_checks x y c e)) w1)
                = fst ((provision e ;; report e) w1)).
    { apply fst_bind; [reflexivity | intros a w2; apply report_checks]. }
    destruct ((provision (with_checks x y c e) ;; report (with_checks x y c e)) w1)
      as [[r w2] o2], ((provision e ;; report e) w1) as [[r' w2'] o2'].
    cbn in H |- *. now injection H as <- <-.
  - intros Hx Hp. unfold run. rewrite main_split.
    unfold bind at 1. unfold greet, bind at 1, print at 1. rewrite Hx.
    unfold bind at 1, print at 1, try_except, bind at 1, probe. rewrite Hp.
    cbn [print app].
    destruct ((connect e ;; try_finally (provision e ;; report e) close) (boot s))
      as [[r w] o].
    cbn. tauto.
Qed.

(** ** The rows of the seed tags *)








(** ** The rows of the seed notes *)

Lemma upsert_note_new fk now t c uid a d d' :
  upsert_note fk now t c uid a d = Ok d' -> has_note t d = false ->
  exists i, notes d' = notes d ++ [{| n_id := i; n_title := t; n_content := c;
                                      n_user_id := Some uid; n_is_archived := a;
                                      n_created_at := now; n_updated_at := now |}] /\
            forall j, In j (map n_id (notes d)) -> j < i.
Proof.
  unfold upsert_note, has_note. intros H Hn. rewrite Hn in H.
  repeat match type of H with
         | context [match new_rowid ?x ?y with _ => _ end] =>
             destruct (new_rowid x y) as [i|] eqn:Hi
         | context [if ?b then _ else _] => destruct b
         end; try discriminate H; injection H as <-.
  all: exists i; split; [reflexivity|]; apply new_rowid_above in Hi; apply Hi.
Qed.

Lemma filter_title_touch now t0 c u a t l :
  t <> t0 ->
  filter (fun r => String.eqb (n_title r) t) (map (touch_note now t0 c u a) l)
  = filter (fun r => String.eqb (n_title r) t) l.
Proof.
  intros Hne. induction l as [|r l IH]; cbn; [reflexivity|].
  rewrite touch_note_title, IH.
  destruct (String.eqb_spec (n_title r) t) as [Ht|_]; [|reflexivity].
  rewrite touch_note_other; [reflexivity | congruence].
Qed.

Lemma upsert_note_ids fk now t c uid a d d' j :
  upsert_note fk now t c uid a d = Ok d' ->
  In j (map n_id (notes d)) -> In j (map n_id (notes d')).
Proof.
  intros H Hj. apply upsert_note_spec in H. destruct H as (_ & [[_ ->]|[_ [i ->]]]).
  - rewrite map_map. erewrite map_ext; [exact Hj|]. intros r. apply touch_note_id.
  - rewrite map_app. apply in_or_app. now left.
Qed.

(** The upserts of the notes [l] leave the notes of any other title
    alone. *)
Lemma upserted_filter_other e uid k l d d' t :
  upserted e uid k l d d' -> ~ In t (map (fun x => fst (fst x)) l) ->
  filter (fun r => String.eqb (n_title r) t) (notes d')
  = filter (fun r => String.eqb (n_title r) t) (notes d).
Proof.
  induction 1 as [|k t0 c0 a0 l fk d d1 d' Hu _ IH]; [reflexivity|]. cbn. intros Hn.
  rewrite IH; [|tauto].
  apply upsert_note_spec in Hu. destruct Hu as (_ & [[_ ->]|[_ [i ->]]]).
  - apply filter_title_touch. intros ->. apply Hn. now left.
  - rewrite filter_app. cbn.
    destruct (String.eqb_spec t0 t) as [->|_]; [|apply app_nil_r].
    exfalso. apply Hn. now left.
Qed.

(** The [i]-th seed note, when no note bore its title: one row is added at
    the [i]-th statement. *)
Lemma upserted_new e uid l :
  forall k d d' i t c a,
    upserted e uid k l d d' ->
    NoDup (map (fun x => fst (fst x)) l) ->
    nth_error l i = Some (t, c, a) -> has_note t d = false ->
    exists j,
      filter (fun r => String.eqb (n_title r) t) (notes d')
      = [{| n_id := j; n_title := t; n_content := c; n_user_id := Some uid;
            n_is_archived := a; n_created_at := clock e (k + i);
            n_updated_at := clock e (k + i) |}] /\
      forall x, In x (map n_id (notes d)) -> x < j.
Proof.
  induction l as [|[[t0 c0] a0] l IH]; intros k d d' i t c a Hup Hnd Hi Hn.
  - destruct i; discriminate Hi.
  - revert Hi Hn.
    inversion Hup as [|k' t' c' a' l' fk d0 d1 d2 Hu Hrest]; subst.
    intros Hi Hn. cbn in Hnd. apply NoDup_cons_iff in Hnd. destruct Hnd as [Hnot Hnd].
    destruct i as [|i]; cbn in Hi.
    + injection Hi as -> -> ->. rewrite Nat.add_0_r.
      destruct (upsert_note_new _ _ _ _ _ _ _ _ Hu Hn) as (j & Hj & Hlt).
      exists j. split; [|exact Hlt].
      rewrite (upserted_filter_other _ _ _ _ _ _ t Hrest Hnot), Hj, filter_app.
      cbn. rewrite String.eqb_refl.
      rewrite (filter_none _ (notes d)); [reflexivity|].
      intros x Hx. exact (existsb_false_In _ _ _ Hn Hx).
    + assert (Hne : t <> t0).
      { intros ->. apply Hnot. apply nth_error_In in Hi.
        now apply (in_map (fun x => fst (fst x))) in Hi. }
      assert (Hn1 : has_note t d1 = false).
      { unfold has_note in *.
        pose proof (upsert_note_spec _ _ _ _ _ _ _ _ Hu) as (_ & [[_ ->]|[_ [j ->]]]).
        - destruct (existsb _ (map _ (notes d))) eqn:Hex; [|reflexivity].
          apply existsb_exists in Hex. destruct Hex as [r [Hr Ht]].
          apply in_map_iff in Hr. destruct Hr as [r0 [<- Hr0]].
          rewrite touch_note_title in Ht.
          now rewrite (existsb_false_In _ _ _ Hn Hr0) in Ht.
        - rewrite existsb_app, Hn. cbn. rewrite orb_false_r.
          apply String.eqb_neq. congruence. }
      destruct (IH (S k) d1 d' i t c a Hrest Hnd Hi Hn1) as (j & Hj & Hlt).
      exists j. replace (k + S i)%nat with (S k + i)%nat by lia.
      split; [exact Hj|]. intros x Hx. apply Hlt.
      exact (upsert_note_ids _ _ _ _ _ _ _ _ _ Hu Hx).
Qed.

(** X21.  After a run that commits, a seed note whose title the store did
    not hold is there in exactly one row: the seed content and archive
    flag, the user demo as owner, the time of its INSERT (statement 24 + i
    for the i-th seed note) as creation and update time, and an id greater
    than that of every note the store held. *)
Theorem X21_new_seed_notes e s s' i t c a :
  committed e s s' -> nth_error seed_notes i = Some (t, c, a) -> has_note t s = false ->
  exists j uid,
    first_user_id "demo" s' = Some uid /\
    filter (fun r => String.eqb (n_title r) t) (notes s')
    = [{| n_id := j; n_title := t; n_content := c; n_user_id := Some uid;
          n_is_archived := a; n_created_at := clock e (24 + i);
          n_updated_at := clock e (24 + i) |}] /\
    forall r0, In r0 (notes s) -> n_id r0 < j.
Proof.
  intros Hc Hi Hn. apply committed_seeding in Hc.
  destruct Hc as (d5 & d6 & d7 & d8 & uid & S).
  pose proof (seeding_seeded _ _ _ _ _ _ _ _ S) as [Hu _ _ _].
  destruct S as [_ _ _ _ _ _ (_ & _ & N7 & _) Hup _ _ (_ & _ & _ & Ns)].
  assert (Hn7 : has_note t d7 = false) by (unfold has_note in *; now rewrite N7).
  destruct (upserted_new e uid seed_notes 24 d7 d8 i t c a Hup seed_titles_NoDup Hi Hn7)
    as (j & Hj & Hlt).
  exists j, uid. split; [exact Hu|]. rewrite Ns. split; [exact Hj|].
  intros r0 Hr0. apply Hlt. rewrite N7. now apply in_map.
Qed.

(** X21, witness: the archived example of the run on the empty store. *)
Lemma X21_new_seed_notes_witness :
  exists j uid,
    first_user_id "demo" once = Some uid /\
    filter (fun r => String.eqb (n_title r) "Archived example") (notes once)
    = [{| n_id := j; n_title := "Archived example";
          n_content := "This is an archived note to test filtered views.";
          n_user_id := Some uid; n_is_archived := 1;
          n_created_at := clock (calm t0) (24 + 3);
          n_updated_at := clock (calm t0) (24 + 3) |}] /\
    forall r0, In r0 (notes fresh) -> n_id r0 < j.
Proof.
  exact (X21_new_seed_notes (calm t0) fresh once 3 "Archived example"
           "This is an archived note to test filtered views." 1
           committed_once eq_refl eq_refl).
Defined.
